(** * pdf-to-json: structure inference from styled text spans

    A shallow embedding of [src/pdf_to_json.py] and the properties of its
    three classes: [PDFParser] (style catalog, tag assignment, block
    segmentation), [HTMLToJsonConverter] (page structuring and the repair
    pass) and [MetadataEnhancedJsonConverter] (metadata stamping).

    Modelling conventions.
    - A Python [str] is a [string]: a list of characters, each a code point
      from 0 to 255; [int] is [Z].
    - A span's [size] is a Python float.  The code only compares sizes
      ([==], [>], sort order) and formats them into identifiers, so sizes are
      modelled as [Z] (a font size in fixed-point units): a totally ordered
      type with an injective, underscore-free decimal rendering, as the
      finite positive floats PyMuPDF reports are.
    - A Python exception is a [Raise] result; [dict]s used as maps are [gmap]s;
      the insertion-ordered [defaultdict] of occurrence counts, whose order
      decides ties in the stable sort, is an association list. *)

From Stdlib Require Import Ascii.
From stdpp Require Import gmap strings pretty sorting list.

(* ===================================================================== *)
(** * The Python built-ins the program relies on *)
(* ===================================================================== *)

Module Py.

(** Exceptions the modelled code can raise. *)
Inductive exn :=
| ValueError (msg : string)
| KeyError (key : string)
| IndexError.

Inductive result (A : Type) :=
| Ok (a : A)
| Raise (e : exn).
Global Arguments Ok {A} a.
Global Arguments Raise {A} e.

Definition bind {A B} (r : result A) (k : A → result B) : result B :=
  match r with
  | Ok a => k a
  | Raise e => Raise e
  end.

(** Sequencing of statements that may raise, written [x ← c; k]. *)
Global Instance result_bind : MBind result := λ A B k r, bind r k.

(** [for x in xs: acc = body(acc, x)], stopping at the first exception. *)
Fixpoint for_each {A St} (body : St → A → result St) (xs : list A) (acc : St)
  : result St :=
  match xs with
  | [] => Ok acc
  | x :: xs' => bind (body acc x) (for_each body xs')
  end.

(** The characters [str.strip()] removes and [str.isspace] accepts, among
    the code points 0 to 255: tab to carriage return, the four separators
    U+001C to U+001F, the space, next line (U+0085) and the no-break space
    (U+00A0). *)
Definition isspace (c : ascii) : bool :=
  match c with
  | "009" | "010" | "011" | "012" | "013"
  | "028" | "029" | "030" | "031" | " "
  | "133" | "160" => true
  | _ => false
  end%char.

Definition isdigit (c : ascii) : bool :=
  match c with
  | "0" | "1" | "2" | "3" | "4" | "5" | "6" | "7" | "8" | "9" => true
  | _ => false
  end%char.

Fixpoint lstrip (s : string) : string :=
  match s with
  | String c s' => if isspace c then lstrip s' else s
  | EmptyString => EmptyString
  end.

(** [rstrip]: a character is kept when it is not a space or when something
    survives after it. *)
Fixpoint rstrip (s : string) : string :=
  match s with
  | String c s' =>
      match rstrip s' with
      | EmptyString => if isspace c then EmptyString else String c EmptyString
      | r => String c r
      end
  | EmptyString => EmptyString
  end.

Definition strip (s : string) : string := rstrip (lstrip s).

(** Truth value of a [str]: non-empty. *)
Definition truthy (s : string) : bool :=
  match s with
  | EmptyString => false
  | String _ _ => true
  end.

(** [s.split(sep, 1)] for a one-character separator: [[s]] when [sep] does
    not occur, else [[before; after]] around its first occurrence. *)
Fixpoint split1 (sep : ascii) (s : string) : list string :=
  match s with
  | EmptyString => [EmptyString]
  | String c s' =>
      if decide (c = sep) then [EmptyString; s']
      else match split1 sep s' with
           | before :: more => String c before :: more
           | [] => []
           end
  end.

(** [xs[i]] on a list: [IndexError] out of range. *)
Definition index {A} (xs : list A) (i : nat) : result A :=
  match xs !! i with
  | Some x => Ok x
  | None => Raise IndexError
  end.

(** [sorted(xs, key=...)] is a stable sort that only uses [<] on keys; [lt a b]
    stands for [key(a) < key(b)].  Insertion from the right keeps equal
    elements in their original order. *)
Section sorted.
Context {A : Type} (lt : A → A → bool).

Fixpoint insert_sorted (x : A) (l : list A) : list A :=
  match l with
  | [] => [x]
  | y :: l' => if lt y x then y :: insert_sorted x l' else x :: l
  end.

Definition sorted (l : list A) : list A := foldr insert_sorted [] l.
End sorted.

(** [c in s] for a character. *)
Fixpoint contains (c : ascii) (s : string) : bool :=
  match s with
  | EmptyString => false
  | String d s' => bool_decide (d = c) || contains c s'
  end.

(** [os.path.basename] (POSIX): [p[p.rfind('/') + 1:]], everything after
    the last slash. *)
Fixpoint basename (p : string) : string :=
  match p with
  | EmptyString => EmptyString
  | String c p' =>
      if contains "/" p' then basename p'
      else if decide (c = "/"%char) then p' else p
  end.

End Py.


(* ===================================================================== *)
(** * class PDFParser *)
(* ===================================================================== *)

Module PDFParser.
Import Py.

(** What [page.get_text("dict")] yields: blocks of lines of spans. *)
Record Span := {
  text : string;
  size : Z;
  font : string;
  color : Z;
}.

Record Line := { spans : list Span }.

(** [block_type] 0 is a text block; other blocks carry no lines that the
    parser reads. *)
Record Block := { block_type : Z; lines : list Line }.

Record Page := { number : Z; blocks : list Block }.

(** The style dicts of [_extract_style]: all three attributes, or the size
    alone when [granularity] is off. *)
Inductive Style :=
| StyleFull (sz : Z) (fnt : string) (col : Z)
| StyleSize (sz : Z).

Definition style_size (st : Style) : result Z :=
  match st with
  | StyleFull sz _ _ | StyleSize sz => Ok sz
  end.

Definition style_font (st : Style) : result string :=
  match st with
  | StyleFull _ fnt _ => Ok fnt
  | StyleSize _ => Raise (KeyError "font")
  end.

Definition style_color (st : Style) : result Z :=
  match st with
  | StyleFull _ _ col => Ok col
  | StyleSize _ => Raise (KeyError "color")
  end.

(** One element of [process_document]'s result. *)
Record PageData := { page : Z; content : list (list string) }.

(** [f"{size}_{font}_{color}"] *)
Definition format_identifier (sz : Z) (fnt : string) (col : Z) : string :=
  pretty sz +:+ "_" +:+ fnt +:+ "_" +:+ pretty col.

Definition _create_identifier (span : Span) (granularity : bool) : string :=
  if granularity then format_identifier (size span) (font span) (color span)
  else pretty (size span).

Definition _extract_style (span : Span) (granularity : bool) : Style :=
  if granularity then StyleFull (size span) (font span) (color span)
  else StyleSize (size span).

(** The spans of the text blocks of a page, in document order:
    [for block in blocks: if block['type'] == 0: for line: for span]. *)
Definition block_spans (block : Block) : list Span :=
  l ← lines block; spans l.

Definition text_spans (p : Page) : list Span :=
  b ← blocks p; if decide (block_type b = 0%Z) then block_spans b else [].

(** [font_counts[identifier] += 1] on the insertion-ordered defaultdict. *)
Fixpoint increment (identifier : string) (font_counts : list (string * nat))
  : list (string * nat) :=
  match font_counts with
  | [] => [(identifier, 1)]
  | (k, n) :: rest =>
      if decide (k = identifier) then (k, S n) :: rest
      else (k, n) :: increment identifier rest
  end.

Definition catalog_step (granularity : bool)
    (acc : gmap string Style * list (string * nat)) (span : Span)
  : gmap string Style * list (string * nat) :=
  let '(styles, font_counts) := acc in
  let identifier := _create_identifier span granularity in
  (<[identifier := _extract_style span granularity]> styles,
   increment identifier font_counts).

(** [sorted(font_counts.items(), key=lambda x: x[1], reverse=True)] *)
Definition by_count_desc (a b : string * nat) : bool := (b.2 <? a.2)%nat.

Definition _extract_fonts (p : Page) (granularity : bool)
  : result (list (string * nat) * gmap string Style) :=
  let '(styles, font_counts) :=
    foldl (catalog_step granularity) (∅, []) (text_spans p) in
  match font_counts with
  | [] => Raise (ValueError ("No fonts found on page " +:+ pretty (number p)))
  | _ =>
      let sorted_font_counts := sorted by_count_desc font_counts in
      Ok (sorted_font_counts, styles)
  end.

Definition _determine_tag (sz : Z) (fnt : string) (col : Z)
    (primary_style : Style) (header_idx subheader_idx : nat)
  : result (string * nat * nat) :=
  p_size ← style_size primary_style;
  p_font ← style_font primary_style;
  p_color ← style_color primary_style;
  if bool_decide ((sz, fnt, col) = (p_size, p_font, p_color)) then
    Ok ("<p>", header_idx, subheader_idx)
  else if bool_decide (sz > p_size)%Z
          || (bool_decide (sz = p_size)
              && (bool_decide (fnt ≠ p_font) || bool_decide (col ≠ p_color)))
  then
    let tag := "<h" +:+ pretty header_idx +:+ ">" in
    Ok (tag, header_idx + 1, subheader_idx)
  else
    Ok ("<p>", header_idx, subheader_idx).

(** [(style['size'], style['font'], style['color'])] *)
Definition style_triple (st : Style) : result (Z * string * Z) :=
  sz ← style_size st; fnt ← style_font st; col ← style_color st;
  Ok (sz, fnt, col).

(** Tuple order on the sort key [(-x[0], x[1], x[2])]. *)
Definition sort_key_lt (a b : Z * string * Z) : bool :=
  let '(sa, fa, ca) := a in
  let '(sb, fb, cb) := b in
  bool_decide (- sa < - sb)%Z
  || (bool_decide (- sa = - sb)%Z
      && (String.ltb fa fb || (bool_decide (fa = fb) && bool_decide (ca < cb)%Z))).

Definition tag_step (primary_style : Style)
    (acc : gmap string string * nat * nat) (style : Z * string * Z)
  : result (gmap string string * nat * nat) :=
  let '(size_tag_map, header_idx, subheader_idx) := acc in
  let '(sz, fnt, col) := style in
  let identifier := format_identifier sz fnt col in
  r ← _determine_tag sz fnt col primary_style header_idx subheader_idx;
  let '(tag, header_idx, subheader_idx) := r in
  Ok (<[identifier := tag]> size_tag_map, header_idx, subheader_idx).

(** The set comprehension over [styles.values()], as a finite set. *)
Definition unique_styles (styles : gmap string Style)
  : result (gset (Z * string * Z)) :=
  for_each (λ acc st, t ← style_triple st; Ok ({[ t ]} ∪ acc))
           (map_to_list styles).*2 ∅.

Definition sorted_unique_styles (us : gset (Z * string * Z))
  : list (Z * string * Z) :=
  sorted sort_key_lt (elements us).

Definition _create_size_tag_map (font_counts : list (string * nat))
    (styles : gmap string Style) : result (gmap string string) :=
  first ← index font_counts 0;
  primary_style ←
    match styles !! first.1 with
    | Some st => Ok st
    | None => Raise (KeyError first.1)
    end;
  us ← unique_styles styles;
  r ← for_each (tag_step primary_style) (sorted_unique_styles us) (∅, 1, 1);
  Ok r.1.1.

(** [opening_tag.split('<', 1)[1].split('>', 1)[0]] wrapped in [</...>]. *)
Definition _get_closing_tag (opening_tag : string) : result string :=
  after ← index (split1 "<" opening_tag) 1;
  tag_type ← index (split1 ">" after) 0;
  Ok ("</" +:+ tag_type +:+ ">").

Definition _is_new_block (current_identifier : string)
    (previous_identifier : option string) : bool :=
  bool_decide (Some current_identifier ≠ previous_identifier).

(** The local [previous_identifier] is rebound to [None] before it is
    tested, so the closing-tag branch is never taken. *)
Definition _start_new_block (span : Span) (identifier : string)
    (size_tag_map : gmap string string) : result string :=
  let closing_tag := "" in
  let previous_identifier : option string := None in
  closing_tag ←
    match previous_identifier with
    | Some prev =>
        match (if truthy prev then size_tag_map !! prev else None) with
        | Some tag => _get_closing_tag tag
        | None => Ok closing_tag
        end
    | None => Ok closing_tag
    end;
  let opening_tag := default "" (size_tag_map !! identifier) in
  Ok (closing_tag +:+ opening_tag +:+ text span).

(** [if previous_identifier in size_tag_map:
       block_string += self._get_closing_tag(size_tag_map[previous_identifier])] *)
Definition close_block (size_tag_map : gmap string string)
    (previous_identifier : option string) (block_string : string)
  : result string :=
  match previous_identifier ≫= (size_tag_map !!.) with
  | Some tag => c ← _get_closing_tag tag; Ok (block_string +:+ c)
  | None => Ok block_string
  end.

(** [if block_string: block_strings.append(block_string)] *)
Definition flush (block_strings : list string) (block_string : string)
  : list string :=
  if truthy block_string then block_strings ++ [block_string]
  else block_strings.

(** Loop state of [_process_block]:
    [(block_strings, block_string, previous_identifier)]. *)
Definition span_step (size_tag_map : gmap string string)
    (acc : list string * string * option string) (span : Span)
  : result (list string * string * option string) :=
  let '(block_strings, block_string, previous_identifier) := acc in
  let identifier := format_identifier (size span) (font span) (color span) in
  if truthy (strip (text span)) then
    if _is_new_block identifier previous_identifier then
      block_string ← close_block size_tag_map previous_identifier block_string;
      let block_strings := flush block_strings block_string in
      block_string ← _start_new_block span identifier size_tag_map;
      Ok (block_strings, block_string, Some identifier)
    else
      Ok (block_strings, block_string +:+ " " +:+ text span, Some identifier)
  else Ok acc.

Definition _process_block (block : Block) (size_tag_map : gmap string string)
  : result (list string) :=
  r ← for_each (span_step size_tag_map) (block_spans block) ([], "", None);
  let '(block_strings, block_string, previous_identifier) := r in
  block_string ← close_block size_tag_map previous_identifier block_string;
  Ok (flush block_strings block_string).

Definition page_block_step (size_tag_map : gmap string string)
    (page_blocks : list (list string)) (block : Block)
  : result (list (list string)) :=
  if decide (block_type block = 0%Z) then
    block_string ← _process_block block size_tag_map;
    match block_string with
    | [] => Ok page_blocks
    | _ => Ok (page_blocks ++ [block_string])
    end
  else Ok page_blocks.

Definition _extract_page_content (p : Page) (size_tag_map : gmap string string)
  : result (list (list string)) :=
  for_each (page_block_step size_tag_map) (blocks p) [].

Definition process_page (html_pages_list : list PageData) (p : Page)
  : result (list PageData) :=
  r ← _extract_fonts p true;
  let '(font_counts, styles) := r in
  size_tag ← _create_size_tag_map font_counts styles;
  headers_paragraphs ← _extract_page_content p size_tag;
  Ok (html_pages_list ++ [{| page := number p; content := headers_paragraphs |}]).

Definition process_document (doc : list Page) : result (list PageData) :=
  for_each process_page doc [].

End PDFParser.

(* ===================================================================== *)
(** * The regular expressions of the page structurer *)
(* ===================================================================== *)

Module Re.
Import Py.

(** The fragment of the pattern language the program uses: a literal
    character, an optional literal ([c?]) and a decimal digit ([\d]). *)
Inductive atom :=
| Lit (c : ascii)
| Opt (c : ascii)
| Digit.

Definition eat (p : ascii → bool) (s : string) : option string :=
  match s with
  | String d s' => if p d then Some s' else None
  | EmptyString => None
  end.

(** Length of the match of [pat] at the start of [s], if any; an optional
    character is tried first with, then without (greedy, backtracking). *)
Fixpoint match_here (pat : list atom) (s : string) : option nat :=
  match pat with
  | [] => Some 0
  | Lit c :: pat' =>
      s' ← eat (λ d, bool_decide (d = c)) s; S <$> match_here pat' s'
  | Digit :: pat' =>
      s' ← eat isdigit s; S <$> match_here pat' s'
  | Opt c :: pat' =>
      match s' ← eat (λ d, bool_decide (d = c)) s; S <$> match_here pat' s' with
      | Some n => Some n
      | None => match_here pat' s
      end
  end.

(** [re.match(pat, s)] as a truth value. *)
Definition re_match (pat : list atom) (s : string) : bool :=
  bool_decide (is_Some (match_here pat s)).

(** [re.sub(pat, '', s)]: delete the non-overlapping matches, leftmost
    first; [skip] counts the characters of the current match still to drop. *)
Fixpoint sub_go (pat : list atom) (skip : nat) (s : string) : string :=
  match s with
  | EmptyString => EmptyString
  | String c s' =>
      match skip with
      | S k => sub_go pat k s'
      | O =>
          match match_here pat s with
          | Some (S k) => sub_go pat k s'
          | _ => String c (sub_go pat 0 s')
          end
      end
  end.

Definition re_sub (pat : list atom) (s : string) : string := sub_go pat 0 s.

(** [r'<h\d>'], [r'<\/?h\d>'], [r'<p>'], [r'<\/?p>'] *)
Definition heading_open : list atom := [Lit "<"; Lit "h"; Digit; Lit ">"].
Definition heading_tag : list atom := [Lit "<"; Opt "/"; Lit "h"; Digit; Lit ">"].
Definition paragraph_open : list atom := [Lit "<"; Lit "p"; Lit ">"].
Definition paragraph_tag : list atom := [Lit "<"; Opt "/"; Lit "p"; Lit ">"].
End Re.

(* ===================================================================== *)
(** * class HTMLToJsonConverter *)
(* ===================================================================== *)

Module HTMLToJsonConverter.
Import Py Re.

(** A section dict [{"title": ..., "text": ..., "page": ...}]. *)
Record Entry := { title : string; text : string; page : Z }.

Global Instance Entry_eq_dec : EqDecision Entry.
Proof. solve_decision. Defined.

Definition set_title (e : Entry) (t : string) : Entry :=
  {| title := t; text := text e; page := page e |}.

Definition set_text (e : Entry) (t : string) : Entry :=
  {| title := title e; text := t; page := page e |}.

Definition _flatten_list (nested_list : list (list string)) : list string :=
  sublist ← nested_list; item ← sublist; [item].

(** Loop state of [_process_page_content]:
    [(structured_page_data, current_section, title_set)]. *)
Definition item_step (pg : Z) (acc : list Entry * Entry * bool) (item : string)
  : list Entry * Entry * bool :=
  let '(structured_page_data, current_section, title_set) := acc in
  if re_match heading_open item then
    let '(structured_page_data, current_section) :=
      if truthy (title current_section) || truthy (text current_section)
      then (structured_page_data ++ [current_section],
            {| title := ""; text := ""; page := pg |})
      else (structured_page_data, current_section) in
    (structured_page_data,
     set_title current_section (re_sub heading_tag item), true)
  else if re_match paragraph_open item then
    let paragraph_text := re_sub paragraph_tag item in
    if negb title_set then
      (structured_page_data, set_title current_section paragraph_text, true)
    else
      (structured_page_data,
       set_text current_section (text current_section +:+ paragraph_text +:+ " "),
       title_set)
  else acc.

Definition _process_page_content (page_data : PDFParser.PageData)
  : list Entry :=
  let pg := PDFParser.page page_data in
  let flat_page := _flatten_list (PDFParser.content page_data) in
  let '(structured_page_data, current_section, _) :=
    foldl (item_step pg) ([], {| title := ""; text := ""; page := pg |}, false)
          flat_page in
  if truthy (title current_section) || truthy (text current_section)
  then structured_page_data ++ [current_section]
  else structured_page_data.

(** One iteration of [for i in range(len(structured_data))]; the state is
    [(skip_next, processed_entries)]. *)
Definition merge_step (structured_data : list Entry)
    (acc : bool * list Entry) (i : nat) : result (bool * list Entry) :=
  let '(skip_next, processed_entries) := acc in
  if skip_next then Ok (false, processed_entries)
  else
    cur ← index structured_data i;
    both_empty ←
      (if bool_decide (text cur = "") && bool_decide (i + 1 < length structured_data)
       then nxt ← index structured_data (i + 1); Ok (bool_decide (text nxt = ""))
       else Ok false);
    if both_empty : bool then
      nxt ← index structured_data (i + 1);
      let merged_entry :=
        {| title := title cur; text := title nxt; page := page cur |} in
      Ok (true, processed_entries ++ [merged_entry])
    else
      Ok (false, processed_entries ++ [cur]).

Definition _merge_empty_structured_data (structured_data : list Entry)
  : result (list Entry) :=
  r ← for_each (merge_step structured_data)
               (seq 0 (length structured_data)) (false, []);
  Ok r.2.

(** [tuple(item.items())]: the three values in key order. *)
Definition tuple_item (item : Entry) : string * string * Z :=
  (title item, text item, page item).

Definition dedup_step (acc : list Entry * gset (string * string * Z))
    (item : Entry) : list Entry * gset (string * string * Z) :=
  let '(unique_data, seen) := acc in
  if decide (tuple_item item ∉ seen)
  then (unique_data ++ [item], {[ tuple_item item ]} ∪ seen)
  else acc.

Definition _remove_duplicates (structured_data : list Entry) : list Entry :=
  (foldl dedup_step ([], ∅) structured_data).1.

(** [while i < len(data) - 1: ...] on the list mutated in place; [fuel]
    bounds the number of iterations. *)
Fixpoint titles_loop (fuel : nat) (i : nat) (data : list Entry)
  : option (result (list Entry)) :=
  match fuel with
  | O => None
  | S fuel' =>
      if decide (i + 1 < length data) then
        match index data i with
        | Raise e => Some (Raise e)
        | Ok cur =>
            if negb (truthy (text cur)) then
              match index data (i + 1) with
              | Raise e => Some (Raise e)
              | Ok nxt =>
                  let data :=
                    <[i + 1 := set_title nxt (title cur +:+ " " +:+ title nxt)]> data in
                  titles_loop fuel' i (delete i data)
              end
            else titles_loop fuel' (i + 1) data
        end
      else Some (Ok data)
  end.

(** Each iteration deletes an element or advances [i], so [len(data)]
    iterations and the final test suffice. *)
Definition _process_titles (data : list Entry) : option (result (list Entry)) :=
  titles_loop (S (length data)) 0 data.

(** The three repair stages of [process_list_to_json], on the structured
    list that [json.dumps] then serialises. *)
Definition repair (structured_data : list Entry)
  : option (result (list Entry)) :=
  match _merge_empty_structured_data structured_data with
  | Raise e => Some (Raise e)
  | Ok data_merged =>
      let data_no_duplicates := _remove_duplicates data_merged in
      _process_titles data_no_duplicates
  end.

Definition process_list_to_json (data_list : list PDFParser.PageData)
  : option (result (list Entry)) :=
  let structured_data := page_data ← data_list; _process_page_content page_data in
  repair structured_data.

End HTMLToJsonConverter.

(* ===================================================================== *)
(** * class MetadataEnhancedJsonConverter *)
(* ===================================================================== *)

Module MetadataEnhancedJsonConverter.
Import Py.

(** The values of a decoded JSON section object. *)
Inductive jvalue :=
| JStr (s : string)
| JInt (z : Z).

(** The object [json.loads] returns for a serialised section. *)
Definition to_object (e : HTMLToJsonConverter.Entry) : gmap string jvalue :=
  <["title" := JStr (HTMLToJsonConverter.title e)]>
    (<["text" := JStr (HTMLToJsonConverter.text e)]>
       (<["page" := JInt (HTMLToJsonConverter.page e)]> ∅)).

Record state := {
  json_data : list (gmap string jvalue);
  file_name : string;
  base_url : string;
  product : jvalue;
  document : jvalue;
}.

(** [__init__], given the decoded [json_data]. *)
Definition init (data : list (gmap string jvalue)) (file_path base_url : string)
  : state :=
  let first_title :=
    match data with
    | first :: _ => default (JStr "") (first !! "title")
    | [] => JStr ""
    end in
  {| json_data := data;
     file_name := basename file_path;
     base_url := base_url;
     product := first_title;
     document := first_title |}.

Definition enhance_entry (self : state) (entry : gmap string jvalue)
  : gmap string jvalue :=
  let entry := <["file" := JStr (file_name self)]> entry in
  let entry := <["product" := product self]> entry in
  let entry := <["document" := document self]> entry in
  <["link" := JStr (base_url self +:+ file_name self)]> entry.

Definition enhance_json (self : state) : state :=
  {| json_data := enhance_entry self <$> json_data self;
     file_name := file_name self;
     base_url := base_url self;
     product := product self;
     document := document self |}.

(** [get_enhanced_json], before serialisation. *)
Definition get_enhanced_json (self : state) : list (gmap string jvalue) :=
  json_data (enhance_json self).

End MetadataEnhancedJsonConverter.

(* ===================================================================== *)
(** * Specification-side definitions *)
(* ===================================================================== *)

Module FormatSpec.
Import Py.

(** Every character of [s] satisfies [p]. *)
Fixpoint all_chars (p : ascii → bool) (s : string) : bool :=
  match s with
  | EmptyString => true
  | String c s' => p c && all_chars p s'
  end.

(** The characters of a rendered integer. *)
Definition signed_digit (c : ascii) : bool :=
  isdigit c || bool_decide (c = "-"%char).
End FormatSpec.

Module RepairSpec.
Import HTMLToJsonConverter.

(** Empty-pair merge as the specification words it: scan left to right,
    replace a pair of sections with empty text by one section, skip the
    consumed pair, keep every other section. *)
Definition merged_entry (a b : Entry) : Entry :=
  {| title := title a; text := title b; page := page a |}.

Fixpoint empty_pair_merge (l : list Entry) : list Entry :=
  match l with
  | [] => []
  | a :: rest =>
      match rest with
      | [] => [a]
      | b :: rest' =>
          if bool_decide (text a = "") && bool_decide (text b = "")
          then merged_entry a b :: empty_pair_merge rest'
          else a :: empty_pair_merge rest
      end
  end.

(** Dangling-title concatenation as the specification words it: [cur] is
    the section under examination, [rest] the sections after it. *)
Definition prepend_title (a b : Entry) : Entry :=
  set_title b (title a +:+ " " +:+ title b).

Fixpoint concat_from (cur : Entry) (rest : list Entry) : list Entry :=
  match rest with
  | [] => [cur]
  | nxt :: rest' =>
      if decide (text cur = "")
      then concat_from (prepend_title cur nxt) rest'
      else cur :: concat_from nxt rest'
  end.

Definition concat_dangling (l : list Entry) : list Entry :=
  match l with
  | [] => []
  | cur :: rest => concat_from cur rest
  end.

(** Every section except possibly the last has non-empty text. *)
Definition dangling_free (l : list Entry) : Prop :=
  ∀ i e, l !! i = Some e → i + 1 < length l → text e ≠ "".

(** The state of the duplicate-removal loop after a prefix [l] of the input. *)
Record dedup_inv (l : list Entry)
    (st : list Entry * gset (string * string * Z)) : Prop := {
  inv_seen : ∀ e, tuple_item e ∈ st.2 ↔ e ∈ st.1;
  inv_nodup : NoDup st.1;
  inv_elem : ∀ e, e ∈ st.1 ↔ e ∈ l;
  inv_id : NoDup l → st.1 = l;
}.

(** A section list on which the last stage re-creates a duplicate, and a
    page whose fragments the page structurer turns into it. *)
Definition colliding_titles : list Entry :=
  [ {| title := "A"; text := ""; page := 1 |};
    {| title := "B"; text := "x "; page := 1 |};
    {| title := "A B"; text := "x "; page := 1 |} ].

Definition colliding_page : PDFParser.PageData :=
  {| PDFParser.page := 1;
     PDFParser.content :=
       [ [ "<h1>A</h1>"; "<h2>B</h2>"; "<p>x</p>" ];
         [ "<h1>A B</h1>"; "<p>x</p>" ] ] |}.
End RepairSpec.


(** ** The block segmenter *)

Module SegmenterSpec.
Import Py PDFParser.

(** A span takes part in segmentation when its text is not only whitespace. *)
Definition visible (span : Span) : bool := truthy (strip (text span)).

Definition identifier_of (span : Span) : string :=
  format_identifier (size span) (font span) (color span).

(** The runs of consecutive visible spans that share an identifier, each
    with its texts joined by single spaces; [cur] is the run still open. *)
Fixpoint segments (cur : option (string * string)) (spans : list Span)
  : list (string * string) :=
  match spans with
  | [] => match cur with Some run => [run] | None => [] end
  | span :: rest =>
      if visible span then
        match cur with
        | Some (identifier, body) =>
            if decide (identifier_of span = identifier)
            then segments (Some (identifier, body +:+ " " +:+ text span)) rest
            else (identifier, body)
                 :: segments (Some (identifier_of span, text span)) rest
        | None => segments (Some (identifier_of span, text span)) rest
        end
      else segments cur rest
  end.

(** The text of the visible spans in document order, a single space being
    inserted in front of a span that follows one of the same identifier. *)
Fixpoint joined_text (previous : option string) (spans : list Span) : string :=
  match spans with
  | [] => ""
  | span :: rest =>
      if visible span then
        (if decide (previous = Some (identifier_of span))
         then " " +:+ text span else text span)
        +:+ joined_text (Some (identifier_of span)) rest
      else joined_text previous rest
  end.

(** A fragment is the body of its run between the opening tag of the run's
    identifier and the closing tag derived from it, or the bare body when
    the identifier has no tag. *)
Definition tagged_as (size_tag_map : gmap string string) (fragment : string)
    (run : string * string) : Prop :=
  match size_tag_map !! run.1 with
  | Some tag =>
      ∃ closing, _get_closing_tag tag = Ok closing
                 ∧ fragment = tag +:+ run.2 +:+ closing
  | None => fragment = run.2
  end.

(** The fragment of one run, as the segmenter assembles it. *)
Definition render (size_tag_map : gmap string string) (run : string * string)
  : result string :=
  match size_tag_map !! run.1 with
  | Some tag => closing ← _get_closing_tag tag; Ok (tag +:+ run.2 +:+ closing)
  | None => Ok run.2
  end.

Fixpoint map_result {A B} (f : A → result B) (l : list A) : result (list B) :=
  match l with
  | [] => Ok []
  | x :: l' => y ← f x; ys ← map_result f l'; Ok (y :: ys)
  end.

Fixpoint concat_strings (l : list string) : string :=
  match l with
  | [] => ""
  | s :: l' => s +:+ concat_strings l'
  end.


(** The code after the loop of [_process_block], from any loop state. *)
Definition finish (size_tag_map : gmap string string)
    (acc : list string * string * option string) : result (list string) :=
  let '(block_strings, block_string, previous_identifier) := acc in
  block_string ← close_block size_tag_map previous_identifier block_string;
  Ok (flush block_strings block_string).

Definition opening (size_tag_map : gmap string string) (identifier : string)
  : string :=
  default "" (size_tag_map !! identifier).

(** The two shapes of tag the tag assigner produces. *)
Definition well_tagged (size_tag_map : gmap string string) : Prop :=
  ∀ identifier tag, size_tag_map !! identifier = Some tag →
    tag = "<p>" ∨ ∃ level : nat, tag = "<h" +:+ pretty level +:+ ">".

(** A block of two lines, a tag map that knows two of its three styles, and
    the fragments the segmenter returns for them. *)
Definition sample_block : Block :=
  {| block_type := 0;
     lines := [ {| spans := [ {| text := "Annual"; size := 18; font := "Sans"; color := 0 |};
                              {| text := "  "; size := 9; font := "Serif"; color := 0 |};
                              {| text := "Report"; size := 18; font := "Sans"; color := 0 |} ] |};
                {| spans := [ {| text := "Figures follow."; size := 9; font := "Serif"; color := 0 |};
                              {| text := "(draft)"; size := 7; font := "Serif"; color := 0 |} ] |} ] |}.

Definition sample_tags : gmap string string :=
  <["18_Sans_0" := "<h1>"]> (<["9_Serif_0" := "<p>"]> ∅).

Definition sample_fragments : list string :=
  ["<h1>Annual Report</h1>"; "<p>Figures follow.</p>"; "(draft)"].

End SegmenterSpec.


(** ** The tag assigner *)

Module TagSpec.
Import Py PDFParser.

(** A style as the triple [(size, font, color)]. *)
Definition triple_of (span : Span) : Z * string * Z :=
  (size span, font span, color span).

Definition identifier3 (t : Z * string * Z) : string :=
  format_identifier t.1.1 t.1.2 t.2.

Definition style_of (t : Z * string * Z) : Style :=
  StyleFull t.1.1 t.1.2 t.2.

(** The order of the sorted pass: size descending, then font ascending,
    then color ascending. *)
Definition style_before (a b : Z * string * Z) : Prop :=
  (a.1.1 > b.1.1)%Z
  ∨ (a.1.1 = b.1.1
     ∧ (String.ltb a.1.2 b.1.2 = true
        ∨ (a.1.2 = b.1.2 ∧ (a.2 < b.2)%Z))).

(** A style that outranks the dominant one: strictly larger, or of the same
    size with another font or color. *)
Definition heading_style (dominant t : Z * string * Z) : Prop :=
  (t.1.1 > dominant.1.1)%Z
  ∨ (t.1.1 = dominant.1.1
     ∧ (t.1.2 ≠ dominant.1.2 ∨ t.2 ≠ dominant.2)).

Global Instance heading_style_dec dominant t :
  Decision (heading_style dominant t).
Proof. unfold heading_style. apply _. Defined.

(** The heading level of the style met at position [i] of the sorted pass:
    one more than the number of heading styles met before it. *)
Definition level_at (dominant : Z * string * Z)
    (sorted_styles : list (Z * string * Z)) (i : nat) : nat :=
  1 + length (filter (heading_style dominant) (take i sorted_styles)).

(** The tag of a style when the running heading counter is [header_idx]. *)
Definition tag_for (dominant : Z * string * Z) (header_idx : nat)
    (t : Z * string * Z) : string :=
  if decide (heading_style dominant t)
  then "<h" +:+ pretty header_idx +:+ ">" else "<p>".

(** How often a style occurs among the spans of a page. *)
Definition occurrences (t : Z * string * Z) (spans : list Span) : nat :=
  length (filter (λ span, triple_of span = t) spans).

(** [font_counts[k]] on the association list (0 for an absent key). *)
Fixpoint get_count (k : string) (font_counts : list (string * nat)) : nat :=
  match font_counts with
  | [] => 0
  | (k', n) :: rest => if decide (k' = k) then n else get_count k rest
  end.

(** What the catalog loop has computed once it has gone through [seen]. *)
Record catalog_inv (seen : list Span)
    (acc : gmap string Style * list (string * nat)) : Prop := {
  inv_styles : ∀ k st,
    acc.1 !! k = Some st
    ↔ ∃ span, span ∈ seen ∧ k = identifier3 (triple_of span)
              ∧ st = style_of (triple_of span);
  inv_keys_nodup : NoDup acc.2.*1;
  inv_keys : ∀ k,
    k ∈ acc.2.*1 ↔ ∃ span, span ∈ seen ∧ k = identifier3 (triple_of span);
  inv_counts : ∀ t, get_count (identifier3 t) acc.2 = occurrences t seen;
}.

(** A page made of [sample_block] and an image block, and its catalog. *)
Definition sample_page : Page :=
  {| number := 0;
     blocks := [ SegmenterSpec.sample_block; {| block_type := 1; lines := [] |} ] |}.

Definition sample_catalog : list (string * nat) * gmap string Style :=
  ([("18_Sans_0", 2); ("9_Serif_0", 2); ("7_Serif_0", 1)],
   <["18_Sans_0" := StyleFull 18 "Sans" 0]>
     (<["9_Serif_0" := StyleFull 9 "Serif" 0]>
        (<["7_Serif_0" := StyleFull 7 "Serif" 0]> ∅))).
End TagSpec.

(** ** The page structurer *)

Module StructurerSpec.
Import Py PDFParser.

Definition heading_span (sz : Z) (t : string) : Span :=
  {| text := t; size := sz; font := "Helvetica"; color := 0 |}.

(** A page with ten styles larger than its body style. *)
Definition ten_headings : Page :=
  {| number := 0;
     blocks := [ {| block_type := 0;
                    lines := [ {| spans :=
       [ heading_span 20 "One"; heading_span 19 "Two"; heading_span 18 "Three";
         heading_span 17 "Four"; heading_span 16 "Five"; heading_span 15 "Six";
         heading_span 14 "Seven"; heading_span 13 "Eight"; heading_span 12 "Nine";
         heading_span 11 "Ten"; heading_span 10 "body"; heading_span 10 "more" ] |} ] |} ] |}.

Definition ten_headings_html : PageData :=
  {| page := 0;
     content := [ [ "<h1>One</h1>"; "<h2>Two</h2>"; "<h3>Three</h3>";
                    "<h4>Four</h4>"; "<h5>Five</h5>"; "<h6>Six</h6>";
                    "<h7>Seven</h7>"; "<h8>Eight</h8>"; "<h9>Nine</h9>";
                    "<h10>Ten</h10>"; "<p>body more</p>" ] ] |}.

Definition heading_only (t : string) : HTMLToJsonConverter.Entry :=
  {| HTMLToJsonConverter.title := t;
     HTMLToJsonConverter.text := "";
     HTMLToJsonConverter.page := 0 |}.
End StructurerSpec.

(** ** The metadata stamper *)

Module StamperSpec.
Import HTMLToJsonConverter.

Definition first_title (sections : list Entry) : string :=
  match sections with
  | first :: _ => title first
  | [] => ""
  end.

Definition stamped_fields : list string :=
  ["file"; "product"; "document"; "link"].
End StamperSpec.

(* ===================================================================== *)
(** * class PDFToJsonConverterApp (app.py) *)
(* ===================================================================== *)

Module PDFToJsonConverterApp.
Import Py MetadataEnhancedJsonConverter.

(** [process_pdf_to_json], from the pages [fitz.open] has read out of the
    upload, [uploaded_file.name] and the base URL.  The inner [None] is the
    [return None] of the [except] branch; the outer option is the fuel of the
    title loop.  The JSON text one class hands to the next stands for the
    list it encodes. *)
Definition process_pdf_to_json (doc : list PDFParser.Page)
    (name base_url : string) : option (option (list (gmap string jvalue))) :=
  match PDFParser.process_document doc with
  | Raise _ => Some None
  | Ok all_pages_data =>
      match HTMLToJsonConverter.process_list_to_json all_pages_data with
      | None => None
      | Some (Raise _) => Some None
      | Some (Ok raw_json_output) =>
          let metadata_processor :=
            init (to_object <$> raw_json_output) name base_url in
          Some (Some (get_enhanced_json metadata_processor))
      end
  end.
End PDFToJsonConverterApp.

(* ===================================================================== *)
(** * Further specification-side definitions *)
(* ===================================================================== *)

Module SectionSpec.
Import HTMLToJsonConverter.

(** The non-empty titles and texts of a section list, in reading order. *)
Definition texts_in_order (l : list Entry) : list string :=
  filter (λ s, s ≠ "") (e ← l; [title e; text e]).

(** A section says something: its title or its text is non-empty. *)
Definition informative (e : Entry) : Prop := title e ≠ "" ∨ text e ≠ "".
End SectionSpec.

Module FragmentSpec.
Import Py HTMLToJsonConverter.

(** A text without any [<], hence without anything a tag pattern matches. *)
Definition tag_free (s : string) : Prop := contains "<" s = false.

(** The fragments the segmenter emits for a paragraph and for a heading. *)
Definition paragraph (body : string) : string := "<p>" +:+ body +:+ "</p>".

Definition heading (level : nat) (body : string) : string :=
  "<h" +:+ pretty level +:+ ">" +:+ body +:+ "</h" +:+ pretty level +:+ ">".

(** Paragraph texts as the structurer accumulates them: each followed by
    one space. *)
Fixpoint join_paragraphs (bodies : list string) : string :=
  match bodies with
  | [] => ""
  | body :: bodies' => body +:+ " " +:+ join_paragraphs bodies'
  end.

(** A heading with the paragraphs that follow it: level, title, bodies. *)
Definition group_fragments (g : nat * string * list string) : list string :=
  heading g.1.1 g.1.2 :: (paragraph <$> g.2).

Definition group_section (pg : Z) (g : nat * string * list string) : Entry :=
  {| title := g.1.2; text := join_paragraphs g.2; page := pg |}.

Definition well_formed_group (g : nat * string * list string) : Prop :=
  1 ≤ g.1.1 ≤ 9 ∧ g.1.2 ≠ "" ∧ tag_free g.1.2 ∧ Forall tag_free g.2.

(** The section of the paragraphs that precede the first heading of a
    page: the first one is promoted to the title. *)
Definition lead_section (pg : Z) (lead : list string) : list Entry :=
  match lead with
  | [] => []
  | body :: bodies =>
      [ {| title := body; text := join_paragraphs bodies; page := pg |} ]
  end.

Definition well_formed_lead (lead : list string) : Prop :=
  Forall tag_free lead ∧ head lead ≠ Some "".

(** [if current_section["title"] or current_section["text"]] *)
Definition is_informative (e : Entry) : bool :=
  truthy (title e) || truthy (text e).

(** The code after the loop of [_process_page_content]. *)
Definition push_last (acc : list Entry * Entry * bool) : list Entry :=
  if is_informative acc.1.2 then acc.1.1 ++ [acc.1.2] else acc.1.1.

(** A page with a leading paragraph, two headings and their paragraphs. *)
Definition sample_lead : list string := ["Preface"; "to the reader"].

Definition sample_groups : list (nat * string * list string) :=
  [ (1, "Scope", ["First."; "Second."]); (2, "Terms", []) ].
End FragmentSpec.


Module ConversionSpec.
Import HTMLToJsonConverter MetadataEnhancedJsonConverter.

(** The object returned for a section: the section's own object with the
    four metadata fields set. *)
Definition stamped_object (file_name base_url product : string) (e : Entry)
  : gmap string jvalue :=
  <["link" := JStr (base_url +:+ file_name)]>
    (<["document" := JStr product]>
       (<["product" := JStr product]>
          (<["file" := JStr file_name]> (to_object e)))).
End ConversionSpec.

Module DocumentSpec.
Import Py PDFParser TagSpec FragmentSpec.

(** The number of distinct styles among the spans of a page's text blocks. *)
Definition distinct_styles (p : Page) : nat :=
  length (remove_dups (triple_of <$> text_spans p)).

(** The runs of a page: those of its text blocks, in block order. *)
Definition page_runs (p : Page) : list (string * string) :=
  block ← filter (λ block, block_type block = 0%Z) (blocks p);
  SegmenterSpec.segments None (block_spans block).

(** The tag of heading level [level]. *)
Definition heading_tag_of (level : nat) : string :=
  "<h" +:+ pretty level +:+ ">".

(** A fragment of a page with [styles] distinct styles: a paragraph, or a
    heading of a level from 1 to [styles - 1], around a non-empty text. *)
Definition page_fragment (styles : nat) (fragment : string) : Prop :=
  ∃ body, body ≠ ""
    ∧ (fragment = paragraph body
       ∨ ∃ level, 1 ≤ level < styles ∧ fragment = heading level body).

(** A page with a title, a subtitle, body text and a small note. *)
Definition titled_page : Page :=
  {| number := 3;
     blocks :=
       [ {| block_type := 0;
            lines := [ {| spans := [ {| text := "Report"; size := 18; font := "Sans"; color := 0 |} ] |};
                       {| spans := [ {| text := "Summary"; size := 12; font := "Sans"; color := 0 |} ] |} ] |};
         {| block_type := 1; lines := [] |};
         {| block_type := 0;
            lines := [ {| spans := [ {| text := "All figures"; size := 9; font := "Serif"; color := 0 |};
                                     {| text := "are final."; size := 9; font := "Serif"; color := 0 |};
                                     {| text := "(audited)"; size := 7; font := "Serif"; color := 0 |} ] |} ] |} ] |}.

Definition titled_page_catalog : list (string * nat) * gmap string Style :=
  ([("9_Serif_0", 2); ("18_Sans_0", 1); ("12_Sans_0", 1); ("7_Serif_0", 1)],
   <["18_Sans_0" := StyleFull 18 "Sans" 0]>
     (<["12_Sans_0" := StyleFull 12 "Sans" 0]>
        (<["9_Serif_0" := StyleFull 9 "Serif" 0]>
           (<["7_Serif_0" := StyleFull 7 "Serif" 0]> ∅)))).

Definition titled_page_tags : gmap string string :=
  <["18_Sans_0" := "<h1>"]>
    (<["12_Sans_0" := "<h2>"]>
       (<["9_Serif_0" := "<p>"]> (<["7_Serif_0" := "<p>"]> ∅))).

Definition titled_page_html : PageData :=
  {| page := 3;
     content := [ ["<h1>Report</h1>"; "<h2>Summary</h2>"];
                  ["<p>All figures are final.</p>"; "<p>(audited)</p>"] ] |}.
End DocumentSpec.
(* ===================================================================== *)
(** * Basic facts about the built-ins *)
(* ===================================================================== *)

Section basics.
Import Py SegmenterSpec.

Lemma truthy_false s : truthy s = false ↔ s = "".
Proof. destruct s; simpl; split; congruence. Qed.

Lemma negb_truthy s : negb (truthy s) = bool_decide (s = "").
Proof. destruct s; done. Qed.

Lemma index_middle {A} (pre : list A) x suf :
  index (pre ++ x :: suf) (length pre) = Ok x.
Proof. unfold index. by rewrite list_lookup_middle. Qed.

Lemma index_middle_next {A} (pre : list A) x y suf :
  index (pre ++ x :: y :: suf) (length pre + 1) = Ok y.
Proof.
  unfold index. rewrite lookup_app_r by lia.
  by replace (length pre + 1 - length pre) with 1 by lia.
Qed.

Lemma delete_insert_next {A} (pre : list A) x y z suf :
  delete (length pre) (<[length pre + 1 := z]> (pre ++ x :: y :: suf))
  = pre ++ z :: suf.
Proof.
  induction pre as [|a pre IH]; simpl; [done|]. by rewrite IH.
Qed.

Lemma string_app_assoc (a b c : string) : (a +:+ b) +:+ c = a +:+ b +:+ c.
Proof.
  induction a as [|x a IH]; [done|].
  change (String x ((a +:+ b) +:+ c) = String x (a +:+ b +:+ c)).
  by rewrite IH.
Qed.

Lemma string_app_nil_r (a : string) : a +:+ "" = a.
Proof.
  induction a as [|x a IH]; [done|].
  change (String x (a +:+ "") = String x a). by rewrite IH.
Qed.

Lemma truthy_app_r a b : truthy b = true → truthy (a +:+ b) = true.
Proof. by destruct a, b. Qed.

Lemma truthy_app_l a b : truthy a = true → truthy (a +:+ b) = true.
Proof. by destruct a. Qed.

Lemma truthy_lstrip s : truthy (lstrip s) = true → truthy s = true.
Proof. by destruct s. Qed.

Lemma truthy_rstrip s : truthy (rstrip s) = true → truthy s = true.
Proof. by destruct s. Qed.

Lemma bind_Ok {A B} (a : A) (k : A → result B) : (Ok a ≫= k) = k a.
Proof. done. Qed.

Lemma bind_Raise {A B} (e : exn) (k : A → result B) : (Raise e ≫= k) = Raise e.
Proof. done. Qed.

Lemma map_result_cons {A B} (f : A → result B) x l :
  map_result f (x :: l) = (y ← f x; ys ← map_result f l; Ok (y :: ys)).
Proof. done. Qed.

End basics.

(* ===================================================================== *)
(** * Identifiers and tags as strings *)
(* ===================================================================== *)

Section formatting.
Import Py PDFParser FormatSpec.

Lemma string_app_cons c (a b : string) : String c a +:+ b = String c (a +:+ b).
Proof. done. Qed.

Lemma all_chars_app p a b :
  all_chars p (a +:+ b) = all_chars p a && all_chars p b.
Proof.
  induction a as [|c a IH]; [done|].
  rewrite string_app_cons. cbn [all_chars]. by rewrite IH, andb_assoc.
Qed.

Lemma contains_app c a b : contains c (a +:+ b) = contains c a || contains c b.
Proof.
  induction a as [|d a IH]; [done|].
  rewrite string_app_cons. cbn [contains]. by rewrite IH, orb_assoc.
Qed.

Lemma all_chars_contains p c s :
  all_chars p s = true → p c = false → contains c s = false.
Proof.
  intros Hs Hc. induction s as [|d s IH]; [done|].
  cbn [all_chars contains] in *. apply andb_true_iff in Hs as [Hd Hs].
  rewrite IH by done. rewrite orb_false_r.
  apply bool_decide_eq_false. intros ->. congruence.
Qed.

Lemma all_chars_weaken (p q : ascii → bool) s :
  (∀ c, p c = true → q c = true) → all_chars p s = true → all_chars q s = true.
Proof.
  intros Hpq. induction s as [|d s IH]; [done|]. cbn [all_chars].
  rewrite !andb_true_iff. intros [??]. auto.
Qed.

(** ** Decimal rendering *)

Lemma pretty_N_char_digit x : isdigit (pretty_N_char x) = true.
Proof. unfold pretty_N_char. by repeat case_match. Qed.

Lemma pretty_N_go_digits x : ∀ s,
  all_chars isdigit s = true → all_chars isdigit (pretty_N_go x s) = true.
Proof.
  induction (N.lt_wf_0 x) as [x _ IH]; intros s Hs.
  destruct (decide (x = 0)%N) as [->|Hx]; [by rewrite pretty_N_go_0|].
  rewrite pretty_N_go_step by lia. apply IH.
  - apply N.div_lt; lia.
  - cbn [all_chars]. by rewrite pretty_N_char_digit.
Qed.

Lemma pretty_N_digits (x : N) : all_chars isdigit (pretty x) = true.
Proof.
  unfold pretty, pretty_N. case_decide; [done|]. by apply pretty_N_go_digits.
Qed.

Lemma pretty_nat_digits (n : nat) : all_chars isdigit (pretty n) = true.
Proof. apply pretty_N_digits. Qed.

Lemma pretty_Z_signed_digits (z : Z) : all_chars signed_digit (pretty z) = true.
Proof.
  destruct z as [|p|p]; [done| |].
  - apply (all_chars_weaken isdigit); [|apply pretty_N_digits].
    intros c Hc. unfold signed_digit. by rewrite Hc.
  - change (pretty (Z.neg p)) with ("-" +:+ pretty (N.pos p)).
    rewrite all_chars_app. apply andb_true_iff. split; [done|].
    apply (all_chars_weaken isdigit); [|apply pretty_N_digits].
    intros c Hc. unfold signed_digit. by rewrite Hc.
Qed.

Lemma pretty_Z_no_underscore (z : Z) : contains "_" (pretty z) = false.
Proof.
  by apply (all_chars_contains signed_digit); [apply pretty_Z_signed_digits|].
Qed.

(** ** Splitting at a separator *)

Lemma split1_first c a b :
  contains c a = false → split1 c (a +:+ String c b) = [a; b].
Proof.
  induction a as [|d a IH]; intros Ha.
  - change ("" +:+ String c b) with (String c b). cbn [split1].
    by rewrite decide_True.
  - cbn [contains] in Ha. apply orb_false_iff in Ha as [Hd Ha].
    apply bool_decide_eq_false in Hd.
    rewrite string_app_cons. cbn [split1].
    rewrite decide_False by done. by rewrite IH.
Qed.

Lemma get_closing_tag_named name :
  contains "<" name = false → contains ">" name = false →
  _get_closing_tag ("<" +:+ name +:+ ">") = Ok ("</" +:+ name +:+ ">").
Proof.
  intros _ Hgt. unfold _get_closing_tag.
  change ("<" +:+ name +:+ ">") with ("" +:+ String "<" (name +:+ String ">" "")).
  rewrite (split1_first "<" "") by done.
  change (index [""; ?x] 1) with (Ok x). rewrite bind_Ok.
  rewrite (split1_first ">" name "") by done.
  change (index [name; ""] 0) with (Ok name). by rewrite bind_Ok.
Qed.

Lemma get_closing_tag_p : _get_closing_tag "<p>" = Ok "</p>".
Proof. done. Qed.

Lemma get_closing_tag_heading (level : nat) :
  _get_closing_tag ("<h" +:+ pretty level +:+ ">")
  = Ok ("</h" +:+ pretty level +:+ ">").
Proof.
  apply (get_closing_tag_named ("h" +:+ pretty level)).
  - rewrite contains_app. cbn [contains orb bool_decide decide_rel].
    by apply (all_chars_contains isdigit); [apply pretty_nat_digits|].
  - rewrite contains_app.
    by apply (all_chars_contains isdigit); [apply pretty_nat_digits|].
Qed.

(** ** [format_identifier] is injective *)

Lemma app_sep_first c a b a' b' :
  contains c a = false → contains c a' = false →
  a +:+ String c b = a' +:+ String c b' → a = a' ∧ b = b'.
Proof.
  revert a'. induction a as [|d a IH]; intros [|d' a'] Ha Ha' Heq.
  - by injection Heq.
  - rewrite string_app_cons in Heq. injection Heq as <- _.
    cbn [contains] in Ha'. by rewrite bool_decide_eq_true_2 in Ha'.
  - rewrite string_app_cons in Heq. injection Heq as -> _.
    cbn [contains] in Ha. by rewrite bool_decide_eq_true_2 in Ha.
  - rewrite !string_app_cons in Heq. injection Heq as -> Heq.
    cbn [contains] in Ha, Ha'.
    apply orb_false_iff in Ha as [_ Ha]. apply orb_false_iff in Ha' as [_ Ha'].
    destruct (IH a' Ha Ha' Heq) as [-> ->]. done.
Qed.

Lemma app_sep_last c a b a' b' :
  contains c b = false → contains c b' = false →
  a +:+ String c b = a' +:+ String c b' → a = a' ∧ b = b'.
Proof.
  intros Hb Hb'. revert a'. induction a as [|d a IH]; intros [|d' a'] Heq.
  - by injection Heq.
  - rewrite string_app_cons in Heq. injection Heq as <- ->.
    rewrite contains_app in Hb. cbn [contains] in Hb.
    rewrite bool_decide_eq_true_2 in Hb by done. by rewrite orb_true_r in Hb.
  - rewrite string_app_cons in Heq. injection Heq as -> <-.
    rewrite contains_app in Hb'. cbn [contains] in Hb'.
    rewrite bool_decide_eq_true_2 in Hb' by done. by rewrite orb_true_r in Hb'.
  - rewrite !string_app_cons in Heq. injection Heq as -> Heq.
    destruct (IH a' Heq) as [-> ->]. done.
Qed.

Lemma format_identifier_inj sz fnt col sz' fnt' col' :
  format_identifier sz fnt col = format_identifier sz' fnt' col' →
  (sz, fnt, col) = (sz', fnt', col').
Proof.
  unfold format_identifier.
  change (?a +:+ "_" +:+ ?b) with (a +:+ String "_" b).
  intros Heq.
  apply app_sep_first in Heq as [Hsz Heq]; [|apply pretty_Z_no_underscore..].
  change (?a +:+ "_" +:+ ?b) with (a +:+ String "_" b) in Heq.
  apply app_sep_last in Heq as [Hfnt Hcol]; [|apply pretty_Z_no_underscore..].
  apply (inj pretty) in Hsz, Hcol. by subst.
Qed.
End formatting.

(* ===================================================================== *)
(** * The structure repair pass *)
(* ===================================================================== *)

Section repair_pass.
Import Py HTMLToJsonConverter RepairSpec.

Lemma titles_loop_spec rest : ∀ pre cur fuel,
  length rest < fuel →
  titles_loop fuel (length pre) (pre ++ cur :: rest)
  = Some (Ok (pre ++ concat_from cur rest)).
Proof.
  induction rest as [|nxt rest IH]; intros pre cur [|fuel] Hfuel; try (simpl in Hfuel; lia).
  - simpl. rewrite length_app. simpl. case_decide; [lia|done].
  - cbn [titles_loop concat_from]. rewrite length_app. cbn [length].
    case_decide; [|lia].
    rewrite index_middle, index_middle_next, negb_truthy, delete_insert_next.
    case_bool_decide as Hc.
    + rewrite decide_True by done.
      apply IH. simpl in Hfuel. lia.
    + rewrite decide_False by done.
      replace (length pre + 1) with (length (pre ++ [cur])) by (rewrite length_app; simpl; lia).
      rewrite (cons_middle cur pre (nxt :: rest)), (cons_middle cur pre (concat_from nxt rest)).
      rewrite !(assoc_L (++) pre [cur]).
      apply IH. simpl in Hfuel; lia.
Qed.

Lemma process_titles_spec data :
  _process_titles data = Some (Ok (concat_dangling data)).
Proof.
  unfold _process_titles. destruct data as [|cur rest]; [done|].
  apply (titles_loop_spec rest [] cur). simpl. lia.
Qed.

Lemma dangling_free_cons a b l :
  dangling_free (a :: b :: l) ↔ text a ≠ "" ∧ dangling_free (b :: l).
Proof.
  unfold dangling_free. split.
  - intros H. split.
    + apply (H 0); simpl; [done|lia].
    + intros i e Hi Hlen. apply (H (S i)); simpl in *; [done|lia].
  - intros [Ha H] [|i] e Hi Hlen; simpl in *; [congruence|].
    apply (H i); [done|lia].
Qed.

Lemma dangling_free_short l : length l ≤ 1 → dangling_free l.
Proof.
  intros Hl i e Hi Hlen. apply lookup_lt_Some in Hi. lia.
Qed.

Lemma concat_from_dangling_free rest : ∀ cur,
  dangling_free (concat_from cur rest).
Proof.
  induction rest as [|nxt rest IH]; intros cur; simpl.
  - by apply dangling_free_short.
  - case_decide; [apply IH|].
    specialize (IH nxt). destruct (concat_from nxt rest) as [|b l] eqn:E.
    + by apply dangling_free_short.
    + by apply dangling_free_cons.
Qed.

Lemma concat_from_id rest : ∀ cur,
  dangling_free (cur :: rest) → concat_from cur rest = cur :: rest.
Proof.
  induction rest as [|nxt rest IH]; intros cur H; simpl; [done|].
  apply dangling_free_cons in H as [Ha H].
  rewrite decide_False by done. by rewrite IH.
Qed.

Lemma concat_dangling_id l : dangling_free l → concat_dangling l = l.
Proof. destruct l; [done|]. apply concat_from_id. Qed.

Lemma merge_step_skip sd processed i :
  merge_step sd (true, processed) i = Ok (false, processed).
Proof. done. Qed.

Lemma merge_step_last pre a processed :
  merge_step (pre ++ [a]) (false, processed) (length pre)
  = Ok (false, processed ++ [a]).
Proof.
  unfold merge_step. rewrite index_middle. cbn [mbind result_bind bind].
  rewrite length_app. cbn [length].
  rewrite (bool_decide_eq_false_2 (length pre + 1 < _)) by lia.
  by rewrite andb_false_r.
Qed.

Lemma merge_step_pair pre a b suf processed :
  merge_step (pre ++ a :: b :: suf) (false, processed) (length pre)
  = if bool_decide (text a = "") && bool_decide (text b = "")
    then Ok (true, processed ++ [merged_entry a b])
    else Ok (false, processed ++ [a]).
Proof.
  unfold merge_step. rewrite index_middle. cbn [mbind result_bind bind].
  rewrite length_app. cbn [length].
  rewrite (bool_decide_eq_true_2 (length pre + 1 < _)) by lia.
  rewrite andb_true_r.
  destruct (bool_decide (text a = "")); simpl; [|done].
  rewrite index_middle_next. simpl.
  by destruct (bool_decide (text b = "")).
Qed.

Lemma empty_pair_merge_cons a b l :
  empty_pair_merge (a :: b :: l)
  = if bool_decide (text a = "") && bool_decide (text b = "")
    then merged_entry a b :: empty_pair_merge l
    else a :: empty_pair_merge (b :: l).
Proof. done. Qed.

Lemma merge_loop_spec n : ∀ suf pre processed,
  length suf ≤ n →
  ∃ skip_next,
    for_each (merge_step (pre ++ suf)) (seq (length pre) (length suf))
             (false, processed)
    = Ok (skip_next, processed ++ empty_pair_merge suf).
Proof.
  induction n as [|n IH]; intros suf pre processed Hn.
  { destruct suf; [|simpl in Hn; lia]. exists false. simpl. by rewrite app_nil_r. }
  destruct suf as [|a [|b suf]].
  - exists false. simpl. by rewrite app_nil_r.
  - exists false. cbn [length seq for_each empty_pair_merge].
    by rewrite merge_step_last.
  - rewrite empty_pair_merge_cons. cbn [length seq for_each].
    rewrite merge_step_pair.
    destruct (bool_decide (text a = "") && bool_decide (text b = "")).
    + cbn [bind]. rewrite merge_step_skip. cbn [bind].
      destruct (IH suf (pre ++ [a; b]) (processed ++ [merged_entry a b]))
        as [s Hs]; [simpl in Hn; lia|].
      exists s. rewrite length_app in Hs. cbn [length] in Hs.
      replace (length pre + 2) with (S (S (length pre))) in Hs by lia.
      rewrite <-!(assoc_L (++)) in Hs. exact Hs.
    + cbn [bind].
      destruct (IH (b :: suf) (pre ++ [a]) (processed ++ [a]))
        as [s Hs]; [simpl in Hn |- *; lia|].
      exists s. rewrite length_app in Hs. cbn [length seq] in Hs.
      replace (length pre + 1) with (S (length pre)) in Hs by lia.
      rewrite <-!(assoc_L (++)) in Hs. exact Hs.
Qed.

Lemma merge_empty_spec structured_data :
  _merge_empty_structured_data structured_data
  = Ok (empty_pair_merge structured_data).
Proof.
  unfold _merge_empty_structured_data.
  destruct (merge_loop_spec (length structured_data) structured_data [] [])
    as [s Hs]; [done|].
  simpl in Hs. by rewrite Hs.
Qed.

Lemma empty_pair_merge_id l : dangling_free l → empty_pair_merge l = l.
Proof.
  induction l as [|a [|b l] IH]; intros H; [done..|].
  apply dangling_free_cons in H as [Ha H].
  rewrite empty_pair_merge_cons, (bool_decide_eq_false_2 _ Ha).
  cbn [andb]. by rewrite IH.
Qed.

Lemma tuple_item_inj e1 e2 : tuple_item e1 = tuple_item e2 → e1 = e2.
Proof. destruct e1, e2. unfold tuple_item. simpl. congruence. Qed.

Lemma dedup_fold_inv l : dedup_inv l (foldl dedup_step ([], ∅) l).
Proof.
  induction l as [|x l IH] using rev_ind.
  { split; simpl; [set_solver|constructor|done|done]. }
  rewrite foldl_app. simpl.
  destruct (foldl dedup_step ([], ∅) l) as [u seen].
  destruct IH as [Hseen Hnd Hel Hid]. simpl in *.
  unfold dedup_step. case_decide as Hx.
  - assert (x ∉ u) as Hxu by (by rewrite <-Hseen).
    split; simpl.
    + intros e. rewrite elem_of_union, elem_of_singleton, elem_of_app,
        list_elem_of_singleton, Hseen.
      split; (intros [?|?]; [right|left]; auto using tuple_item_inj; congruence).
    + apply NoDup_app. split_and!; [done| |apply NoDup_singleton].
      intros e He ->%list_elem_of_singleton. done.
    + intros e. rewrite !elem_of_app, Hel. done.
    + intros [Hl _]%NoDup_app. by rewrite Hid.
  - apply Hseen in Hx.
    split; simpl; [done|done| |].
    + intros e. rewrite elem_of_app, list_elem_of_singleton, Hel.
      split; [auto|]. intros [?| ->]; [done|]. by apply Hel.
    + intros (_ & Hdisj & _)%NoDup_app. apply Hel in Hx.
      destruct (Hdisj x Hx). by apply list_elem_of_singleton.
Qed.

Lemma remove_duplicates_NoDup l : NoDup (_remove_duplicates l).
Proof. apply (inv_nodup _ _ (dedup_fold_inv l)). Qed.

Lemma remove_duplicates_elem l e : e ∈ _remove_duplicates l ↔ e ∈ l.
Proof. apply (inv_elem _ _ (dedup_fold_inv l)). Qed.

Lemma remove_duplicates_id l : NoDup l → _remove_duplicates l = l.
Proof. apply (inv_id _ _ (dedup_fold_inv l)). Qed.

Lemma dangling_free_snoc l x :
  dangling_free (l ++ [x]) ↔ Forall (λ e, text e ≠ "") l.
Proof.
  unfold dangling_free. rewrite Forall_lookup. split.
  - intros H i e Hi. apply (H i).
    + by apply lookup_app_l_Some.
    + apply lookup_lt_Some in Hi. rewrite length_app. simpl. lia.
  - intros H i e Hi Hlen. rewrite length_app in Hlen. simpl in Hlen.
    rewrite lookup_app_l in Hi by lia. by apply (H i).
Qed.

Lemma Forall_dangling_free l :
  Forall (λ e, text e ≠ "") l → dangling_free l.
Proof.
  rewrite Forall_lookup. intros H i e Hi _. by apply (H i).
Qed.

Lemma remove_duplicates_dangling_free l :
  dangling_free l → dangling_free (_remove_duplicates l).
Proof.
  destruct l as [|x l _] using rev_ind; [done|].
  intros Hl%dangling_free_snoc.
  assert (Forall (λ e, text e ≠ "") (_remove_duplicates l)) as Hu.
  { rewrite Forall_forall in Hl |- *. intros e He.
    by apply Hl, remove_duplicates_elem. }
  unfold _remove_duplicates in *. rewrite foldl_app. simpl.
  destruct (foldl dedup_step ([], ∅) l) as [u seen]. simpl in *.
  unfold dedup_step. case_decide; simpl.
  - by apply dangling_free_snoc.
  - by apply Forall_dangling_free.
Qed.

(** ** The claims on the repair pass *)

(** C5. Empty-pair merge: the index loop with its [skip_next] flag computes
    the left-to-right scan of the specification: a section with empty text
    followed by a section with empty text is replaced, together with its
    successor, by [{title: section[i].title, text: section[i+1].title,
    page: section[i].page}], the scan resumes after the consumed pair, and
    every other section is kept unchanged and in order. *)
Theorem C5_empty_pair_merge (structured_data : list Entry) :
  _merge_empty_structured_data structured_data
  = Ok (empty_pair_merge structured_data).
Proof. apply merge_empty_spec. Qed.

(** C4. Dangling-title concatenation: the in-place loop returns, for every
    section list, the left-to-right scan that prepends the title of a section
    with empty text onto its successor's title (joined by one space), deletes
    it and re-examines the merged section; on the example of the
    specification it yields the single section ["Part A Part B"]; and every
    section of the output except possibly the last has non-empty text. *)
Theorem C4_dangling_title_concatenation (data : list Entry) :
  _process_titles data = Some (Ok (concat_dangling data))
  ∧ dangling_free (concat_dangling data)
  ∧ _process_titles
      [ {| title := "Part A"; text := ""; page := 1 |};
        {| title := "Part B"; text := "Body"; page := 1 |} ]
    = Some (Ok [ {| title := "Part A Part B"; text := "Body"; page := 1 |} ]).
Proof.
  split_and!.
  - apply process_titles_spec.
  - destruct data as [|cur rest]; [apply dangling_free_short; simpl; lia|].
    apply concat_from_dangling_free.
  - reflexivity.
Qed.

Lemma repair_spec l :
  repair l
  = Some (Ok (concat_dangling (_remove_duplicates (empty_pair_merge l)))).
Proof. unfold repair. by rewrite merge_empty_spec, process_titles_spec. Qed.

Lemma repair_dangling_free l out :
  repair l = Some (Ok out) → dangling_free out.
Proof.
  rewrite repair_spec. intros [= <-].
  destruct (_remove_duplicates _); [apply dangling_free_short; simpl; lia|].
  apply concat_from_dangling_free.
Qed.

Lemma repair_on_dangling_free l :
  dangling_free l → repair l = Some (Ok (_remove_duplicates l)).
Proof.
  intros Hl. rewrite repair_spec, (empty_pair_merge_id l Hl).
  rewrite concat_dangling_id; [done|].
  by apply remove_duplicates_dangling_free.
Qed.

Lemma colliding_titles_structured :
  _process_page_content colliding_page = colliding_titles.
Proof. reflexivity. Qed.

(** C6, as stated, fails: the three sections of [colliding_titles] are
    pairwise distinct, yet the repaired list holds the same section twice. *)
Lemma C6_counterexample :
  ∃ out, repair colliding_titles = Some (Ok out) ∧ ¬ NoDup out.
Proof.
  eexists. split; [vm_compute; reflexivity|].
  intros Hnd. apply NoDup_cons in Hnd as [Hnotin _].
  apply Hnotin. by left.
Qed.

(** C6, amended. The list that exact-duplicate removal hands to the
    dangling-title concatenation holds no two identical sections; the repair
    pass always returns, and its output is duplicate-free whenever the last
    stage has no title to concatenate (every section but possibly the last
    of its input has non-empty text). *)
Theorem C6_no_duplicates_after_removal (structured_data : list Entry) :
  ∃ data_merged out,
    _merge_empty_structured_data structured_data = Ok data_merged
    ∧ NoDup (_remove_duplicates data_merged)
    ∧ repair structured_data = Some (Ok out)
    ∧ (dangling_free (_remove_duplicates data_merged) → NoDup out).
Proof.
  eexists _, _. split_and!.
  - apply merge_empty_spec.
  - apply remove_duplicates_NoDup.
  - apply repair_spec.
  - intros Hfree. rewrite (concat_dangling_id _ Hfree).
    apply remove_duplicates_NoDup.
Qed.

(** C7, as stated, fails: a second run of the repair pass shortens the
    output of the first. *)
Lemma C7_counterexample :
  ∃ once twice,
    repair colliding_titles = Some (Ok once)
    ∧ repair once = Some (Ok twice)
    ∧ twice ≠ once.
Proof.
  eexists _, _. split_and!; [vm_compute; reflexivity..|discriminate].
Qed.

(** C7, amended. Run on its own output, the repair pass merges no pair and
    concatenates no title: it returns that output with exact duplicates
    removed, so it changes nothing when the output holds no two identical
    sections, and a third run never changes anything. *)
Theorem C7_second_run_only_removes_duplicates (structured_data : list Entry) :
  ∃ out,
    repair structured_data = Some (Ok out)
    ∧ repair out = Some (Ok (_remove_duplicates out))
    ∧ (NoDup out → repair out = Some (Ok out))
    ∧ repair (_remove_duplicates out) = Some (Ok (_remove_duplicates out)).
Proof.
  eexists. split; [apply repair_spec|].
  set (out := concat_dangling _).
  assert (dangling_free out) as Hfree
    by (apply (repair_dangling_free structured_data), repair_spec).
  split_and!.
  - by apply repair_on_dangling_free.
  - intros Hnd. rewrite repair_on_dangling_free by done.
    by rewrite remove_duplicates_id.
  - rewrite repair_on_dangling_free;
      [|by apply remove_duplicates_dangling_free].
    rewrite (remove_duplicates_id (_remove_duplicates out)); [done|].
    apply remove_duplicates_NoDup.
Qed.

End repair_pass.

(* ===================================================================== *)
(** * The block segmenter *)
(* ===================================================================== *)


Section block_segmenter.
Import Py PDFParser SegmenterSpec.
Context (size_tag_map : gmap string string).

Lemma visible_truthy span : visible span = true → truthy (text span) = true.
Proof. intros H. by apply truthy_lstrip, truthy_rstrip. Qed.

Lemma start_new_block_eq span identifier :
  _start_new_block span identifier size_tag_map
  = Ok (opening size_tag_map identifier +:+ text span).
Proof. done. Qed.

Lemma close_block_render identifier body :
  truthy body = true →
  match render size_tag_map (identifier, body) with
  | Ok fragment =>
      close_block size_tag_map (Some identifier) (opening size_tag_map identifier +:+ body)
      = Ok fragment
      ∧ ∀ block_strings, flush block_strings fragment = block_strings ++ [fragment]
  | Raise e =>
      close_block size_tag_map (Some identifier) (opening size_tag_map identifier +:+ body)
      = Raise e
  end.
Proof.
  intros Hbody. unfold close_block, render, opening. cbn [mbind option_bind fst snd].
  destruct (size_tag_map !! identifier) as [tag|]; cbn [default].
  - destruct (_get_closing_tag tag) as [closing|e]; [|done].
    cbn [mbind result_bind bind]. rewrite string_app_assoc.
    split; [done|]. intros block_strings. unfold flush.
    rewrite truthy_app_r; [done|]. by apply truthy_app_l.
  - split; [done|]. intros block_strings. unfold flush. by rewrite Hbody.
Qed.

Lemma process_from_open spans : ∀ block_strings identifier body,
  truthy body = true →
  (r ← for_each (span_step size_tag_map) spans
         (block_strings, opening size_tag_map identifier +:+ body, Some identifier);
   finish size_tag_map r)
  = (fragments ← map_result (render size_tag_map)
                   (segments (Some (identifier, body)) spans);
     Ok (block_strings ++ fragments)).
Proof.
  induction spans as [|span spans IH]; intros block_strings identifier body Hbody.
  - cbn [for_each segments]. rewrite bind_Ok, map_result_cons.
    unfold finish.
    pose proof (close_block_render identifier body Hbody) as Hclose.
    destruct (render _ _) as [fragment|e].
    + destruct Hclose as [-> Hflush]. rewrite !bind_Ok. by rewrite Hflush.
    + by rewrite Hclose.
  - cbn [for_each segments]. unfold span_step at 1.
    fold (identifier_of span). fold (visible span).
    destruct (visible span) eqn:Hvis; [|apply IH; done].
    unfold _is_new_block. case_bool_decide as Hnew.
    + rewrite decide_False by congruence.
      rewrite start_new_block_eq, map_result_cons.
      pose proof (close_block_render identifier body Hbody) as Hclose.
      destruct (render _ _) as [fragment|e].
      * destruct Hclose as [-> Hflush]. rewrite !bind_Ok, Hflush.
        change (Py.bind ?r ?k) with (r ≫= k). rewrite bind_Ok.
        rewrite (IH (block_strings ++ [fragment]) (identifier_of span)
                    (text span) (visible_truthy _ Hvis)).
        destruct (map_result _ _); rewrite ?bind_Ok, ?bind_Raise; [|done].
        by rewrite <-(assoc_L (++)).
      * by rewrite Hclose.
    + assert (identifier_of span = identifier) as Heq.
      { congruence. }
      clear Hnew. subst identifier. rewrite decide_True by done.
      change (Py.bind ?r ?k) with (r ≫= k). rewrite bind_Ok.
      rewrite string_app_assoc. apply IH.
      apply truthy_app_l. done.
Qed.

Lemma process_from_start spans : ∀ block_strings,
  (r ← for_each (span_step size_tag_map) spans (block_strings, "", None);
   finish size_tag_map r)
  = (fragments ← map_result (render size_tag_map) (segments None spans);
     Ok (block_strings ++ fragments)).
Proof.
  induction spans as [|span spans IH]; intros block_strings.
  - cbn. by rewrite app_nil_r.
  - cbn [for_each segments]. unfold span_step at 1.
    fold (identifier_of span). fold (visible span).
    destruct (visible span) eqn:Hvis; [|apply IH].
    unfold _is_new_block. rewrite bool_decide_eq_true_2 by done.
    rewrite start_new_block_eq. unfold close_block, flush.
    cbn [mbind option_bind truthy]. rewrite !bind_Ok.
    change (Py.bind ?r ?k) with (r ≫= k). rewrite bind_Ok.
    apply (process_from_open spans block_strings (identifier_of span) (text span)).
    by apply visible_truthy.
Qed.

Lemma process_block_segments block :
  _process_block block size_tag_map
  = map_result (render size_tag_map) (segments None (block_spans block)).
Proof.
  unfold _process_block.
  pose proof (process_from_start (block_spans block) []) as H.
  unfold finish in H.
  destruct (map_result _ _) as [fragments|e1];
    destruct (for_each _ _ _) as [[[bs b] prev]|e2];
    rewrite ?bind_Ok, ?bind_Raise in *; done.
Qed.

Lemma map_result_Forall2 {A B} (f : A → result B) l : ∀ ys,
  map_result f l = Ok ys → Forall2 (λ y x, f x = Ok y) ys l.
Proof.
  induction l as [|x l IH]; intros ys; cbn [map_result].
  - intros [= <-]. constructor.
  - destruct (f x) as [y|e] eqn:Hx; [|done]. rewrite bind_Ok.
    destruct (map_result f l) as [ys'|e]; [|done]. rewrite bind_Ok.
    intros [= <-]. constructor; auto.
Qed.

Lemma render_tagged_as fragment run :
  render size_tag_map run = Ok fragment → tagged_as size_tag_map fragment run.
Proof.
  unfold render, tagged_as. destruct (size_tag_map !! run.1) as [tag|].
  - destruct (_get_closing_tag tag) as [closing|e]; [|done].
    rewrite bind_Ok. intros [= <-]. by exists closing.
  - by intros [= <-].
Qed.

Lemma process_block_tagged block fragments :
  _process_block block size_tag_map = Ok fragments →
  Forall2 (tagged_as size_tag_map) fragments
          (segments None (block_spans block)).
Proof.
  rewrite process_block_segments. intros H%map_result_Forall2.
  eapply Forall2_impl; [exact H|]. intros ??. apply render_tagged_as.
Qed.

Lemma segments_bodies_open spans : ∀ identifier body,
  concat_strings (segments (Some (identifier, body)) spans).*2
  = body +:+ joined_text (Some identifier) spans.
Proof.
  induction spans as [|span spans IH]; intros identifier body;
    cbn [segments joined_text].
  - cbn. by rewrite string_app_nil_r.
  - destruct (visible span); [|apply IH].
    destruct (decide (identifier_of span = identifier)) as [->|Hne].
    + rewrite decide_True by done. by rewrite IH, !string_app_assoc.
    + rewrite decide_False by congruence.
      cbn [fmap list_fmap concat_strings snd]. by rewrite IH.
Qed.

Lemma segments_bodies spans :
  concat_strings (segments None spans).*2 = joined_text None spans.
Proof.
  induction spans as [|span spans IH]; cbn [segments joined_text]; [done|].
  destruct (visible span); [|apply IH].
  rewrite decide_False by done. apply segments_bodies_open.
Qed.

Lemma segments_filter_visible spans : ∀ cur,
  segments cur (filter (λ span, visible span = true) spans) = segments cur spans.
Proof.
  induction spans as [|span spans IH]; intros cur; [done|].
  rewrite filter_cons. cbn [segments].
  destruct (visible span) eqn:Hvis.
  - rewrite decide_True by done. cbn [segments]. rewrite Hvis.
    destruct cur as [[identifier body]|]; [case_decide|]; by rewrite IH.
  - rewrite decide_False by done. apply IH.
Qed.
End block_segmenter.

Section segmenter_claims.
Import Py PDFParser SegmenterSpec.

(** C1. When the segmenter returns the fragments of a block, they are, in
    order, the runs of consecutive visible spans sharing an identifier, each
    between the opening and closing tag of its identifier (or bare when the
    identifier has no tag); stripped of these tags they concatenate to the
    texts of the visible spans in document order, with exactly one space
    inserted between two consecutive visible spans of the same identifier;
    and a block with the same visible spans yields the same fragments:
    whitespace-only spans start, extend and close nothing. *)
Theorem C1_segmenter_keeps_text block size_tag_map fragments :
  _process_block block size_tag_map = Ok fragments →
  let runs := segments None (block_spans block) in
  Forall2 (tagged_as size_tag_map) fragments runs
  ∧ concat_strings runs.*2 = joined_text None (block_spans block)
  ∧ ∀ block',
      filter (λ span, visible span = true) (block_spans block')
      = filter (λ span, visible span = true) (block_spans block) →
      _process_block block' size_tag_map = Ok fragments.
Proof.
  intros Hrun runs. split_and!.
  - by apply process_block_tagged.
  - apply segments_bodies.
  - intros block' Hsame. rewrite <-Hrun, !process_block_segments.
    by rewrite <-(segments_filter_visible (block_spans block')), Hsame,
      segments_filter_visible.
Qed.

Lemma C1_witness :
  _process_block sample_block sample_tags = Ok sample_fragments
  ∧ (let runs := segments None (block_spans sample_block) in
     Forall2 (tagged_as sample_tags) sample_fragments runs
     ∧ concat_strings runs.*2 = joined_text None (block_spans sample_block)
     ∧ ∀ block',
         filter (λ span, visible span = true) (block_spans block')
         = filter (λ span, visible span = true) (block_spans sample_block) →
         _process_block block' sample_tags = Ok sample_fragments).
Proof.
  split; [vm_compute; reflexivity|].
  apply (C1_segmenter_keeps_text sample_block sample_tags sample_fragments).
  vm_compute; reflexivity.
Defined.

(** C9. Every fragment the segmenter returns for a run whose identifier has
    a tag is that opening tag, the joined text of the run, and the closing
    tag [_get_closing_tag] derives from the same tag; [_start_new_block]
    contributes the opening tag and the text only, its own closing-tag branch
    never being taken; the tags of the tag assigner close as [</p>] and
    [</hN>]. *)
Theorem C9_flushed_fragments_well_formed block size_tag_map fragments :
  _process_block block size_tag_map = Ok fragments →
  Forall2
    (λ fragment run,
       ∀ tag, size_tag_map !! run.1 = Some tag →
         ∃ closing, _get_closing_tag tag = Ok closing
                    ∧ fragment = tag +:+ run.2 +:+ closing)
    fragments (segments None (block_spans block))
  ∧ (∀ span identifier,
       _start_new_block span identifier size_tag_map
       = Ok (default "" (size_tag_map !! identifier) +:+ text span))
  ∧ _get_closing_tag "<p>" = Ok "</p>"
  ∧ ∀ level : nat,
      _get_closing_tag ("<h" +:+ pretty level +:+ ">")
      = Ok ("</h" +:+ pretty level +:+ ">").
Proof.
  intros Hrun. split_and!.
  - eapply Forall2_impl; [by apply process_block_tagged|].
    intros fragment run Htagged tag Htag.
    unfold tagged_as in Htagged. by rewrite Htag in Htagged.
  - intros span identifier. apply start_new_block_eq.
  - apply get_closing_tag_p.
  - apply get_closing_tag_heading.
Qed.

Lemma C9_witness :
  _process_block sample_block sample_tags = Ok sample_fragments
  ∧ (Forall2
       (λ fragment run,
          ∀ tag, sample_tags !! run.1 = Some tag →
            ∃ closing, _get_closing_tag tag = Ok closing
                       ∧ fragment = tag +:+ run.2 +:+ closing)
       sample_fragments (segments None (block_spans sample_block))
     ∧ (∀ span identifier,
          _start_new_block span identifier sample_tags
          = Ok (default "" (sample_tags !! identifier) +:+ text span))
     ∧ _get_closing_tag "<p>" = Ok "</p>"
     ∧ ∀ level : nat,
         _get_closing_tag ("<h" +:+ pretty level +:+ ">")
         = Ok ("</h" +:+ pretty level +:+ ">")).
Proof.
  split; [vm_compute; reflexivity|].
  apply (C9_flushed_fragments_well_formed sample_block sample_tags sample_fragments).
  vm_compute; reflexivity.
Defined.

(** With tags of the tag assigner's two shapes the segmenter never raises. *)
Lemma render_well_tagged size_tag_map run :
  well_tagged size_tag_map → ∃ fragment, render size_tag_map run = Ok fragment.
Proof.
  intros Hwt. unfold render.
  destruct (size_tag_map !! run.1) as [tag|] eqn:Htag; [|by eexists].
  destruct (Hwt _ _ Htag) as [->|[level ->]].
  - rewrite get_closing_tag_p. by eexists.
  - rewrite get_closing_tag_heading. by eexists.
Qed.

Lemma map_result_total {A B} (f : A → result B) l :
  (∀ x, ∃ y, f x = Ok y) → ∃ ys, map_result f l = Ok ys.
Proof.
  intros Hf. induction l as [|x l [ys IH]]; [by eexists|].
  destruct (Hf x) as [y Hy]. rewrite map_result_cons, Hy, IH. by eexists.
Qed.

Lemma process_block_total block size_tag_map :
  well_tagged size_tag_map →
  ∃ fragments, _process_block block size_tag_map = Ok fragments.
Proof.
  intros Hwt. rewrite process_block_segments.
  apply map_result_total. intros run. by apply render_well_tagged.
Qed.

(** Whitespace is what [str.strip()] removes: a span holding only a
    no-break space or a next-line character is skipped like a blank one, so
    it neither splits a run nor gives a fragment, and its tag is never
    looked up. *)
Lemma strip_latin1_spaces :
  strip (String "160" (String "133" (String "009" " "))) = ""
  ∧ strip (String "160" ("a b" +:+ String "133" "")) = "a b".
Proof. split; reflexivity. Qed.

Lemma no_break_space_span_is_skipped :
  _process_block
    {| block_type := 0;
       lines := [ {| spans :=
         [ {| text := "Hello"; size := 18; font := "Sans"; color := 0 |};
           {| text := String "160" ""; size := 9; font := "Serif"; color := 0 |};
           {| text := "World"; size := 18; font := "Sans"; color := 0 |} ] |} ] |}
    sample_tags
  = Ok ["<h1>Hello World</h1>"]
  ∧ _process_block
      {| block_type := 0;
         lines := [ {| spans :=
           [ {| text := String "160" ""; size := 9; font := "Serif";
                color := 0 |} ] |} ] |}
      (<["9_Serif_0" := "p"]> ∅)
    = Ok [].
Proof. split; vm_compute; reflexivity. Qed.
End segmenter_claims.

(* ===================================================================== *)
(** * Sorting *)
(* ===================================================================== *)

Section sorted_facts.
Import Py.
Context {A : Type} (lt : A → A → bool).

Lemma insert_sorted_Permutation x l : insert_sorted lt x l ≡ₚ x :: l.
Proof.
  induction l as [|y l IH]; [done|]. cbn [insert_sorted].
  destruct (lt y x); [|done]. rewrite IH. apply Permutation_swap.
Qed.

Lemma sorted_Permutation l : sorted lt l ≡ₚ l.
Proof.
  induction l as [|x l IH]; [done|]. unfold sorted in *. cbn [foldr].
  by rewrite insert_sorted_Permutation, IH.
Qed.

Lemma sorted_nil_inv l : sorted lt l = [] → l = [].
Proof.
  intros H. apply Permutation_nil_r. rewrite <-H. symmetry. apply sorted_Permutation.
Qed.

(** For a strict weak order the result is sorted: no element is smaller
    than one placed before it. *)
Context (lt_asym : ∀ a b, lt a b = true → lt b a = false).
Context (lt_ntrans : ∀ a b c, lt b a = false → lt c b = false → lt c a = false).

Lemma insert_sorted_StronglySorted x l :
  StronglySorted (λ a b, lt b a = false) l →
  StronglySorted (λ a b, lt b a = false) (insert_sorted lt x l).
Proof.
  induction 1 as [|y l Hl IH Hy]; cbn [insert_sorted].
  { repeat constructor. }
  destruct (lt y x) eqn:Hyx.
  - constructor; [done|].
    rewrite insert_sorted_Permutation. constructor; [|done]. by apply lt_asym.
  - constructor; [by constructor|]. constructor; [done|].
    eapply Forall_impl; [exact Hy|]. intros z Hz. by eapply lt_ntrans.
Qed.

Lemma sorted_StronglySorted l :
  StronglySorted (λ a b, lt b a = false) (sorted lt l).
Proof.
  induction l as [|x l IH]; [constructor|].
  by apply insert_sorted_StronglySorted.
Qed.
End sorted_facts.

Lemma StronglySorted_strict {A} (R S : relation A) l :
  (∀ a b, R a b → a ≠ b → S a b) →
  NoDup l → StronglySorted R l → StronglySorted S l.
Proof.
  intros HRS Hnd Hl. induction Hl as [|x l Hl IH Hx]; [constructor|].
  apply NoDup_cons in Hnd as [Hxl Hnd]. constructor; [auto|].
  rewrite Forall_forall in Hx |- *. intros y Hy.
  apply HRS; [auto|]. by intros ->.
Qed.

(* ===================================================================== *)
(** * The order of the sorted pass *)
(* ===================================================================== *)

Section style_order.
Import Py PDFParser TagSpec.

Lemma string_ltb_false a b : String.ltb a b = false ↔ String.le b a.
Proof.
  unfold String.le, String.leb, String.ltb.
  rewrite (String.compare_antisym a b).
  destruct (String.compare b a); simpl; split; intros H; done.
Qed.

Lemma string_ltb_irrefl a : String.ltb a a = false.
Proof. by apply string_ltb_false. Qed.

Lemma string_ltb_trans a b c :
  String.ltb a b = true → String.ltb b c = true → String.ltb a c = true.
Proof.
  intros Hab Hbc. apply not_false_iff_true. rewrite string_ltb_false. intros Hca.
  apply not_false_iff_true in Hab, Hbc. rewrite string_ltb_false in Hab, Hbc.
  destruct (total String.le a b) as [Hle|Hle]; [|done].
  apply Hbc. by trans a.
Qed.

Lemma string_ltb_trichotomy a b :
  String.ltb a b = true ∨ a = b ∨ String.ltb b a = true.
Proof.
  destruct (String.ltb a b) eqn:Hab; [by left|].
  destruct (String.ltb b a) eqn:Hba; [by right; right|].
  right; left. apply string_ltb_false in Hab, Hba. by apply (anti_symm String.le).
Qed.

Lemma sort_key_lt_spec a b : sort_key_lt a b = true ↔ style_before a b.
Proof.
  destruct a as [[sa fa] ca], b as [[sb fb] cb]. unfold sort_key_lt, style_before.
  cbn [fst snd].
  rewrite orb_true_iff, !andb_true_iff, orb_true_iff, andb_true_iff,
    !bool_decide_eq_true.
  split; (intros [?|[? [?|[??]]]]; [left; lia|right; split; [lia|auto]..]).
Qed.

Lemma style_before_irrefl a : ¬ style_before a a.
Proof.
  unfold style_before. rewrite string_ltb_irrefl. intros [?|[_ [?|[_ ?]]]]; [lia|done|lia].
Qed.

Lemma style_before_trans a b c :
  style_before a b → style_before b c → style_before a c.
Proof.
  unfold style_before.
  intros [?|[? [?|[? ?]]]] [?|[? [?|[? ?]]]]; try (left; lia);
    right; (split; [lia|]).
  - left. by eapply string_ltb_trans.
  - left. congruence.
  - left. congruence.
  - right. split; [congruence|lia].
Qed.

Lemma style_before_trichotomy a b :
  style_before a b ∨ a = b ∨ style_before b a.
Proof.
  destruct a as [[sa fa] ca], b as [[sb fb] cb]. unfold style_before. cbn [fst snd].
  destruct (Z.lt_trichotomy sa sb) as [?|[->|?]].
  { right; right; left; lia. }
  2: { left; left; lia. }
  destruct (string_ltb_trichotomy fa fb) as [?|[->|?]].
  { left; right; auto. }
  2: { right; right; right; auto. }
  destruct (Z.lt_trichotomy ca cb) as [?|[->|?]].
  - left; right; auto.
  - right; left; done.
  - right; right; right; auto.
Qed.

Lemma sort_key_lt_asym a b : sort_key_lt a b = true → sort_key_lt b a = false.
Proof.
  intros Hab%sort_key_lt_spec. apply not_true_iff_false.
  intros Hba%sort_key_lt_spec. by eapply style_before_irrefl, style_before_trans.
Qed.

Lemma sort_key_lt_false a b :
  sort_key_lt b a = false ↔ a = b ∨ style_before a b.
Proof.
  rewrite <-not_true_iff_false, sort_key_lt_spec. split.
  - intros Hnot. destruct (style_before_trichotomy a b) as [?|[?|?]]; auto. done.
  - intros [->|Hab] Hba; [by eapply style_before_irrefl|].
    by eapply style_before_irrefl, style_before_trans.
Qed.

Lemma sort_key_lt_ntrans a b c :
  sort_key_lt b a = false → sort_key_lt c b = false → sort_key_lt c a = false.
Proof.
  rewrite !sort_key_lt_false. intros [->|?] [->|?]; auto.
  right. by eapply style_before_trans.
Qed.

Lemma sorted_unique_styles_spec us :
  let sorted_styles := sorted_unique_styles us in
  NoDup sorted_styles
  ∧ (∀ t, t ∈ sorted_styles ↔ t ∈ us)
  ∧ StronglySorted style_before sorted_styles.
Proof.
  intros sorted_styles.
  assert (sorted_styles ≡ₚ elements us) as Hperm by apply sorted_Permutation.
  assert (NoDup sorted_styles) as Hnd by (rewrite Hperm; apply NoDup_elements).
  split_and!; [done| |].
  - intros t. by rewrite Hperm, elem_of_elements.
  - apply (StronglySorted_strict (λ a b, sort_key_lt b a = false)); [|done|].
    + intros a b [?|?]%sort_key_lt_false ?; done.
    + apply sorted_StronglySorted;
        [apply sort_key_lt_asym|apply sort_key_lt_ntrans].
Qed.
End style_order.

(* ===================================================================== *)
(** * The tag assigner *)
(* ===================================================================== *)

Section tag_assigner.
Import Py PDFParser TagSpec.

Lemma identifier3_inj t t' : identifier3 t = identifier3 t' → t = t'.
Proof.
  destruct t as [[??]?], t' as [[??]?]. unfold identifier3. cbn [fst snd].
  apply format_identifier_inj.
Qed.

Lemma style_triple_Ok st t : style_triple st = Ok t ↔ st = style_of t.
Proof.
  destruct t as [[sz fnt] col]. unfold style_of. cbn [fst snd].
  destruct st; cbn; split; intros [= ]; by subst.
Qed.

Lemma heading_style_dominant d : ¬ heading_style d d.
Proof. unfold heading_style. intros [?|[_ [?|?]]]; [lia|done..]. Qed.

Lemma heading_style_smaller d t : (t.1.1 < d.1.1)%Z → ¬ heading_style d t.
Proof. unfold heading_style. intros ? [?|[? _]]; lia. Qed.

Lemma determine_tag_spec d t header_idx subheader_idx :
  _determine_tag t.1.1 t.1.2 t.2 (style_of d) header_idx subheader_idx
  = Ok (tag_for d header_idx t,
        if decide (heading_style d t) then header_idx + 1 else header_idx,
        subheader_idx).
Proof.
  destruct t as [[sz fnt] col], d as [[psz pfnt] pcol].
  unfold _determine_tag, style_of, tag_for. cbn [fst snd style_size style_font style_color].
  rewrite !bind_Ok. case_bool_decide as Heq.
  - injection Heq as -> -> ->.
    by rewrite !decide_False by apply heading_style_dominant.
  - destruct (decide (heading_style _ _)) as [Hh|Hh];
      unfold heading_style in Hh; cbn [fst snd] in Hh.
    + rewrite (proj2 (orb_true_iff _ _)); [done|]. clear Heq.
      rewrite andb_true_iff, orb_true_iff, !bool_decide_eq_true. done.
    + rewrite (proj2 (orb_false_iff _ _)); [done|].
      rewrite andb_false_iff, orb_false_iff, !bool_decide_eq_false.
      split; [tauto|].
      destruct (decide (sz = psz)); [right|by left].
      split; intros ?; apply Hh; auto.
Qed.

Lemma tag_step_spec d size_tag_map header_idx subheader_idx t :
  tag_step (style_of d) (size_tag_map, header_idx, subheader_idx) t
  = Ok (<[identifier3 t := tag_for d header_idx t]> size_tag_map,
        if decide (heading_style d t) then header_idx + 1 else header_idx,
        subheader_idx).
Proof.
  unfold tag_step. destruct t as [[sz fnt] col].
  rewrite (determine_tag_spec d (sz, fnt, col)), bind_Ok. done.
Qed.

Lemma tag_pass_spec d sorted_styles : ∀ size_tag_map header_idx subheader_idx,
  NoDup sorted_styles →
  ∃ tm,
    for_each (tag_step (style_of d)) sorted_styles
             (size_tag_map, header_idx, subheader_idx)
    = Ok (tm,
          header_idx + length (filter (heading_style d) sorted_styles),
          subheader_idx)
    ∧ (∀ i t, sorted_styles !! i = Some t →
         tm !! identifier3 t
         = Some (tag_for d
                   (header_idx
                    + length (filter (heading_style d) (take i sorted_styles)))
                   t))
    ∧ (∀ k, (∀ t, t ∈ sorted_styles → identifier3 t ≠ k) →
         tm !! k = size_tag_map !! k).
Proof.
  induction sorted_styles as [|t0 l IH]; intros m h s Hnd.
  { exists m. split_and!; [cbn; f_equal; f_equal; f_equal; lia|done|done]. }
  apply NoDup_cons in Hnd as [Hnotin Hnd].
  cbn [for_each]. rewrite tag_step_spec.
  change (Py.bind ?r ?k) with (r ≫= k). rewrite bind_Ok.
  destruct (IH (<[identifier3 t0 := tag_for d h t0]> m)
               (if decide (heading_style d t0) then h + 1 else h) s Hnd)
    as (tm & Hrun & Hlook & Hframe).
  exists tm. split_and!.
  - rewrite Hrun. rewrite filter_cons. do 3 f_equal.
    case_decide; cbn [length]; lia.
  - intros [|i] t Hi.
    + injection Hi as <-. rewrite Hframe.
      * by rewrite lookup_insert_eq, Nat.add_0_r.
      * intros t Ht Heq. apply identifier3_inj in Heq as ->. done.
    + cbn in Hi. rewrite (Hlook i t Hi). do 2 f_equal.
      cbn [take]. rewrite filter_cons. case_decide; cbn [length]; lia.
  - intros k Hk. rewrite Hframe.
    + apply lookup_insert_ne. apply Hk. by left.
    + intros t Ht. apply Hk. by right.
Qed.

Lemma unique_styles_loop l : ∀ acc us,
  for_each (λ (acc : gset (Z * string * Z)) st,
              t ← style_triple st; Ok ({[ t ]} ∪ acc)) l acc = Ok us →
  ∀ t, t ∈ us ↔ t ∈ acc ∨ style_of t ∈ l.
Proof.
  induction l as [|st l IH]; intros acc us; cbn [for_each].
  - intros [= <-] t. split; [by left|]. by intros [?|?%elem_of_nil].
  - destruct (style_triple st) as [t0|e] eqn:Ht0; [|done].
    apply style_triple_Ok in Ht0 as ->.
    rewrite bind_Ok. change (Py.bind ?r ?k) with (r ≫= k). rewrite bind_Ok.
    intros Hrun t. rewrite (IH _ _ Hrun), elem_of_union, elem_of_singleton,
      elem_of_cons.
    split; [intros [[->|?]|?]; auto|intros [?|[Heq|?]]; auto].
    left; left. destruct t as [[??]?], t0 as [[??]?].
    unfold style_of in Heq. cbn in Heq. congruence.
Qed.

Lemma unique_styles_loop_total l : ∀ acc,
  (∀ st, st ∈ l → ∃ t, st = style_of t) →
  ∃ us, for_each (λ (acc : gset (Z * string * Z)) st,
                    t ← style_triple st; Ok ({[ t ]} ∪ acc)) l acc = Ok us.
Proof.
  induction l as [|st l IH]; intros acc Hl; [by eexists|].
  destruct (Hl st) as [t ->]; [by left|].
  cbn [for_each]. rewrite (proj2 (style_triple_Ok _ t) eq_refl), bind_Ok.
  change (Py.bind ?r ?k) with (r ≫= k). rewrite bind_Ok.
  apply IH. intros st Hst. apply Hl. by right.
Qed.

Lemma elem_of_styles_values (styles : gmap string Style) st :
  st ∈ (map_to_list styles).*2 ↔ ∃ k, styles !! k = Some st.
Proof.
  rewrite list_elem_of_fmap. split.
  - intros [[k st'] [-> Hin]]. exists k. by apply elem_of_map_to_list.
  - intros [k Hk]. exists (k, st). split; [done|]. by apply elem_of_map_to_list.
Qed.

Lemma unique_styles_spec styles us :
  unique_styles styles = Ok us →
  ∀ t, t ∈ us ↔ ∃ k, styles !! k = Some (style_of t).
Proof.
  intros Hrun t. rewrite (unique_styles_loop _ _ _ Hrun), elem_of_styles_values.
  split; [by intros [?%elem_of_empty|?]|by right].
Qed.

Lemma unique_styles_total styles :
  (∀ k st, styles !! k = Some st → ∃ t, st = style_of t) →
  ∃ us, unique_styles styles = Ok us.
Proof.
  intros Hfull. apply unique_styles_loop_total.
  intros st [k Hk]%elem_of_styles_values. eauto.
Qed.
End tag_assigner.

(* ===================================================================== *)
(** * The style catalog *)
(* ===================================================================== *)

Section style_catalog.
Import Py PDFParser TagSpec.

Lemma get_count_increment k identifier font_counts :
  get_count k (increment identifier font_counts)
  = if decide (k = identifier) then S (get_count identifier font_counts)
    else get_count k font_counts.
Proof.
  induction font_counts as [|[k' n] rest IH]; cbn [increment get_count].
  - repeat case_decide; congruence.
  - destruct (decide (k' = identifier)) as [->|Hne]; cbn [get_count].
    + repeat case_decide; congruence.
    + rewrite IH. repeat case_decide; congruence.
Qed.

Lemma keys_increment k identifier font_counts :
  k ∈ (increment identifier font_counts).*1
  ↔ k = identifier ∨ k ∈ font_counts.*1.
Proof.
  induction font_counts as [|[k' n] rest IH]; cbn [increment].
  - cbn. rewrite list_elem_of_singleton. split; [by left|].
    by intros [?|?%elem_of_nil].
  - case_decide; subst; cbn [fmap list_fmap fst];
      rewrite !elem_of_cons, ?IH; tauto.
Qed.

Lemma NoDup_increment identifier font_counts :
  NoDup font_counts.*1 → NoDup (increment identifier font_counts).*1.
Proof.
  induction font_counts as [|[k' n] rest IH]; cbn [increment].
  - intros _. cbn. apply NoDup_singleton.
  - cbn [fmap list_fmap fst]. intros [Hk Hnd]%NoDup_cons.
    case_decide; subst; cbn [fmap list_fmap fst];
      apply NoDup_cons; split; auto.
    rewrite keys_increment. by intros [?|?].
Qed.

Lemma get_count_elem k n font_counts :
  NoDup font_counts.*1 → (k, n) ∈ font_counts → get_count k font_counts = n.
Proof.
  induction font_counts as [|[k' n'] rest IH]; [by intros _ ?%elem_of_nil|].
  cbn [fmap list_fmap fst get_count]. intros [Hk Hnd]%NoDup_cons Hin.
  apply elem_of_cons in Hin as [[= -> ->]|Hin].
  - by rewrite decide_True.
  - rewrite decide_False; [by apply IH|].
    intros ->. apply Hk. apply list_elem_of_fmap. by exists (k, n).
Qed.

(** The loop state of [_extract_fonts] after the spans [seen]. *)
Lemma catalog_fold_inv seen :
  catalog_inv seen (foldl (catalog_step true) (∅, []) seen).
Proof.
  induction seen as [|span seen IH] using rev_ind.
  { split; cbn; [|apply NoDup_nil_2| |done].
    - intros k st. rewrite lookup_empty. split; [done|].
      by intros (? & ?%elem_of_nil & _).
    - intros k. split; [by intros ?%elem_of_nil|].
      by intros (? & ?%elem_of_nil & _). }
  rewrite foldl_app. cbn [foldl].
  destruct (foldl (catalog_step true) (∅, []) seen) as [styles font_counts].
  destruct IH as [Hstyles Hnd Hkeys Hcount]. cbn [fst snd] in *.
  unfold catalog_step, _create_identifier, _extract_style.
  fold (triple_of span). change (format_identifier _ _ _) with (identifier3 (triple_of span)).
  change (StyleFull _ _ _) with (style_of (triple_of span)).
  split; cbn [fst snd].
  - intros k st. rewrite lookup_insert. case_decide as Hk.
    + subst k. split.
      * intros [= <-]. exists span. rewrite elem_of_app, list_elem_of_singleton. auto.
      * intros (span' & _ & Hid & ->). by apply identifier3_inj in Hid as <-.
    + rewrite Hstyles. split; intros (span' & Hin & -> & ->); exists span';
        (split; [|done]).
      * apply elem_of_app. by left.
      * apply elem_of_app in Hin as [?|Heq%list_elem_of_singleton]; [done|].
        by subst span'.
  - by apply NoDup_increment.
  - intros k. rewrite keys_increment, Hkeys. split.
    + intros [->|(span' & Hin & ->)]; eexists; (split; [|done]);
        rewrite elem_of_app, list_elem_of_singleton; auto.
    + intros (span' & [Hin|Heq%list_elem_of_singleton]%elem_of_app & ->);
        [right; eauto|left; by subst span'].
  - intros t. rewrite get_count_increment, !Hcount. unfold occurrences.
    rewrite filter_app, length_app, filter_cons, filter_nil.
    destruct (decide (identifier3 t = identifier3 (triple_of span))) as [Heq|Hne].
    + apply identifier3_inj in Heq as ->. rewrite decide_True by done.
      cbn [length]. lia.
    + rewrite decide_False by congruence. cbn [length]. lia.
Qed.

Lemma by_count_desc_asym a b :
  by_count_desc a b = true → by_count_desc b a = false.
Proof. unfold by_count_desc. rewrite Nat.ltb_lt, Nat.ltb_ge. lia. Qed.

Lemma by_count_desc_ntrans a b c :
  by_count_desc b a = false → by_count_desc c b = false →
  by_count_desc c a = false.
Proof. unfold by_count_desc. rewrite !Nat.ltb_ge. lia. Qed.

Lemma sorted_by_count_head font_counts first rest :
  sorted by_count_desc font_counts = first :: rest →
  first ∈ font_counts ∧ ∀ entry, entry ∈ font_counts → entry.2 ≤ first.2.
Proof.
  intros Hsorted.
  pose proof (sorted_Permutation by_count_desc font_counts) as Hperm.
  pose proof (sorted_StronglySorted by_count_desc by_count_desc_asym
                by_count_desc_ntrans font_counts) as Hss.
  rewrite Hsorted in Hperm, Hss. split.
  - rewrite <-Hperm. by left.
  - intros entry. rewrite <-Hperm. intros [->|Hin]%elem_of_cons; [done|].
    apply StronglySorted_inv in Hss as [_ Hall].
    rewrite Forall_forall in Hall. specialize (Hall entry Hin).
    unfold by_count_desc in Hall. by apply Nat.ltb_ge in Hall.
Qed.

(** [_extract_fonts] raises exactly on a page without text spans, and
    otherwise returns the catalog of the loop. *)
Lemma extract_fonts_empty p :
  text_spans p = [] →
  _extract_fonts p true
  = Raise (ValueError ("No fonts found on page " +:+ pretty (number p))).
Proof. unfold _extract_fonts. by intros ->. Qed.

Lemma extract_fonts_Ok p :
  text_spans p ≠ [] →
  ∃ styles font_counts first rest,
    _extract_fonts p true = Ok (first :: rest, styles)
    ∧ catalog_inv (text_spans p) (styles, font_counts)
    ∧ sorted by_count_desc font_counts = first :: rest.
Proof.
  intros Hne. unfold _extract_fonts.
  pose proof (catalog_fold_inv (text_spans p)) as Hinv.
  destruct (foldl _ _ _) as [styles font_counts].
  destruct font_counts as [|entry font_counts].
  { destruct (text_spans p) as [|span spans]; [done|].
    destruct (inv_keys _ _ Hinv (identifier3 (triple_of span))) as [_ Hin].
    cbn in Hin. apply elem_of_nil in Hin; [done|]. exists span. split; [by left|done]. }
  destruct (sorted by_count_desc (entry :: font_counts)) as [|first rest] eqn:Hs.
  { by apply sorted_nil_inv in Hs. }
  exists styles, (entry :: font_counts), first, rest. by rewrite Hs.
Qed.

Lemma extract_fonts_Ok_inv p font_counts styles :
  _extract_fonts p true = Ok (font_counts, styles) → text_spans p ≠ [].
Proof. intros Hrun Hnil. by rewrite extract_fonts_empty in Hrun. Qed.
End style_catalog.

(* ===================================================================== *)
(** * The tag map of a page *)
(* ===================================================================== *)

Section tag_map.
Import Py PDFParser TagSpec SegmenterSpec.

Lemma get_count_zero_or_elem k font_counts :
  get_count k font_counts = 0 ∨ (k, get_count k font_counts) ∈ font_counts.
Proof.
  induction font_counts as [|[k' n] rest IH]; [by left|]. cbn [get_count].
  case_decide; subst; [right; by left|].
  destruct IH as [?|?]; [by left|right; by right].
Qed.

Lemma tag_for_shape d header_idx t :
  tag_for d header_idx t = "<p>"
  ∨ ∃ level : nat, tag_for d header_idx t = "<h" +:+ pretty level +:+ ">".
Proof. unfold tag_for. case_decide; [right; by eexists|by left]. Qed.

Lemma create_size_tag_map_spec first rest styles d :
  styles !! first.1 = Some (style_of d) →
  (∀ k st, styles !! k = Some st → ∃ t, st = style_of t) →
  ∃ size_tag_map us,
    unique_styles styles = Ok us
    ∧ _create_size_tag_map (first :: rest) styles = Ok size_tag_map
    ∧ (∀ i t, sorted_unique_styles us !! i = Some t →
         size_tag_map !! identifier3 t
         = Some (tag_for d (level_at d (sorted_unique_styles us) i) t))
    ∧ well_tagged size_tag_map.
Proof.
  intros Hfirst Hfull.
  destruct (unique_styles_total styles Hfull) as [us Hus].
  destruct (sorted_unique_styles_spec us) as (Hnd & _ & _).
  destruct (tag_pass_spec d (sorted_unique_styles us) ∅ 1 1 Hnd)
    as (tm & Hrun & Hlook & Hframe).
  exists tm, us. split_and!; [done| |done|].
  - unfold _create_size_tag_map. change (index (first :: rest) 0) with (Ok first).
    rewrite bind_Ok, Hfirst, bind_Ok, Hus, bind_Ok, Hrun, bind_Ok. done.
  - intros k tag Htag.
    destruct (decide (k ∈ identifier3 <$> sorted_unique_styles us)) as [Hin|Hout].
    + apply list_elem_of_fmap in Hin as (t & -> & [i Hi]%list_elem_of_lookup).
      rewrite (Hlook i t Hi) in Htag. injection Htag as <-. apply tag_for_shape.
    + rewrite Hframe, lookup_empty in Htag; [done|].
      intros t Ht <-. apply Hout, list_elem_of_fmap. eauto.
Qed.

(** What [process_document] computes from a page before segmenting it. *)
Lemma page_tag_map p :
  text_spans p ≠ [] →
  ∃ font_counts styles size_tag_map dominant us,
    _extract_fonts p true = Ok (font_counts, styles)
    ∧ _create_size_tag_map font_counts styles = Ok size_tag_map
    ∧ well_tagged size_tag_map
    ∧ (∃ first, head font_counts = Some first
                ∧ styles !! first.1 = Some (style_of dominant))
    ∧ (∃ span, span ∈ text_spans p ∧ triple_of span = dominant)
    ∧ (∀ t, occurrences t (text_spans p)
            ≤ occurrences dominant (text_spans p))
    ∧ (∀ t, t ∈ us ↔ ∃ span, span ∈ text_spans p ∧ triple_of span = t)
    ∧ (∀ i t, sorted_unique_styles us !! i = Some t →
         size_tag_map !! identifier3 t
         = Some (tag_for dominant
                   (level_at dominant (sorted_unique_styles us) i) t)).
Proof.
  intros Hne.
  destruct (extract_fonts_Ok p Hne)
    as (styles & font_counts & first & rest & Hrun & Hinv & Hsorted).
  destruct Hinv as [Hstyles Hnd Hkeys Hcount]. cbn [fst snd] in *.
  destruct (sorted_by_count_head _ _ _ Hsorted) as [Hin Hmax].
  assert (first.1 ∈ font_counts.*1) as Hkey
    by (apply list_elem_of_fmap; eauto).
  apply Hkeys in Hkey as (dspan & Hdspan & Hid).
  set (dominant := triple_of dspan) in *.
  assert (styles !! first.1 = Some (style_of dominant)) as Hdom.
  { apply Hstyles. exists dspan. done. }
  assert (∀ k st, styles !! k = Some st → ∃ t, st = style_of t) as Hfull.
  { intros k st (span & _ & _ & ->)%Hstyles. eauto. }
  destruct (create_size_tag_map_spec first rest styles dominant Hdom Hfull)
    as (tm & us & Hus & Htm & Hlook & Hwt).
  exists (first :: rest), styles, tm, dominant, us.
  split_and!; [done..| by exists first | eauto | | |done].
  - intros t. rewrite <-!Hcount, <-Hid.
    destruct first as [k n]. cbn [fst snd] in *.
    rewrite (get_count_elem k n font_counts Hnd Hin).
    destruct (get_count_zero_or_elem (identifier3 t) font_counts) as [->|Ht];
      [lia|]. apply (Hmax _ Ht).
  - intros t. rewrite (unique_styles_spec _ _ Hus). split.
    + intros (k & (span & Hspan & _ & Heq)%Hstyles). exists span. split; [done|].
      destruct t as [[??]?]. unfold style_of, triple_of in *. cbn in Heq. congruence.
    + intros (span & Hspan & <-). exists (identifier3 (triple_of span)).
      apply Hstyles. eauto.
Qed.
End tag_map.

Section tag_assigner_claim.
Import Py PDFParser TagSpec.

(** C3. On the catalog of a page the tag assigner returns a tag map such
    that, with [dominant] the style recorded under the first identifier of
    the sorted counts, which is a most frequent style of the page, and
    [sorted_styles] the distinct styles of the page in the order size
    descending, font ascending, color ascending: the dominant style is tagged
    [<p>]; a style that is larger, or as large with another font or color,
    is tagged [<hN>] where N is one more than the number of such styles
    before it in [sorted_styles]; a smaller style is tagged [<p>]. *)
Theorem C3_tag_assigner p font_counts styles :
  _extract_fonts p true = Ok (font_counts, styles) →
  ∃ size_tag_map dominant sorted_styles,
    _create_size_tag_map font_counts styles = Ok size_tag_map
    ∧ (∃ first, head font_counts = Some first
                ∧ styles !! first.1 = Some (style_of dominant))
    ∧ (∃ span, span ∈ text_spans p ∧ triple_of span = dominant)
    ∧ (∀ t, occurrences t (text_spans p)
            ≤ occurrences dominant (text_spans p))
    ∧ NoDup sorted_styles
    ∧ (∀ t, t ∈ sorted_styles
            ↔ ∃ span, span ∈ text_spans p ∧ triple_of span = t)
    ∧ StronglySorted style_before sorted_styles
    ∧ ∀ i t, sorted_styles !! i = Some t →
        (t = dominant → size_tag_map !! identifier3 t = Some "<p>")
        ∧ (heading_style dominant t →
           size_tag_map !! identifier3 t
           = Some ("<h" +:+ pretty (level_at dominant sorted_styles i) +:+ ">"))
        ∧ ((t.1.1 < dominant.1.1)%Z →
           size_tag_map !! identifier3 t = Some "<p>").
Proof.
  intros Hrun.
  destruct (page_tag_map p (extract_fonts_Ok_inv _ _ _ Hrun))
    as (fc & st & tm & dominant & us & Hrun' & Htm & _ & Hfirst & Hdom & Hmax
        & Hus & Hlook).
  rewrite Hrun in Hrun'. injection Hrun' as <- <-.
  destruct (sorted_unique_styles_spec us) as (Hnd & Helem & Hsorted).
  exists tm, dominant, (sorted_unique_styles us).
  split_and!; [done..| |done|].
  - intros t. by rewrite Helem, Hus.
  - intros i t Hi. rewrite (Hlook i t Hi). unfold tag_for. split_and!.
    + intros ->. by rewrite decide_False by apply heading_style_dominant.
    + intros Hh. by rewrite decide_True.
    + intros Hsmall. by rewrite decide_False by by apply heading_style_smaller.
Qed.

Lemma C3_witness :
  _extract_fonts sample_page true = Ok sample_catalog
  ∧ ∃ size_tag_map dominant sorted_styles,
      _create_size_tag_map sample_catalog.1 sample_catalog.2 = Ok size_tag_map
      ∧ (∃ first, head sample_catalog.1 = Some first
                  ∧ sample_catalog.2 !! first.1 = Some (style_of dominant))
      ∧ (∃ span, span ∈ text_spans sample_page ∧ triple_of span = dominant)
      ∧ (∀ t, occurrences t (text_spans sample_page)
              ≤ occurrences dominant (text_spans sample_page))
      ∧ NoDup sorted_styles
      ∧ (∀ t, t ∈ sorted_styles
              ↔ ∃ span, span ∈ text_spans sample_page ∧ triple_of span = t)
      ∧ StronglySorted style_before sorted_styles
      ∧ ∀ i t, sorted_styles !! i = Some t →
          (t = dominant → size_tag_map !! identifier3 t = Some "<p>")
          ∧ (heading_style dominant t →
             size_tag_map !! identifier3 t
             = Some ("<h" +:+ pretty (level_at dominant sorted_styles i) +:+ ">"))
          ∧ ((t.1.1 < dominant.1.1)%Z →
             size_tag_map !! identifier3 t = Some "<p>").
Proof.
  split; [vm_compute; reflexivity|].
  apply (C3_tag_assigner sample_page sample_catalog.1 sample_catalog.2).
  vm_compute; reflexivity.
Defined.
End tag_assigner_claim.

(* ===================================================================== *)
(** * process_document *)
(* ===================================================================== *)

Section document.
Import Py PDFParser TagSpec SegmenterSpec.

Lemma page_blocks_total size_tag_map blocks : ∀ page_blocks,
  well_tagged size_tag_map →
  ∃ out, for_each (page_block_step size_tag_map) blocks page_blocks = Ok out.
Proof.
  induction blocks as [|block blocks IH]; intros page_blocks Hwt; [by eexists|].
  cbn [for_each]. unfold page_block_step at 1.
  change (Py.bind ?r ?k) with (r ≫= k).
  case_decide; [|rewrite bind_Ok; by apply IH].
  destruct (process_block_total block size_tag_map Hwt) as [fragments ->].
  rewrite bind_Ok. destruct fragments; rewrite bind_Ok; by apply IH.
Qed.

Lemma process_page_empty html_pages_list p :
  text_spans p = [] →
  process_page html_pages_list p
  = Raise (ValueError ("No fonts found on page " +:+ pretty (number p))).
Proof.
  intros Hnil. unfold process_page. by rewrite extract_fonts_empty.
Qed.

Lemma process_page_Ok html_pages_list p :
  text_spans p ≠ [] →
  ∃ headers_paragraphs,
    process_page html_pages_list p
    = Ok (html_pages_list
          ++ [{| page := number p; content := headers_paragraphs |}]).
Proof.
  intros Hne. unfold process_page.
  destruct (page_tag_map p Hne)
    as (fc & styles & tm & _ & _ & -> & Htm & Hwt & _).
  rewrite bind_Ok, Htm, bind_Ok.
  destruct (page_blocks_total tm (blocks p) [] Hwt) as [out Hout].
  unfold _extract_page_content. rewrite Hout, bind_Ok. by eexists.
Qed.

Lemma process_pages_spec doc : ∀ html_pages_list,
  (∃ out, for_each process_page doc html_pages_list = Ok (html_pages_list ++ out)
          ∧ page <$> out = number <$> doc
          ∧ Forall (λ p, text_spans p ≠ []) doc)
  ∨ (∃ p, for_each process_page doc html_pages_list
          = Raise (ValueError ("No fonts found on page " +:+ pretty (number p)))
          ∧ p ∈ doc ∧ text_spans p = []).
Proof.
  induction doc as [|p doc IH]; intros acc.
  { left. exists []. by rewrite app_nil_r. }
  cbn [for_each]. change (Py.bind ?r ?k) with (r ≫= k).
  destruct (decide (text_spans p = [])) as [Hnil|Hne].
  { right. exists p. rewrite process_page_empty by done. split_and!; [done|by left|done]. }
  destruct (process_page_Ok acc p Hne) as [c ->]. rewrite bind_Ok.
  destruct (IH (acc ++ [{| page := number p; content := c |}]))
    as [(out & -> & Hpages & Hall)|(q & -> & Hq & Hnil)].
  - left. exists ({| page := number p; content := c |} :: out).
    rewrite <-(assoc_L (++)). split_and!; [done| |by constructor].
    cbn [fmap list_fmap page]. by f_equal.
  - right. exists q. split_and!; [done|by right|done].
Qed.

(** C8. [process_document] raises exactly when some page has no span in a
    text block; it then raises the [ValueError] of such a page and returns
    nothing, and otherwise it returns one entry per page of the document, in
    order, each carrying the number of its page. *)
Theorem C8_process_document_all_or_nothing (doc : list Page) :
  ((∃ e, process_document doc = Raise e)
   ↔ ∃ p, p ∈ doc ∧ text_spans p = [])
  ∧ (∀ e, process_document doc = Raise e →
       ∃ p, p ∈ doc ∧ text_spans p = []
            ∧ e = ValueError ("No fonts found on page " +:+ pretty (number p)))
  ∧ ((∃ out, process_document doc = Ok out ∧ page <$> out = number <$> doc)
     ∨ (∃ e, process_document doc = Raise e)).
Proof.
  unfold process_document.
  destruct (process_pages_spec doc [])
    as [(out & Hrun & Hpages & Hall)|(p & Hrun & Hp & Hnil)];
    rewrite Hrun; split_and!.
  - split; [by intros [e ?]|].
    intros (p & Hp & Hnil). rewrite Forall_forall in Hall. by destruct (Hall p Hp).
  - done.
  - left. eauto.
  - split; eauto.
  - intros e [= <-]. eauto.
  - right. eauto.
Qed.
End document.

(* ===================================================================== *)
(** * The page structurer *)
(* ===================================================================== *)

Section page_structurer.
Import Py PDFParser Re HTMLToJsonConverter FormatSpec StructurerSpec.

(** The rendering of a number from 10 on starts with two digits. *)
Lemma pretty_N_go_prefix x : ∀ s,
  ∃ prefix, pretty_N_go x s = prefix +:+ s ∧ all_chars isdigit prefix = true.
Proof.
  induction (N.lt_wf_0 x) as [x _ IH]; intros s.
  destruct (decide (x = 0)%N) as [->|Hx].
  { exists "". by rewrite pretty_N_go_0. }
  rewrite pretty_N_go_step by lia.
  destruct (IH (x `div` 10)%N (N.div_lt x 10 ltac:(lia) eq_refl)
               (String (pretty_N_char (x `mod` 10)) s)) as (prefix & -> & Hd).
  exists (prefix +:+ String (pretty_N_char (x `mod` 10)) "").
  rewrite string_app_assoc. split; [done|].
  rewrite all_chars_app, Hd. cbn [all_chars]. by rewrite pretty_N_char_digit.
Qed.

Lemma pretty_two_digits (level : nat) :
  10 ≤ level →
  ∃ d1 d2 more, pretty level = String d1 (String d2 more)
                ∧ isdigit d1 = true ∧ isdigit d2 = true.
Proof.
  intros Hlevel. unfold pretty, pretty_nat, pretty, pretty_N.
  rewrite decide_False by lia.
  rewrite 2!pretty_N_go_step by (try apply N.div_str_pos_iff; lia).
  set (c1 := pretty_N_char _). set (c2 := pretty_N_char _).
  assert (isdigit c1 = true ∧ isdigit c2 = true) as [Hc1 Hc2]
    by (split; apply pretty_N_char_digit).
  match goal with
  | |- context [pretty_N_go ?y ?s] =>
      destruct (pretty_N_go_prefix y s) as (prefix & -> & Hd)
  end.
  destruct prefix as [|p1 [|p2 prefix]]; cbn [all_chars] in Hd.
  - by eexists _, _, _.
  - apply andb_true_iff in Hd as [Hp1 _]. by eexists _, _, _.
  - apply andb_true_iff in Hd as [Hp1 [Hp2 _]%andb_true_iff].
    by eexists p1, p2, _.
Qed.

(** A fragment tagged [<p>] or [<hN>] with N from 1 to 9 is recognised. *)
Lemma paragraph_recognised rest :
  re_match paragraph_open ("<p>" +:+ rest) = true.
Proof. done. Qed.

Lemma single_digit_heading_recognised (level : nat) rest :
  1 ≤ level ≤ 9 →
  re_match heading_open ("<h" +:+ pretty level +:+ ">" +:+ rest) = true.
Proof.
  intros Hlevel.
  do 10 (destruct level as [|level]; [try lia; reflexivity|]). lia.
Qed.

(** From level 10 on, the fragment matches neither pattern. *)
Lemma deep_heading_unrecognised (level : nat) rest :
  10 ≤ level →
  re_match heading_open ("<h" +:+ pretty level +:+ rest) = false
  ∧ re_match paragraph_open ("<h" +:+ pretty level +:+ rest) = false.
Proof.
  intros (d1 & d2 & more & -> & Hd1 & Hd2)%pretty_two_digits.
  change ("<h" +:+ String d1 (String d2 more) +:+ rest)
    with (String "<" (String "h" (String d1 (String d2 (more +:+ rest))))).
  split; [|done].
  unfold re_match, heading_open. apply bool_decide_eq_false.
  cbn [match_here eat]. rewrite bool_decide_eq_true_2 by done.
  cbn [mbind option_bind eat]. rewrite bool_decide_eq_true_2 by done.
  cbn [mbind option_bind eat]. rewrite Hd1.
  cbn [mbind option_bind eat].
  rewrite (bool_decide_eq_false_2 (d2 = ">"%char)) by (by intros ->).
  cbn. by intros [??].
Qed.

Lemma deep_heading_dropped (level : nat) pg rest :
  10 ≤ level →
  _process_page_content
    {| PDFParser.page := pg; content := [["<h" +:+ pretty level +:+ rest]] |}
  = [].
Proof.
  intros Hlevel. destruct (deep_heading_unrecognised level rest Hlevel) as [Hh Hp].
  unfold _process_page_content, _flatten_list.
  cbn [PDFParser.content PDFParser.page mbind list_bind mret list_ret app foldl].
  unfold item_step. by rewrite Hh, Hp.
Qed.

(** C2. The tag assigner numbers headings without bound, but the page
    structurer only recognises [<h\d>]: on a page with ten heading styles
    the segmenter emits the fragment ["<h10>Ten</h10>"], which matches
    neither the heading nor the paragraph pattern, so its text reaches no
    section, neither as a title nor as text; the same happens to every
    fragment tagged with a level from 10 on. *)
Theorem C2_tenth_heading_is_dropped :
  process_document [ten_headings] = Ok [ten_headings_html]
  ∧ _process_page_content ten_headings_html
    = [ heading_only "One"; heading_only "Two"; heading_only "Three";
        heading_only "Four"; heading_only "Five"; heading_only "Six";
        heading_only "Seven"; heading_only "Eight";
        {| title := "Nine"; text := "body more "; page := 0 |} ]
  ∧ _process_page_content
      {| PDFParser.page := 0; content := [["<h10>Ten</h10>"]] |}
    = []
  ∧ ∀ (level : nat) pg rest,
      10 ≤ level →
      _process_page_content
        {| PDFParser.page := pg;
           content := [["<h" +:+ pretty level +:+ rest]] |}
      = [].
Proof.
  split_and!; [vm_compute; reflexivity..|].
  intros level pg rest. apply deep_heading_dropped.
Qed.
End page_structurer.

(* ===================================================================== *)
(** * The metadata stamper *)
(* ===================================================================== *)

Section metadata_stamper.
Import Py HTMLToJsonConverter MetadataEnhancedJsonConverter StamperSpec.

Lemma basename_no_slash p : contains "/" p = false → basename p = p.
Proof.
  destruct p as [|c p]; [done|]. cbn [contains basename].
  intros [Hc Hp]%orb_false_iff. rewrite Hp.
  apply bool_decide_eq_false in Hc. by rewrite decide_False.
Qed.

Lemma basename_after_slash dir name :
  contains "/" name = false → basename (dir +:+ String "/" name) = name.
Proof.
  intros Hname. induction dir as [|c dir IH].
  - change ("" +:+ String "/" name) with (String "/" name). cbn [basename].
    rewrite Hname. by rewrite decide_True.
  - rewrite string_app_cons. cbn [basename].
    rewrite contains_app. cbn [contains].
    rewrite bool_decide_eq_true_2 by done. by rewrite orb_true_r.
Qed.

Lemma init_json_data data file_path url :
  json_data (init data file_path url) = data.
Proof. done. Qed.

Lemma enhance_entry_init sections file_path url entry :
  enhance_entry (init (to_object <$> sections) file_path url) entry
  = <["link" := JStr (url +:+ basename file_path)]>
      (<["document" := JStr (first_title sections)]>
         (<["product" := JStr (first_title sections)]>
            (<["file" := JStr (basename file_path)]> entry))).
Proof. by destruct sections. Qed.

Lemma enhance_entry_frame self entry k :
  k ∉ stamped_fields → enhance_entry self entry !! k = entry !! k.
Proof.
  unfold stamped_fields, enhance_entry. intros Hk.
  rewrite !lookup_insert_ne; [done|set_solver..].
Qed.

(** C10. The stamper returns one object per section, in order; the object
    of a section has [file] set to the basename of the file path, [product]
    and [document] to the title of the first section (the empty string for
    an empty list) and [link] to the base URL followed by the file name, and
    agrees with the section's own object on every other key, so that title,
    text and page are unchanged. *)
Theorem C10_metadata_stamper (sections : list Entry) (file_path url : string) :
  let out := get_enhanced_json (init (to_object <$> sections) file_path url) in
  length out = length sections
  ∧ ∀ i e, sections !! i = Some e →
      ∃ entry, out !! i = Some entry
        ∧ entry !! "file" = Some (JStr (basename file_path))
        ∧ entry !! "product" = Some (JStr (first_title sections))
        ∧ entry !! "document" = Some (JStr (first_title sections))
        ∧ entry !! "link" = Some (JStr (url +:+ basename file_path))
        ∧ entry !! "title" = Some (JStr (title e))
        ∧ entry !! "text" = Some (JStr (text e))
        ∧ entry !! "page" = Some (JInt (page e))
        ∧ ∀ k, k ∉ stamped_fields → entry !! k = to_object e !! k.
Proof.
  intros out. subst out. unfold get_enhanced_json, enhance_json.
  cbn [json_data]. rewrite init_json_data.
  split; [by rewrite !length_fmap|].
  intros i e Hi. eexists. split.
  { rewrite !list_lookup_fmap, Hi. reflexivity. }
  split_and!; [by rewrite enhance_entry_init..|].
  apply enhance_entry_frame.
Qed.
End metadata_stamper.
(* ===================================================================== *)
(** * More on the repair stages *)
(* ===================================================================== *)

Section repair_stages.
Import Py HTMLToJsonConverter RepairSpec SectionSpec.

(** ** Exact-duplicate removal *)

Lemma dedup_fold_prefix l : ∀ unique_data seen,
  (foldl dedup_step (unique_data, seen) l).1
  = unique_data ++ (foldl dedup_step ([], seen) l).1.
Proof.
  induction l as [|y l IH]; intros u seen; cbn [foldl].
  { by rewrite app_nil_r. }
  unfold dedup_step at 2 4. case_decide.
  - rewrite (IH (u ++ [y])), (IH ([] ++ [y])). by rewrite <-(assoc_L (++)).
  - apply IH.
Qed.

Lemma dedup_fold_filter x l : ∀ unique_data seen,
  (foldl dedup_step (unique_data, {[ tuple_item x ]} ∪ seen) l).1
  = (foldl dedup_step (unique_data, seen) (filter (λ y, y ≠ x) l)).1.
Proof.
  induction l as [|y l IH]; intros u seen; [done|].
  rewrite filter_cons. destruct (decide (y ≠ x)) as [Hne|Heq].
  - cbn [foldl]. unfold dedup_step at 2 4.
    assert (tuple_item y ≠ tuple_item x) as Hty
      by (intros ?%tuple_item_inj; done).
    destruct (decide (tuple_item y ∉ seen)) as [Hnew|Hold].
    + rewrite decide_True by (rewrite not_elem_of_union, not_elem_of_singleton; done).
      replace ({[tuple_item y]} ∪ ({[tuple_item x]} ∪ seen))
        with ({[tuple_item x]} ∪ ({[tuple_item y]} ∪ seen)); [apply IH|].
      rewrite !(assoc_L (∪)). f_equal. apply (comm_L (∪)).
    + rewrite decide_False; [apply IH|].
      intros Hnot. apply Hold. intros ?. apply Hnot.
      apply elem_of_union. by right.
  - apply dec_stable in Heq as ->. cbn [foldl]. unfold dedup_step at 2.
    rewrite decide_False; [apply IH|].
    intros Hnot. apply Hnot, elem_of_union. left. by apply elem_of_singleton.
Qed.

Lemma remove_duplicates_cons x l :
  _remove_duplicates (x :: l)
  = x :: _remove_duplicates (filter (λ y, y ≠ x) l).
Proof.
  unfold _remove_duplicates. cbn [foldl]. unfold dedup_step at 2.
  rewrite decide_True by apply not_elem_of_empty.
  rewrite dedup_fold_prefix, dedup_fold_filter. done.
Qed.

Lemma remove_duplicates_sublist l : _remove_duplicates l `sublist_of` l.
Proof.
  induction l as [|x l IH] using rev_ind; [done|].
  unfold _remove_duplicates in *. rewrite foldl_app. cbn [foldl].
  destruct (foldl dedup_step ([], ∅) l) as [u seen]. cbn [fst] in *.
  unfold dedup_step. case_decide; cbn [fst].
  - by apply sublist_app.
  - by apply sublist_inserts_r.
Qed.

(** X1. Exact-duplicate removal keeps the first occurrence of every section
    and drops its later copies, nothing else: the head of the list is kept
    and the rest is processed with its copies removed; the result has no
    two equal sections, the same sections as the input, in the input's
    order, and a duplicate-free list is returned unchanged. *)
Theorem X1_remove_duplicates_keeps_first_occurrences (l : list Entry) :
  _remove_duplicates [] = []
  ∧ (∀ x, _remove_duplicates (x :: l)
          = x :: _remove_duplicates (filter (λ y, y ≠ x) l))
  ∧ NoDup (_remove_duplicates l)
  ∧ (∀ e, e ∈ _remove_duplicates l ↔ e ∈ l)
  ∧ _remove_duplicates l `sublist_of` l
  ∧ (NoDup l → _remove_duplicates l = l).
Proof.
  split_and!; [done|..].
  - intros x. apply remove_duplicates_cons.
  - apply remove_duplicates_NoDup.
  - apply remove_duplicates_elem.
  - apply remove_duplicates_sublist.
  - apply remove_duplicates_id.
Qed.

(** ** Empty-pair merge *)

Lemma texts_in_order_cons e l :
  texts_in_order (e :: l)
  = filter (λ s, s ≠ "") [title e; text e] ++ texts_in_order l.
Proof. unfold texts_in_order. cbn [mbind list_bind]. by rewrite filter_app. Qed.

Lemma list_pair_ind {A} (P : list A → Prop) :
  P [] → (∀ a, P [a]) →
  (∀ a b l, P l → P (b :: l) → P (a :: b :: l)) →
  ∀ l, P l.
Proof.
  intros Hnil Hone Hstep l.
  cut (P l ∧ ∀ a, P (a :: l)); [tauto|].
  induction l as [|b l [IHl IHbl]]; split; auto.
Qed.

Lemma empty_pair_merge_texts l :
  texts_in_order (empty_pair_merge l) = texts_in_order l.
Proof.
  induction l as [| |a b l IHl IHbl] using list_pair_ind; [done..|].
  rewrite empty_pair_merge_cons.
  destruct (bool_decide (text a = "")) eqn:Ha;
    [destruct (bool_decide (text b = "")) eqn:Hb|]; cbn [andb].
  - apply bool_decide_eq_true in Ha, Hb.
    rewrite !texts_in_order_cons, IHl.
    unfold merged_entry. cbn [title text]. rewrite Ha, Hb.
    rewrite !filter_cons, filter_nil.
    rewrite (decide_False (P := "" ≠ "")) by (by intros ?).
    destruct (decide (title a ≠ "")), (decide (title b ≠ "")); done.
  - by rewrite !(texts_in_order_cons a), IHbl.
  - by rewrite !(texts_in_order_cons a), IHbl.
Qed.

Lemma empty_pair_merge_length l :
  length (empty_pair_merge l) ≤ length l
  ∧ length l ≤ 2 * length (empty_pair_merge l).
Proof.
  induction l as [| |a b l IHl IHbl] using list_pair_ind; [cbn; lia..|].
  rewrite empty_pair_merge_cons.
  destruct (bool_decide (text a = "") && bool_decide (text b = ""));
    cbn [length] in *; lia.
Qed.

(** X2. Empty-pair merge loses no text: the non-empty titles and texts of
    the sections, read in order, are the same before and after (the title
    of the second section of a merged pair has become the text of the first);
    the list never grows, and never shrinks below half its length. *)
Theorem X2_empty_pair_merge_keeps_texts (structured_data : list Entry) :
  ∃ data_merged,
    _merge_empty_structured_data structured_data = Ok data_merged
    ∧ texts_in_order data_merged = texts_in_order structured_data
    ∧ length data_merged ≤ length structured_data
    ∧ length structured_data ≤ 2 * length data_merged.
Proof.
  exists (empty_pair_merge structured_data).
  split_and!; [apply merge_empty_spec|apply empty_pair_merge_texts|
               apply empty_pair_merge_length..].
Qed.


(** ** Dangling-title concatenation *)

Lemma string_concat_cons sep x y l :
  String.concat sep (x :: y :: l) = x +:+ sep +:+ String.concat sep (y :: l).
Proof. done. Qed.

Lemma concat_from_nonempty rest : ∀ cur, concat_from cur rest ≠ [].
Proof.
  induction rest as [|nxt rest IH]; intros cur; cbn [concat_from]; [done|].
  case_decide; [apply IH|done].
Qed.

Lemma concat_from_titles rest : ∀ cur,
  String.concat " " (title <$> concat_from cur rest)
  = String.concat " " (title <$> cur :: rest).
Proof.
  induction rest as [|nxt rest IH]; intros cur; cbn [concat_from]; [done|].
  case_decide.
  - rewrite IH. cbn [fmap list_fmap]. rewrite string_concat_cons.
    unfold prepend_title, set_title. cbn [title].
    destruct (title <$> rest) as [|t ts]; [done|].
    by rewrite !string_concat_cons, !string_app_assoc.
  - cbn [fmap list_fmap]. specialize (IH nxt).
    pose proof (concat_from_nonempty rest nxt) as Hne.
    destruct (concat_from nxt rest) as [|e out]; [done|].
    cbn [fmap list_fmap] in *. by rewrite !string_concat_cons, IH.
Qed.

Lemma concat_from_texts rest : ∀ cur,
  filter (λ s, s ≠ "") (text <$> concat_from cur rest)
  = filter (λ s, s ≠ "") (text <$> cur :: rest).
Proof.
  induction rest as [|nxt rest IH]; intros cur; cbn [concat_from]; [done|].
  case_decide as Hcur.
  - rewrite IH. cbn [fmap list_fmap]. rewrite (filter_cons _ (text cur)), Hcur.
    by rewrite (decide_False (P := "" ≠ "")) by (by intros ?).
  - cbn [fmap list_fmap]. by rewrite !(filter_cons _ (text cur)), IH.
Qed.

Lemma concat_from_pages rest : ∀ cur,
  page <$> concat_from cur rest `sublist_of` page <$> cur :: rest.
Proof.
  induction rest as [|nxt rest IH]; intros cur; cbn [concat_from]; [done|].
  case_decide.
  - cbn [fmap list_fmap]. apply sublist_cons. apply (IH (prepend_title cur nxt)).
  - cbn [fmap list_fmap]. apply sublist_skip. apply (IH nxt).
Qed.

Lemma concat_from_last rest : ∀ cur,
  ∃ e e', last (concat_from cur rest) = Some e
          ∧ last (cur :: rest) = Some e'
          ∧ text e = text e' ∧ page e = page e'.
Proof.
  induction rest as [|nxt rest IH]; intros cur; cbn [concat_from].
  { by exists cur, cur. }
  case_decide.
  - destruct (IH (prepend_title cur nxt)) as (e & e' & He & He' & Ht & Hp).
    rewrite He. rewrite last_cons_cons.
    destruct rest as [|r rest].
    + injection He' as <-. by exists e, nxt.
    + rewrite last_cons_cons in He'. rewrite last_cons_cons, He'. by exists e, e'.
  - destruct (IH nxt) as (e & e' & He & He' & Ht & Hp).
    pose proof (concat_from_nonempty rest nxt) as Hne.
    destruct (concat_from nxt rest) as [|o out] eqn:Hout; [done|].
    rewrite !last_cons_cons, He, He'. by exists e, e'.
Qed.

(** X3. Dangling-title concatenation loses no title and no text: the
    titles joined by single spaces, and the non-empty texts in order, are
    the same before and after; the pages of the remaining sections are, in
    order, among those of the input; the last section keeps its text and its
    page; and only the empty list gives the empty list. *)
Theorem X3_process_titles_keeps_titles_and_texts (data : list Entry) :
  ∃ out,
    _process_titles data = Some (Ok out)
    ∧ String.concat " " (title <$> out) = String.concat " " (title <$> data)
    ∧ filter (λ s, s ≠ "") (text <$> out)
      = filter (λ s, s ≠ "") (text <$> data)
    ∧ page <$> out `sublist_of` page <$> data
    ∧ text <$> last out = text <$> last data
    ∧ page <$> last out = page <$> last data
    ∧ (out = [] ↔ data = []).
Proof.
  exists (concat_dangling data). split; [apply process_titles_spec|].
  destruct data as [|cur rest]; [done|]. cbn [concat_dangling].
  destruct (concat_from_last rest cur) as (e & e' & -> & -> & Ht & Hp).
  split_and!.
  - apply concat_from_titles.
  - apply concat_from_texts.
  - apply concat_from_pages.
  - cbn. by rewrite Ht.
  - cbn. by rewrite Hp.
  - split; [by intros ?%concat_from_nonempty|done].
Qed.
End repair_stages.

(* ===================================================================== *)
(** * More on the page structurer *)
(* ===================================================================== *)

Section structurer_behaviour.
Import Py PDFParser Re HTMLToJsonConverter FormatSpec SectionSpec FragmentSpec.

Lemma truthy_true s : truthy s = true ↔ s ≠ "".
Proof. destruct s; cbn; split; congruence. Qed.

Lemma is_informative_spec e : is_informative e = true ↔ informative e.
Proof.
  unfold is_informative, informative. by rewrite orb_true_iff, !truthy_true.
Qed.

Lemma process_page_content_fold page_data :
  _process_page_content page_data
  = push_last (foldl (item_step (PDFParser.page page_data))
                 ([], {| title := ""; text := ""; page := PDFParser.page page_data |},
                  false)
                 (_flatten_list (content page_data))).
Proof.
  unfold _process_page_content, push_last, is_informative.
  by destruct (foldl _ _ _) as [[sd cur] ts].
Qed.

(** ** What every page gives *)

Lemma item_step_inv pg acc item :
  Forall (λ e, page e = pg ∧ informative e) acc.1.1 → page acc.1.2 = pg →
  Forall (λ e, page e = pg ∧ informative e) (item_step pg acc item).1.1
  ∧ page (item_step pg acc item).1.2 = pg.
Proof.
  destruct acc as [[sd cur] ts]. cbn [fst snd]. intros Hsd Hcur.
  unfold item_step. destruct (re_match heading_open item).
  - fold (is_informative cur). destruct (is_informative cur) eqn:Hinf; cbn [fst snd].
    + split; [|done]. apply Forall_app. split; [done|].
      apply Forall_singleton. split; [done|]. by apply is_informative_spec.
    + done.
  - destruct (re_match paragraph_open item); [|done].
    destruct (negb ts); cbn [fst snd]; done.
Qed.

Lemma items_fold_inv pg items : ∀ acc,
  Forall (λ e, page e = pg ∧ informative e) acc.1.1 → page acc.1.2 = pg →
  Forall (λ e, page e = pg ∧ informative e) (foldl (item_step pg) acc items).1.1
  ∧ page (foldl (item_step pg) acc items).1.2 = pg.
Proof.
  induction items as [|item items IH]; intros acc Hsd Hcur; [done|].
  cbn [foldl]. destruct (item_step_inv pg acc item Hsd Hcur). by apply IH.
Qed.

Lemma items_fold_length pg items : ∀ acc,
  length (foldl (item_step pg) acc items).1.1
  ≤ length acc.1.1 + length (filter (λ item, re_match heading_open item = true) items).
Proof.
  induction items as [|item items IH]; intros acc; cbn [foldl]; [cbn; lia|].
  etrans; [apply IH|]. rewrite filter_cons.
  destruct acc as [[sd cur] ts]. unfold item_step.
  destruct (re_match heading_open item).
  - rewrite decide_True by done.
    destruct (truthy (title cur) || truthy (text cur)); cbn [fst snd length];
      rewrite ?length_app; cbn [length]; lia.
  - rewrite decide_False by done.
    destruct (re_match paragraph_open item); [destruct (negb ts)|];
      cbn [fst snd]; lia.
Qed.

Lemma page_sections_inv (page_data : PageData) :
  Forall (λ e, page e = PDFParser.page page_data ∧ informative e)
         (_process_page_content page_data)
  ∧ length (_process_page_content page_data)
    ≤ 1 + length (filter (λ item, re_match heading_open item = true)
                    (_flatten_list (content page_data))).
Proof.
  rewrite process_page_content_fold.
  set (pg := PDFParser.page page_data).
  set (start := ([], {| title := ""; text := ""; page := pg |}, false)).
  destruct (items_fold_inv pg (_flatten_list (content page_data)) start)
    as [Hsd Hcur]; [by apply Forall_nil|done|].
  pose proof (items_fold_length pg (_flatten_list (content page_data)) start)
    as Hlen. unfold start at 2 in Hlen. cbn [fst snd length] in Hlen.
  unfold push_last.
  destruct (is_informative _) eqn:Hinf.
  - split.
    + apply Forall_app. split; [done|]. apply Forall_singleton.
      split; [done|]. by apply is_informative_spec.
    + rewrite length_app. cbn [length]. lia.
  - split; [done|lia].
Qed.

(** X4. Every section the page structurer returns carries the page number
    of its page and has a non-empty title or a non-empty text; there is at
    most one section more than there are fragments starting with a
    one-digit heading tag. *)
Theorem X4_page_sections_informative (page_data : PageData) :
  Forall (λ e, page e = PDFParser.page page_data ∧ informative e)
         (_process_page_content page_data)
  ∧ length (_process_page_content page_data)
    ≤ 1 + length (filter (λ item, re_match heading_open item = true)
                    (_flatten_list (content page_data))).
Proof. apply page_sections_inv. Qed.


(** ** Deleting the tags of a fragment *)

Lemma tag_free_cons c s : tag_free (String c s) ↔ c ≠ "<"%char ∧ tag_free s.
Proof.
  unfold tag_free. cbn [contains]. rewrite orb_false_iff, bool_decide_eq_false.
  done.
Qed.

Lemma sub_go_tag_free pat body s :
  tag_free body →
  sub_go (Lit "<" :: pat) 0 (body +:+ s)
  = body +:+ sub_go (Lit "<" :: pat) 0 s.
Proof.
  induction body as [|c body IH]; [done|].
  intros [Hc Hbody]%tag_free_cons. rewrite !string_app_cons.
  cbn [sub_go match_here eat]. rewrite bool_decide_eq_false_2 by done.
  cbn [mbind option_bind]. by rewrite IH.
Qed.

Lemma sub_go_match pat c s k :
  match_here pat (String c s) = Some (S k) →
  sub_go pat 0 (String c s) = sub_go pat k s.
Proof. intros H. cbn [sub_go]. by rewrite H. Qed.

Lemma sub_go_skip pat k c s : sub_go pat (S k) (String c s) = sub_go pat k s.
Proof. done. Qed.

Lemma re_sub_paragraph body :
  tag_free body → re_sub paragraph_tag (paragraph body) = body.
Proof.
  intros Hbody. unfold re_sub, paragraph.
  change ("<p>" +:+ body +:+ "</p>")
    with (String "<" (String "p" (String ">" (body +:+ "</p>")))).
  rewrite (sub_go_match _ _ _ 2) by reflexivity. rewrite !sub_go_skip.
  change paragraph_tag with (Lit "<" :: [Opt "/"; Lit "p"; Lit ">"]).
  rewrite sub_go_tag_free by done.
  change (sub_go _ 0 "</p>") with "". apply string_app_nil_r.
Qed.

(** A heading tag of level 1 to 9 is [<h], one digit and [>]. *)
Lemma pretty_single_digit (level : nat) :
  1 ≤ level ≤ 9 → ∃ d, pretty level = String d "" ∧ isdigit d = true.
Proof.
  intros Hlevel.
  do 10 (destruct level as [|level]; [try lia; by eexists|]). lia.
Qed.

Lemma match_heading_tag_open d r :
  isdigit d = true →
  match_here heading_tag (String "<" (String "h" (String d (String ">" r))))
  = Some 4.
Proof.
  intros Hd. unfold heading_tag. cbn [match_here eat].
  rewrite bool_decide_eq_true_2 by done. cbn [mbind option_bind eat].
  rewrite bool_decide_eq_false_2 by done. cbn [mbind option_bind eat].
  rewrite bool_decide_eq_true_2 by done. cbn [mbind option_bind eat].
  rewrite Hd. cbn [mbind option_bind eat].
  rewrite bool_decide_eq_true_2 by done. done.
Qed.

Lemma match_heading_tag_close d r :
  isdigit d = true →
  match_here heading_tag
    (String "<" (String "/" (String "h" (String d (String ">" r)))))
  = Some 5.
Proof.
  intros Hd. unfold heading_tag. cbn [match_here eat].
  rewrite bool_decide_eq_true_2 by done. cbn [mbind option_bind eat].
  rewrite bool_decide_eq_true_2 by done. cbn [mbind option_bind eat].
  rewrite bool_decide_eq_true_2 by done. cbn [mbind option_bind eat].
  rewrite Hd. cbn [mbind option_bind eat].
  rewrite bool_decide_eq_true_2 by done. done.
Qed.

Lemma re_sub_heading (level : nat) body :
  1 ≤ level ≤ 9 → tag_free body →
  re_sub heading_tag (heading level body) = body.
Proof.
  intros (d & Hpretty & Hd)%pretty_single_digit Hbody.
  unfold re_sub, heading. rewrite Hpretty.
  change ("<h" +:+ String d "" +:+ ">" +:+ body +:+ "</h" +:+ String d "" +:+ ">")
    with (String "<" (String "h" (String d (String ">"
            (body +:+ String "<" (String "/" (String "h" (String d (String ">" ""))))))))).
  rewrite (sub_go_match _ _ _ 3) by by apply match_heading_tag_open.
  rewrite !sub_go_skip.
  change heading_tag with (Lit "<" :: [Opt "/"; Lit "h"; Digit; Lit ">"]).
  rewrite sub_go_tag_free by done.
  change (Lit "<" :: [Opt "/"; Lit "h"; Digit; Lit ">"]) with heading_tag.
  rewrite (sub_go_match _ _ _ 4) by by apply match_heading_tag_close.
  rewrite !sub_go_skip. apply string_app_nil_r.
Qed.

Lemma heading_recognised (level : nat) body :
  1 ≤ level ≤ 9 → re_match heading_open (heading level body) = true.
Proof. intros Hlevel. by apply single_digit_heading_recognised. Qed.

Lemma paragraph_not_heading body :
  re_match heading_open (paragraph body) = false
  ∧ re_match paragraph_open (paragraph body) = true.
Proof. done. Qed.

(** ** One fragment at a time *)

Lemma item_step_paragraph pg sd cur title_set body :
  tag_free body →
  item_step pg (sd, cur, title_set) (paragraph body)
  = if title_set
    then (sd, set_text cur (text cur +:+ body +:+ " "), true)
    else (sd, set_title cur body, true).
Proof.
  intros Hbody. unfold item_step.
  destruct (paragraph_not_heading body) as [-> ->].
  rewrite re_sub_paragraph by done. by destruct title_set.
Qed.

Lemma item_step_heading pg sd cur title_set (level : nat) body :
  1 ≤ level ≤ 9 → tag_free body →
  item_step pg (sd, cur, title_set) (heading level body)
  = if is_informative cur
    then (sd ++ [cur], {| title := body; text := ""; page := pg |}, true)
    else (sd, set_title cur body, true).
Proof.
  intros Hlevel Hbody. unfold item_step.
  rewrite heading_recognised, re_sub_heading by done.
  fold (is_informative cur). by destruct (is_informative cur).
Qed.


(** ** A page of well-formed fragments *)

Lemma set_text_id cur : set_text cur (text cur +:+ "") = cur.
Proof. destruct cur. unfold set_text. cbn. by rewrite string_app_nil_r. Qed.

Lemma paragraphs_fold pg bodies : ∀ sd cur,
  Forall tag_free bodies →
  foldl (item_step pg) (sd, cur, true) (paragraph <$> bodies)
  = (sd, set_text cur (text cur +:+ join_paragraphs bodies), true).
Proof.
  induction bodies as [|body bodies IH]; intros sd cur Hfree.
  { cbn [fmap list_fmap foldl join_paragraphs]. by rewrite set_text_id. }
  apply Forall_cons in Hfree as [Hbody Hfree].
  cbn [fmap list_fmap foldl join_paragraphs].
  rewrite item_step_paragraph, IH by done.
  unfold set_text. cbn [title text page]. by rewrite !string_app_assoc.
Qed.

Lemma not_informative_empty cur :
  is_informative cur = false → title cur = "" ∧ text cur = "".
Proof.
  unfold is_informative. intros [Ht Hx]%orb_false_iff.
  by destruct (title cur), (text cur).
Qed.

Lemma group_fold pg g sd cur title_set :
  well_formed_group g → page cur = pg →
  foldl (item_step pg) (sd, cur, title_set) (group_fragments g)
  = (if is_informative cur then sd ++ [cur] else sd, group_section pg g, true).
Proof.
  intros (Hlevel & Hne & Htitle & Hbodies) Hpage.
  unfold group_fragments, group_section. cbn [foldl].
  rewrite item_step_heading by done.
  destruct (is_informative cur) eqn:Hinf; rewrite paragraphs_fold by done.
  - done.
  - destruct (not_informative_empty cur Hinf) as [_ Htext].
    unfold set_text, set_title. cbn [title text page]. by rewrite Htext, Hpage.
Qed.

Lemma groups_fold pg groups : ∀ sd cur title_set,
  Forall well_formed_group groups → page cur = pg →
  push_last (foldl (item_step pg) (sd, cur, title_set)
               (g ← groups; group_fragments g))
  = sd ++ (if is_informative cur then [cur] else [])
       ++ (group_section pg <$> groups).
Proof.
  induction groups as [|g groups IH]; intros sd cur ts Hwf Hpage.
  { cbn [mbind list_bind foldl fmap list_fmap]. unfold push_last. cbn [fst snd].
    rewrite app_nil_r. destruct (is_informative cur); [done|by rewrite app_nil_r]. }
  apply Forall_cons in Hwf as [Hg Hwf].
  cbn [mbind list_bind]. rewrite foldl_app, group_fold by done.
  rewrite IH; [|done|done].
  assert (is_informative (group_section pg g) = true) as ->.
  { destruct Hg as (_ & Hne & _). apply is_informative_spec. by left. }
  cbn [fmap list_fmap].
  destruct (is_informative cur); by rewrite <-?(assoc_L (++)).
Qed.

Lemma lead_fold pg lead :
  Forall tag_free lead →
  foldl (item_step pg) ([], {| title := ""; text := ""; page := pg |}, false)
        (paragraph <$> lead)
  = match lead with
    | [] => ([], {| title := ""; text := ""; page := pg |}, false)
    | body :: bodies =>
        ([], {| title := body; text := join_paragraphs bodies; page := pg |}, true)
    end.
Proof.
  destruct lead as [|body bodies]; [done|].
  intros [Hbody Hfree]%Forall_cons. cbn [fmap list_fmap foldl].
  rewrite item_step_paragraph, paragraphs_fold by done. done.
Qed.

(** The sections of a page of paragraphs and headed groups. *)
Lemma structurer_on_groups (page_data : PageData)
    (lead : list string) (groups : list (nat * string * list string)) :
  well_formed_lead lead →
  Forall well_formed_group groups →
  _flatten_list (content page_data)
  = (paragraph <$> lead) ++ (g ← groups; group_fragments g) →
  _process_page_content page_data
  = lead_section (PDFParser.page page_data) lead
    ++ (group_section (PDFParser.page page_data) <$> groups).
Proof.
  intros [Hfree Hhead] Hgroups Hcontent.
  rewrite process_page_content_fold, Hcontent, foldl_app, lead_fold by done.
  destruct lead as [|body bodies].
  - by rewrite groups_fold.
  - rewrite groups_fold by done. cbn [lead_section app].
    assert (body ≠ "") as Hbody by (intros ->; by apply Hhead).
    rewrite (proj2 (is_informative_spec
                      {| title := body; text := join_paragraphs bodies;
                         page := PDFParser.page page_data |}));
      [done|by left].
Qed.

(** X5. On a page whose fragments are paragraphs followed by headings of
    level 1 to 9, each with its paragraphs, all texts free of [<] and the
    titles non-empty, the page structurer returns one section for the
    leading paragraphs, titled by the first of them, and one section per
    heading, titled by the heading; the text of a section is its remaining
    paragraphs, each followed by one space. *)
Theorem X5_page_structurer_sections (page_data : PageData)
    (lead : list string) (groups : list (nat * string * list string)) :
  well_formed_lead lead →
  Forall well_formed_group groups →
  _flatten_list (content page_data)
  = (paragraph <$> lead) ++ (g ← groups; group_fragments g) →
  _process_page_content page_data
  = lead_section (PDFParser.page page_data) lead
    ++ (group_section (PDFParser.page page_data) <$> groups).
Proof. apply structurer_on_groups. Qed.

Lemma X5_witness :
  well_formed_lead sample_lead
  ∧ Forall well_formed_group sample_groups
  ∧ _flatten_list
      [ paragraph <$> sample_lead; g ← sample_groups; group_fragments g ]
    = (paragraph <$> sample_lead) ++ (g ← sample_groups; group_fragments g)
  ∧ _process_page_content
      {| PDFParser.page := 7;
         content := [ paragraph <$> sample_lead;
                      g ← sample_groups; group_fragments g ] |}
    = lead_section 7 sample_lead ++ (group_section 7 <$> sample_groups).
Proof.
  assert (well_formed_lead sample_lead) as Hlead.
  { split; [repeat constructor|done]. }
  assert (Forall well_formed_group sample_groups) as Hgroups.
  { repeat constructor; cbn; (lia || done). }
  split_and!; [done|done|reflexivity|].
  apply (X5_page_structurer_sections
           {| PDFParser.page := 7;
              content := [ paragraph <$> sample_lead;
                           g ← sample_groups; group_fragments g ] |}
           sample_lead sample_groups Hlead Hgroups).
  reflexivity.
Defined.
End structurer_behaviour.

(* ===================================================================== *)
(** * process_list_to_json as a whole *)
(* ===================================================================== *)

Section repaired_sections.
Import Py HTMLToJsonConverter RepairSpec SectionSpec.

Lemma sublist_fmap_2 {A B} (f : A → B) (l1 l2 : list A) :
  l1 `sublist_of` l2 → f <$> l1 `sublist_of` f <$> l2.
Proof. induction 1; cbn [fmap list_fmap]; by constructor. Qed.

Lemma StronglySorted_sublist_2 {A} (R : relation A) (l1 l2 : list A) :
  l1 `sublist_of` l2 → StronglySorted R l2 → StronglySorted R l1.
Proof.
  induction 1 as [|x l1 l2 Hsub IH|x l1 l2 Hsub IH];
    intros Hsorted; [done|..].
  - apply StronglySorted_inv in Hsorted as [Hl2 Hx].
    constructor; [auto|]. rewrite Forall_forall in Hx |- *.
    intros y Hy. apply Hx. by eapply elem_of_sublist.
  - apply StronglySorted_inv in Hsorted as [Hl2 _]. auto.
Qed.

Lemma empty_pair_merge_pages l :
  page <$> empty_pair_merge l `sublist_of` page <$> l.
Proof.
  induction l as [| |a b l IHl IHbl] using list_pair_ind; [done..|].
  rewrite empty_pair_merge_cons.
  destruct (bool_decide (text a = "") && bool_decide (text b = ""));
    cbn [fmap list_fmap].
  - apply sublist_skip. by apply sublist_cons.
  - by apply sublist_skip.
Qed.

Lemma empty_pair_merge_informative l :
  Forall informative l → Forall informative (empty_pair_merge l).
Proof.
  induction l as [| |a b l IHl IHbl] using list_pair_ind; [done..|].
  intros Hall. apply Forall_cons in Hall as [Ha Hbl].
  pose proof Hbl as [Hb Hl]%Forall_cons.
  rewrite empty_pair_merge_cons.
  destruct (bool_decide (text a = "")) eqn:Hta; cbn [andb];
    [destruct (bool_decide (text b = "")) eqn:Htb|].
  - apply bool_decide_eq_true in Hta, Htb.
    constructor; [|auto]. unfold informative, merged_entry in *. cbn [title text].
    destruct Ha as [?|?]; [by left|done].
  - constructor; auto.
  - constructor; auto.
Qed.

Lemma remove_duplicates_informative l :
  Forall informative l → Forall informative (_remove_duplicates l).
Proof.
  rewrite !Forall_forall. intros Hl e He. by apply Hl, remove_duplicates_elem.
Qed.

Lemma prepend_title_informative a b : informative (prepend_title a b).
Proof.
  left. unfold prepend_title, set_title. cbn [title]. by destruct (title a).
Qed.

Lemma concat_from_informative rest : ∀ cur,
  informative cur → Forall informative rest →
  Forall informative (concat_from cur rest).
Proof.
  induction rest as [|nxt rest IH]; intros cur Hcur Hrest; cbn [concat_from].
  { by apply Forall_singleton. }
  apply Forall_cons in Hrest as [Hnxt Hrest]. case_decide.
  - apply IH; [apply prepend_title_informative|done].
  - constructor; [done|]. by apply IH.
Qed.

Lemma structured_data_inv (data_list : list PDFParser.PageData) :
  Forall informative (pd ← data_list; _process_page_content pd)
  ∧ page <$> (pd ← data_list; _process_page_content pd)
    = pd ← data_list;
      replicate (length (_process_page_content pd)) (PDFParser.page pd).
Proof.
  induction data_list as [|pd data_list [IHinf IHpages]]; [done|].
  cbn [mbind list_bind]. rewrite fmap_app, IHpages.
  destruct (page_sections_inv pd) as [Hpd _].
  split.
  - apply Forall_app. split; [|done].
    eapply Forall_impl; [exact Hpd|]. by intros e [_ ?].
  - f_equal. clear -Hpd.
    induction Hpd as [|e l [He _] _ IH]; [done|].
    cbn [fmap list_fmap length replicate]. by rewrite He, IH.
Qed.

Lemma page_major_sorted (data_list : list PDFParser.PageData) :
  StronglySorted Z.le (PDFParser.page <$> data_list) →
  StronglySorted Z.le
    (pd ← data_list;
     replicate (length (_process_page_content pd)) (PDFParser.page pd)).
Proof.
  induction data_list as [|pd data_list IH]; [constructor|].
  cbn [fmap list_fmap mbind list_bind].
  intros [Hrest Hpd]%StronglySorted_inv.
  apply StronglySorted_app_2; [| |auto].
  - intros x1 x2 [-> _]%elem_of_replicate
      (pd' & Hx2 & Hpd')%list_elem_of_bind.
    apply elem_of_replicate in Hx2 as [-> _].
    rewrite Forall_forall in Hpd. apply Hpd. by apply list_elem_of_fmap_2.
  - generalize (length (_process_page_content pd)). intros n.
    induction n as [|n IHn]; cbn [replicate]; constructor; [done|].
    apply Forall_forall. by intros x [-> _]%elem_of_replicate.
Qed.

(** What [process_list_to_json] returns, from the structured list on. *)
Lemma repaired_sections_inv (data_list : list PDFParser.PageData) :
  ∃ out,
    process_list_to_json data_list = Some (Ok out)
    ∧ Forall informative out
    ∧ dangling_free out
    ∧ page <$> out
      `sublist_of` page <$> (pd ← data_list; _process_page_content pd)
    ∧ Forall (λ e, page e ∈ PDFParser.page <$> data_list) out
    ∧ (StronglySorted Z.le (PDFParser.page <$> data_list) →
       StronglySorted Z.le (page <$> out)).
Proof.
  unfold process_list_to_json.
  set (structured_data := pd ← data_list; _process_page_content pd).
  destruct (structured_data_inv data_list) as [Hinf Hpages].
  fold structured_data in Hinf, Hpages.
  exists (concat_dangling (_remove_duplicates (empty_pair_merge structured_data))).
  assert (page <$> concat_dangling
                     (_remove_duplicates (empty_pair_merge structured_data))
          `sublist_of` page <$> structured_data) as Hsub.
  { trans (page <$> _remove_duplicates (empty_pair_merge structured_data)).
    - destruct (_remove_duplicates _) as [|cur rest]; [done|].
      apply concat_from_pages.
    - trans (page <$> empty_pair_merge structured_data).
      + apply sublist_fmap_2, remove_duplicates_sublist.
      + apply empty_pair_merge_pages. }
  split_and!.
  - apply repair_spec.
  - pose proof (remove_duplicates_informative _
                  (empty_pair_merge_informative _ Hinf)) as Hd.
    destruct (_remove_duplicates _) as [|cur rest]; [done|].
    apply Forall_cons in Hd as [??]. by apply concat_from_informative.
  - destruct (_remove_duplicates _) as [|cur rest].
    + apply dangling_free_short. cbn. lia.
    + apply concat_from_dangling_free.
  - done.
  - apply Forall_forall. intros e He.
    assert (page e ∈ page <$> structured_data) as Hin
      by (eapply elem_of_sublist; [by apply list_elem_of_fmap_2|done]).
    rewrite Hpages in Hin.
    apply list_elem_of_bind in Hin as (pd & Hin & Hpd).
    apply elem_of_replicate in Hin as [-> _]. by apply list_elem_of_fmap_2.
  - intros Hsorted. eapply StronglySorted_sublist_2; [exact Hsub|].
    rewrite Hpages. by apply page_major_sorted.
Qed.

(** X6. [process_list_to_json] always returns: merging, duplicate removal
    and title concatenation raise nothing and the loop over the titles
    ends.  In the repaired list every section has a non-empty title or a
    non-empty text, every section but possibly the last has non-empty text,
    and the page numbers are, in order, among those of the sections the
    page structurer produced; so they come from the input pages, and are
    non-decreasing when the input pages are. *)
Theorem X6_repaired_sections (data_list : list PDFParser.PageData) :
  ∃ out,
    process_list_to_json data_list = Some (Ok out)
    ∧ Forall informative out
    ∧ dangling_free out
    ∧ page <$> out
      `sublist_of` page <$> (pd ← data_list; _process_page_content pd)
    ∧ Forall (λ e, page e ∈ PDFParser.page <$> data_list) out
    ∧ (StronglySorted Z.le (PDFParser.page <$> data_list) →
       StronglySorted Z.le (page <$> out)).
Proof. apply repaired_sections_inv. Qed.
End repaired_sections.

(* ===================================================================== *)
(** * More on the parser *)
(* ===================================================================== *)

Section closing_tags.
Import Py PDFParser FormatSpec.

Lemma split1_absent c s : contains c s = false → split1 c s = [s].
Proof.
  induction s as [|d s IH]; [done|]. cbn [contains split1].
  intros [Hd Hs]%orb_false_iff. apply bool_decide_eq_false in Hd.
  rewrite decide_False by done. by rewrite IH.
Qed.

Lemma contains_split c s :
  contains c s = true →
  ∃ before after, s = before +:+ String c after ∧ contains c before = false.
Proof.
  induction s as [|d s IH]; [done|]. cbn [contains].
  destruct (decide (d = c)) as [->|Hne].
  - intros _. by exists "", s.
  - rewrite bool_decide_eq_false_2 by done. cbn [orb].
    intros (before & after & -> & Hbefore)%IH.
    exists (String d before), after. split; [done|]. cbn [contains].
    by rewrite bool_decide_eq_false_2, Hbefore.
Qed.

Lemma split1_head c s : ∃ first more, split1 c s = first :: more.
Proof.
  destruct (contains c s) eqn:Hc.
  - apply contains_split in Hc as (before & after & -> & Hbefore).
    rewrite split1_first by done. by eexists _, _.
  - rewrite split1_absent by done. by eexists _, _.
Qed.

Lemma get_closing_tag_between before name after :
  contains "<" before = false → contains ">" name = false →
  _get_closing_tag (before +:+ String "<" (name +:+ String ">" after))
  = Ok ("</" +:+ name +:+ ">").
Proof.
  intros Hbefore Hname. unfold _get_closing_tag.
  rewrite split1_first by done.
  change (index [before; ?x] 1) with (Ok x). rewrite bind_Ok.
  rewrite split1_first by done.
  change (index [name; after] 0) with (Ok name). by rewrite bind_Ok.
Qed.

Lemma get_closing_tag_unclosed before name :
  contains "<" before = false → contains ">" name = false →
  _get_closing_tag (before +:+ String "<" name) = Ok ("</" +:+ name +:+ ">").
Proof.
  intros Hbefore Hname. unfold _get_closing_tag.
  rewrite split1_first by done.
  change (index [before; ?x] 1) with (Ok x). rewrite bind_Ok.
  rewrite split1_absent by done.
  change (index [name] 0) with (Ok name). by rewrite bind_Ok.
Qed.

(** X7. [_get_closing_tag] raises [IndexError] exactly on a string without
    [<]; otherwise it returns [</name>], where [name] is what stands between
    the first [<] and the next [>] (or the end of the string when no [>]
    follows): what precedes the [<] and what follows the [>] is ignored. *)
Theorem X7_closing_tag_of_any_string (opening_tag : string) :
  (contains "<" opening_tag = false ↔
   _get_closing_tag opening_tag = Raise IndexError)
  ∧ (contains "<" opening_tag = true →
     ∃ name, _get_closing_tag opening_tag = Ok ("</" +:+ name +:+ ">"))
  ∧ ∀ before name after,
      contains "<" before = false → contains ">" name = false →
      _get_closing_tag (before +:+ String "<" (name +:+ String ">" after))
      = Ok ("</" +:+ name +:+ ">")
      ∧ _get_closing_tag (before +:+ String "<" name)
        = Ok ("</" +:+ name +:+ ">").
Proof.
  assert (contains "<" opening_tag = true →
          ∃ name, _get_closing_tag opening_tag = Ok ("</" +:+ name +:+ ">"))
    as Hsome.
  { intros (before & rest & -> & Hbefore)%contains_split.
    destruct (contains ">" rest) eqn:Hgt.
    - apply contains_split in Hgt as (name & after & -> & Hname).
      exists name. by apply get_closing_tag_between.
    - exists rest. by apply get_closing_tag_unclosed. }
  split_and!; [|done|].
  - split.
    + intros Hnone. unfold _get_closing_tag. by rewrite split1_absent.
    + intros Hraise. destruct (contains "<" opening_tag) eqn:Hc; [|done].
      destruct (Hsome eq_refl) as [name Hname]. congruence.
  - intros before name after Hbefore Hname.
    split; [by apply get_closing_tag_between|by apply get_closing_tag_unclosed].
Qed.
End closing_tags.

Lemma StronglySorted_impl_2 {A} (R S : relation A) l :
  (∀ a b, R a b → S a b) → StronglySorted R l → StronglySorted S l.
Proof.
  intros HRS. induction 1 as [|x l Hl IH Hx]; constructor; [done|].
  eapply Forall_impl; [exact Hx|]. auto.
Qed.

Section catalog_counts.
Import Py PDFParser TagSpec.

Lemma sum_increment identifier font_counts :
  sum_list_with snd (increment identifier font_counts)
  = S (sum_list_with snd font_counts).
Proof.
  induction font_counts as [|[k n] rest IH]; [done|]. cbn [increment].
  case_decide; cbn [sum_list_with snd]; [lia|]. rewrite IH. lia.
Qed.

Lemma catalog_fold_sum granularity seen :
  sum_list_with snd (foldl (catalog_step granularity) (∅, []) seen).2
  = length seen.
Proof.
  induction seen as [|span seen IH] using rev_ind; [done|].
  rewrite foldl_app, length_app. cbn [foldl length].
  destruct (foldl _ _ seen) as [styles font_counts]. cbn [snd] in *.
  unfold catalog_step. cbn [snd]. rewrite sum_increment, IH. lia.
Qed.

Lemma extract_fonts_unfold p granularity font_counts styles :
  _extract_fonts p granularity = Ok (font_counts, styles) →
  font_counts
  = sorted by_count_desc
      (foldl (catalog_step granularity) (∅, []) (text_spans p)).2
  ∧ styles = (foldl (catalog_step granularity) (∅, []) (text_spans p)).1.
Proof.
  unfold _extract_fonts.
  destruct (foldl _ _ _) as [st [|entry fc]]; [done|].
  by intros [= <- <-].
Qed.

(** X8. The catalog of a page: every identifier is listed once, with the
    number of spans of its style, which is never zero; the list is ordered
    by non-increasing count and its counts add up to the number of spans of
    the page's text blocks; the style map holds, under the identifier of
    every span, that span's size, font and color, and nothing else. *)
Theorem X8_catalog_counts_every_span p font_counts styles :
  _extract_fonts p true = Ok (font_counts, styles) →
  NoDup font_counts.*1
  ∧ (∀ k n, (k, n) ∈ font_counts
            ↔ n ≠ 0 ∧ ∃ t, k = identifier3 t
                           ∧ n = occurrences t (text_spans p))
  ∧ StronglySorted (λ a b, b.2 ≤ a.2) font_counts
  ∧ sum_list_with snd font_counts = length (text_spans p)
  ∧ ∀ k st, styles !! k = Some st
            ↔ ∃ span, span ∈ text_spans p
                      ∧ k = identifier3 (triple_of span)
                      ∧ st = style_of (triple_of span).
Proof.
  intros [-> ->]%extract_fonts_unfold.
  pose proof (catalog_fold_inv (text_spans p)) as Hinv.
  pose proof (catalog_fold_sum true (text_spans p)) as Hsum.
  destruct (foldl _ _ _) as [styles unsorted].
  destruct Hinv as [Hstyles Hnd Hkeys Hcount]. cbn [fst snd] in *.
  pose proof (sorted_Permutation by_count_desc unsorted) as Hperm.
  split_and!.
  - by rewrite Hperm.
  - intros k n. rewrite Hperm. split.
    + intros Hin.
      assert (k ∈ unsorted.*1) as (span & Hspan & ->)%Hkeys
        by (apply list_elem_of_fmap; by exists (k, n)).
      apply (get_count_elem _ _ _ Hnd) in Hin. rewrite Hcount in Hin.
      subst n. split; [|eauto]. unfold occurrences.
      assert (span ∈ filter (λ s, triple_of s = triple_of span) (text_spans p))
        as Hin by (by apply list_elem_of_filter).
      destruct (filter _ _); [by apply elem_of_nil in Hin|done].
    + intros (Hn & t & -> & ->). rewrite <-Hcount in Hn |- *.
      by destruct (get_count_zero_or_elem (identifier3 t) unsorted).
  - eapply StronglySorted_impl_2;
      [|apply (sorted_StronglySorted by_count_desc by_count_desc_asym
                 by_count_desc_ntrans)].
    intros a b. unfold by_count_desc. by rewrite Nat.ltb_ge.
  - by rewrite Hperm.
  - done.
Qed.

Lemma X8_witness :
  _extract_fonts sample_page true = Ok sample_catalog
  ∧ NoDup sample_catalog.1.*1
  ∧ (∀ k n, (k, n) ∈ sample_catalog.1
            ↔ n ≠ 0 ∧ ∃ t, k = identifier3 t
                           ∧ n = occurrences t (text_spans sample_page))
  ∧ StronglySorted (λ a b, b.2 ≤ a.2) sample_catalog.1
  ∧ sum_list_with snd sample_catalog.1 = length (text_spans sample_page)
  ∧ ∀ k st, sample_catalog.2 !! k = Some st
            ↔ ∃ span, span ∈ text_spans sample_page
                      ∧ k = identifier3 (triple_of span)
                      ∧ st = style_of (triple_of span).
Proof.
  split; [vm_compute; reflexivity|].
  apply (X8_catalog_counts_every_span sample_page sample_catalog.1 sample_catalog.2).
  vm_compute; reflexivity.
Defined.
End catalog_counts.

Section coarse_catalog.
Import Py PDFParser TagSpec.

Lemma coarse_fold_inv seen :
  let acc := foldl (catalog_step false) (∅, []) seen in
  (∀ k, k ∈ acc.2.*1 → is_Some (acc.1 !! k))
  ∧ (∀ k st, acc.1 !! k = Some st → ∃ sz, st = StyleSize sz ∧ k = pretty sz).
Proof.
  induction seen as [|span seen IH] using rev_ind.
  { cbn. split; [by intros k ?%elem_of_nil|]. intros k st. by rewrite lookup_empty. }
  cbn zeta in *. rewrite foldl_app. cbn [foldl].
  destruct (foldl _ _ seen) as [styles font_counts]. cbn [fst snd] in *.
  destruct IH as [Hkeys Hstyles].
  unfold catalog_step, _create_identifier, _extract_style. cbn [fst snd]. split.
  - intros k [->|Hk]%keys_increment.
    + rewrite lookup_insert_eq. by eexists.
    + rewrite lookup_insert. case_decide; [by eexists|auto].
  - intros k st. rewrite lookup_insert. case_decide as Hk.
    + intros [= <-]. eauto.
    + apply Hstyles.
Qed.

Lemma unique_styles_coarse styles :
  styles ≠ ∅ →
  (∀ k st, styles !! k = Some st → ∃ sz, st = StyleSize sz) →
  unique_styles styles = Raise (KeyError "font").
Proof.
  intros Hne Hcoarse. unfold unique_styles.
  destruct (map_to_list styles) as [|[k st] rest] eqn:Hlist.
  { by apply map_to_list_empty_iff in Hlist. }
  assert (styles !! k = Some st) as [sz ->]%Hcoarse.
  { apply elem_of_map_to_list. rewrite Hlist. by left. }
  done.
Qed.

(** X9. With [granularity] off, [_extract_fonts] still returns a catalog for
    every page that has a span in a text block, but its style dicts hold the
    size only, under an identifier that is the size alone: handing this
    catalog to [_create_size_tag_map] raises [KeyError('font')]. *)
Theorem X9_coarse_catalog_cannot_be_tagged (p : Page) :
  text_spans p ≠ [] →
  ∃ font_counts styles,
    _extract_fonts p false = Ok (font_counts, styles)
    ∧ sum_list_with snd font_counts = length (text_spans p)
    ∧ (∀ k st, styles !! k = Some st → ∃ sz, st = StyleSize sz ∧ k = pretty sz)
    ∧ _create_size_tag_map font_counts styles = Raise (KeyError "font").
Proof.
  intros Hne. unfold _extract_fonts.
  pose proof (coarse_fold_inv (text_spans p)) as [Hkeys Hstyles].
  pose proof (catalog_fold_sum false (text_spans p)) as Hsum.
  destruct (foldl _ _ _) as [styles unsorted]. cbn [fst snd] in *.
  pose proof (sorted_Permutation by_count_desc unsorted) as Hperm.
  destruct unsorted as [|entry unsorted].
  { destruct (text_spans p); [done|]. cbn in Hsum. lia. }
  destruct (sorted by_count_desc (entry :: unsorted)) as [|first rest] eqn:Hs.
  { by apply sorted_nil_inv in Hs. }
  exists (first :: rest), styles. split_and!; [done|by rewrite Hperm|done|].
  assert (first.1 ∈ (entry :: unsorted).*1) as [st Hst]%Hkeys.
  { apply list_elem_of_fmap_2. rewrite <-Hperm. by left. }
  unfold _create_size_tag_map. change (index (first :: rest) 0) with (Ok first).
  rewrite bind_Ok, Hst, bind_Ok, unique_styles_coarse; [done| |].
  - intros ->. by rewrite lookup_empty in Hst.
  - intros k st' (sz & -> & _)%Hstyles. eauto.
Qed.

Lemma X9_witness :
  text_spans sample_page ≠ []
  ∧ ∃ font_counts styles,
      _extract_fonts sample_page false = Ok (font_counts, styles)
      ∧ sum_list_with snd font_counts = length (text_spans sample_page)
      ∧ (∀ k st, styles !! k = Some st
                 → ∃ sz, st = StyleSize sz ∧ k = pretty sz)
      ∧ _create_size_tag_map font_counts styles = Raise (KeyError "font").
Proof.
  assert (text_spans sample_page ≠ []) as Hne by (vm_compute; discriminate).
  split; [done|]. apply (X9_coarse_catalog_cannot_be_tagged sample_page Hne).
Defined.
End coarse_catalog.

Section identifiers.
Import Py PDFParser TagSpec.

(** X10. Two spans get the same granular identifier exactly when they agree
    on size, font and color, whatever characters the font name contains
    (underscores included); with [granularity] off, exactly when they agree
    on size. *)
Theorem X10_identifiers_separate_styles (span1 span2 : Span) :
  (_create_identifier span1 true = _create_identifier span2 true
   ↔ (size span1, font span1, color span1)
     = (size span2, font span2, color span2))
  ∧ (_create_identifier span1 false = _create_identifier span2 false
     ↔ size span1 = size span2).
Proof.
  unfold _create_identifier. split; split.
  - apply format_identifier_inj.
  - by intros [= -> -> ->].
  - apply (inj pretty).
  - by intros ->.
Qed.
End identifiers.

Section page_content.
Import Py PDFParser SegmenterSpec.

Lemma segments_open_nonempty spans : ∀ run, segments (Some run) spans ≠ [].
Proof.
  induction spans as [|span spans IH]; intros [identifier body];
    cbn [segments]; [done|].
  destruct (visible span); [|apply IH]. case_decide; [apply IH|done].
Qed.

Lemma segments_nil spans :
  segments None spans = [] ↔ Forall (λ span, visible span = false) spans.
Proof.
  induction spans as [|span spans IH]; cbn [segments]; [done|].
  rewrite Forall_cons. destruct (visible span) eqn:Hvis.
  - split; [by intros ?%segments_open_nonempty|by intros [? _]].
  - rewrite IH. tauto.
Qed.

Lemma map_result_length {A B} (f : A → result B) l ys :
  map_result f l = Ok ys → length ys = length l.
Proof. intros H%map_result_Forall2. by apply Forall2_length in H. Qed.

Lemma process_block_nil block size_tag_map fragments :
  _process_block block size_tag_map = Ok fragments →
  (fragments = [] ↔ Forall (λ span, visible span = false) (block_spans block)).
Proof.
  rewrite process_block_segments. intros Hlen%map_result_length.
  rewrite <-segments_nil.
  destruct fragments, (segments None (block_spans block)); done.
Qed.

Lemma page_blocks_spec size_tag_map blocks : ∀ page_blocks content,
  for_each (page_block_step size_tag_map) blocks page_blocks = Ok content →
  ∃ per_block,
    Forall2 (λ block fragments, _process_block block size_tag_map = Ok fragments)
            (filter (λ block, block_type block = 0%Z) blocks) per_block
    ∧ content = page_blocks ++ filter (λ fragments, fragments ≠ []) per_block.
Proof.
  induction blocks as [|block blocks IH]; intros acc content; cbn [for_each].
  { intros [= <-]. exists []. by rewrite app_nil_r. }
  change (Py.bind ?r ?k) with (r ≫= k).
  set (rest := for_each (page_block_step size_tag_map) blocks) in *.
  unfold page_block_step. rewrite filter_cons. case_decide as Htype.
  - destruct (_process_block block size_tag_map) as [fragments|e] eqn:Hb;
      [|by rewrite !bind_Raise].
    rewrite bind_Ok.
    destruct fragments as [|fragment fragments]; rewrite bind_Ok;
      intros (per_block & Hall & ->)%IH.
    + exists ([] :: per_block). split; [by constructor|].
      rewrite filter_cons. by rewrite decide_False by (by intros ?).
    + exists ((fragment :: fragments) :: per_block). split; [by constructor|].
      rewrite filter_cons, decide_True by done. by rewrite <-(assoc_L (++)).
  - rewrite bind_Ok. apply IH.
Qed.

(** X11. The content [_extract_page_content] returns for a page is, in block
    order, the fragment lists of its text blocks, those that are empty left
    out; non-text blocks are never read; and the fragment list of a block is
    empty exactly when every span of the block is whitespace-only. *)
Theorem X11_page_content_by_block (p : Page) size_tag_map content :
  _extract_page_content p size_tag_map = Ok content →
  (∃ per_block,
     Forall2 (λ block fragments,
                _process_block block size_tag_map = Ok fragments)
             (filter (λ block, block_type block = 0%Z) (blocks p)) per_block
     ∧ content = filter (λ fragments, fragments ≠ []) per_block)
  ∧ Forall (λ fragments, fragments ≠ []) content
  ∧ ∀ block fragments,
      _process_block block size_tag_map = Ok fragments →
      (fragments = []
       ↔ Forall (λ span, visible span = false) (block_spans block)).
Proof.
  intros (per_block & Hall & ->)%page_blocks_spec. split_and!.
  - by exists per_block.
  - cbn [app]. apply Forall_forall. by intros fr [? _]%list_elem_of_filter.
  - intros block fragments. apply process_block_nil.
Qed.

Lemma X11_witness :
  _extract_page_content TagSpec.sample_page sample_tags = Ok [sample_fragments]
  ∧ (∃ per_block,
       Forall2 (λ block fragments,
                  _process_block block sample_tags = Ok fragments)
               (filter (λ block, block_type block = 0%Z)
                       (blocks TagSpec.sample_page)) per_block
       ∧ [sample_fragments] = filter (λ fragments, fragments ≠ []) per_block)
  ∧ Forall (λ fragments, fragments ≠ []) [sample_fragments]
  ∧ ∀ block fragments,
      _process_block block sample_tags = Ok fragments →
      (fragments = []
       ↔ Forall (λ span, visible span = false) (block_spans block)).
Proof.
  split; [vm_compute; reflexivity|].
  apply (X11_page_content_by_block TagSpec.sample_page sample_tags
           [sample_fragments]).
  vm_compute; reflexivity.
Defined.
End page_content.

(* ===================================================================== *)
(** * When the segmenter raises *)
(* ===================================================================== *)

Section segmenter_errors.
Import Py PDFParser SegmenterSpec.

Lemma get_closing_tag_cases opening_tag :
  (contains "<" opening_tag = false
   ∧ _get_closing_tag opening_tag = Raise IndexError)
  ∨ (contains "<" opening_tag = true
     ∧ ∃ closing, _get_closing_tag opening_tag = Ok closing).
Proof.
  destruct (contains "<" opening_tag) eqn:Hlt.
  - right. split; [done|].
    apply contains_split in Hlt as (before & rest & -> & Hbefore).
    destruct (contains ">" rest) eqn:Hgt.
    + apply contains_split in Hgt as (name & after & -> & Hname).
      eexists. by apply get_closing_tag_between.
    + eexists. by apply get_closing_tag_unclosed.
  - left. split; [done|]. unfold _get_closing_tag. by rewrite split1_absent.
Qed.

Lemma render_cases size_tag_map run :
  (∃ fragment, render size_tag_map run = Ok fragment)
  ∨ (render size_tag_map run = Raise IndexError
     ∧ ∃ tag, size_tag_map !! run.1 = Some tag ∧ contains "<" tag = false).
Proof.
  unfold render. destruct (size_tag_map !! run.1) as [tag|]; [|left; by eexists].
  destruct (get_closing_tag_cases tag) as [[Hlt ->]|[_ [closing ->]]].
  - right. split; [done|]. by exists tag.
  - left. rewrite bind_Ok. by eexists.
Qed.

Lemma render_Ok_bracket size_tag_map run fragment tag :
  render size_tag_map run = Ok fragment → size_tag_map !! run.1 = Some tag →
  contains "<" tag = true.
Proof.
  unfold render. intros Hrun Htag. rewrite Htag in Hrun.
  destruct (get_closing_tag_cases tag) as [[_ Hraise]|[Hlt _]]; [|done].
  by rewrite Hraise in Hrun.
Qed.

Lemma map_render_cases size_tag_map runs :
  (∃ fragments, map_result (render size_tag_map) runs = Ok fragments
                ∧ ∀ run tag, run ∈ runs → size_tag_map !! run.1 = Some tag →
                    contains "<" tag = true)
  ∨ (map_result (render size_tag_map) runs = Raise IndexError
     ∧ ∃ run tag, run ∈ runs ∧ size_tag_map !! run.1 = Some tag
                  ∧ contains "<" tag = false).
Proof.
  induction runs as [|run runs IH]; [left; exists []; split; [done|]|].
  { by intros ?? ?%elem_of_nil. }
  rewrite map_result_cons.
  destruct (render_cases size_tag_map run)
    as [[fragment Hrun]|[Hrun (tag & Htag & Hlt)]].
  - rewrite Hrun, bind_Ok.
    destruct IH as [(fragments & -> & Hall)|(-> & run' & tag & Hin & Htag & Hlt)].
    + left. rewrite bind_Ok. eexists. split; [done|].
      intros run' tag [->|Hin]%elem_of_cons Htag.
      * by eapply render_Ok_bracket.
      * by eapply Hall.
    + right. split; [done|]. exists run', tag. split; [by right|done].
  - right. rewrite Hrun. split; [done|]. exists run, tag. split; [by left|done].
Qed.

(** The identifier of the run still open is that of some run returned. *)
Lemma segments_open_identifier spans : ∀ identifier body,
  ∃ run, run ∈ segments (Some (identifier, body)) spans ∧ run.1 = identifier.
Proof.
  induction spans as [|span spans IH]; intros identifier body; cbn [segments].
  { eexists. split; [by left|done]. }
  destruct (visible span); [|apply IH]. case_decide; [apply IH|].
  eexists. split; [by left|done].
Qed.

Lemma segments_covers spans : ∀ cur span,
  span ∈ spans → visible span = true →
  ∃ run, run ∈ segments cur spans ∧ run.1 = identifier_of span.
Proof.
  induction spans as [|first spans IH]; intros cur span Hin Hvis;
    [by apply elem_of_nil in Hin|].
  cbn [segments]. apply elem_of_cons in Hin as [->|Hin].
  - rewrite Hvis. destruct cur as [[identifier body]|].
    + case_decide as Hid.
      * rewrite Hid. apply segments_open_identifier.
      * destruct (segments_open_identifier spans (identifier_of first)
                    (text first)) as (run & Hrun & Hrun1).
        exists run. split; [by right|done].
    + apply segments_open_identifier.
  - destruct (visible first); [|by apply IH].
    destruct cur as [[identifier body]|]; [|by apply IH].
    case_decide; [by apply IH|].
    destruct (IH (Some (identifier_of first, text first)) span Hin Hvis)
      as (run & Hrun & Hrun1).
    exists run. split; [by right|done].
Qed.

(** Every run returned is the open one or starts at a visible span. *)
Lemma segments_visible spans : ∀ cur run,
  run ∈ segments cur spans →
  (∃ body, cur = Some (run.1, body))
  ∨ ∃ span, span ∈ spans ∧ visible span = true ∧ run.1 = identifier_of span.
Proof.
  induction spans as [|first spans IH]; intros cur run; cbn [segments].
  { destruct cur as [[identifier body]|]; [|by intros ?%elem_of_nil].
    intros ->%list_elem_of_singleton. left. by eexists. }
  destruct (visible first) eqn:Hvis.
  - assert (∀ body, run ∈ segments (Some (identifier_of first, body)) spans →
              ∃ span, span ∈ first :: spans ∧ visible span = true
                      ∧ run.1 = identifier_of span) as Hstart.
    { intros body [[body' [= Hid _]]|(span & ? & ? & ?)]%IH.
      - exists first. split; [by left|done].
      - exists span. split; [by right|done]. }
    destruct cur as [[identifier body]|]; [|right; by eapply Hstart].
    case_decide as Hid.
    + subst identifier. right. by eapply Hstart.
    + intros [->|Hin]%elem_of_cons; [left; by eexists|].
      right. by eapply Hstart.
  - intros [?|(span & ? & ? & ?)]%IH; [by left|].
    right. exists span. split; [by right|done].
Qed.

(** X12. With an arbitrary tag map the segmenter raises exactly when the
    block has a span that is not whitespace-only and whose identifier is
    mapped to a tag without [<]; it then raises [IndexError], from
    [_get_closing_tag], and never anything else.  Tags of identifiers that
    no such span has are never looked at. *)
Theorem X12_segmenter_raises_on_bracketless_tag (block : Block)
    (size_tag_map : gmap string string) :
  (_process_block block size_tag_map = Raise IndexError
   ↔ ∃ span tag, span ∈ block_spans block ∧ visible span = true
                 ∧ size_tag_map !! _create_identifier span true = Some tag
                 ∧ contains "<" tag = false)
  ∧ (∀ e, _process_block block size_tag_map = Raise e → e = IndexError).
Proof.
  rewrite process_block_segments.
  destruct (map_render_cases size_tag_map (segments None (block_spans block)))
    as [(fragments & -> & Hall)|(-> & run & tag & Hrun & Htag & Hlt)].
  - split; [|done]. split; [done|].
    intros (span & tag & Hspan & Hvis & Htag & Hlt).
    destruct (segments_covers _ None span Hspan Hvis) as (run & Hrun & Hid).
    change (_create_identifier span true) with (identifier_of span) in Htag.
    rewrite <-Hid in Htag. rewrite (Hall run tag Hrun Htag) in Hlt. done.
  - split; [|by intros e [= <-]]. split; [|done]. intros _.
    apply segments_visible in Hrun as [[body [=]]|(span & Hspan & Hvis & Hid)].
    exists span, tag. split_and!; [done..| |done].
    change (_create_identifier span true) with (identifier_of span).
    by rewrite <-Hid.
Qed.
End segmenter_errors.
(* ===================================================================== *)
(** * Heading levels of a page *)
(* ===================================================================== *)

Section heading_levels.
Import Py PDFParser TagSpec SegmenterSpec FragmentSpec DocumentSpec.

Lemma StronglySorted_lookup_lt {A} (R : relation A) l : ∀ i j a b,
  StronglySorted R l → i < j → l !! i = Some a → l !! j = Some b → R a b.
Proof.
  induction l as [|x l IH]; intros i j a b Hss Hij Hi Hj; [done|].
  apply StronglySorted_inv in Hss as [Hss Hall].
  destruct i as [|i], j as [|j]; try lia; cbn in Hi, Hj.
  - injection Hi as <-. rewrite Forall_forall in Hall.
    apply Hall. by eapply list_elem_of_lookup_2.
  - apply (IH i j); [done|lia|done..].
Qed.

Lemma filter_take_lt {A} (P : A → Prop) `{∀ x, Decision (P x)} l : ∀ i j x,
  i < j → l !! i = Some x → P x →
  length (filter P (take i l)) < length (filter P (take j l)).
Proof.
  induction l as [|y l IH]; intros i j x Hij Hi Hx; [done|].
  destruct i as [|i], j as [|j]; try lia; cbn [take]; cbn in Hi.
  - injection Hi as ->. rewrite filter_cons, decide_True by done. cbn. lia.
  - rewrite !filter_cons. assert (i < j) as Hij' by lia.
    pose proof (IH i j x Hij' Hi Hx). case_decide; cbn [length]; lia.
Qed.

Lemma filter_take_last {A} (P : A → Prop) `{∀ x, Decision (P x)} l : ∀ n,
  length (filter P l) = S n →
  ∃ j x, l !! j = Some x ∧ P x ∧ length (filter P (take j l)) = n.
Proof.
  induction l as [|y l IH] using rev_ind; intros n; [done|].
  rewrite filter_app, length_app, filter_cons, filter_nil. case_decide as Hy.
  - cbn [length]. intros Hn. exists (length l), y. split_and!.
    + by apply list_lookup_middle.
    + done.
    + rewrite take_app_length. lia.
  - cbn [length]. rewrite Nat.add_0_r. intros (j & x & Hj & Hx & Hn)%IH.
    exists j, x. pose proof (lookup_lt_Some _ _ _ Hj) as Hlt. split_and!.
    + by apply lookup_app_l_Some.
    + done.
    + rewrite take_app_le by lia. done.
Qed.

Lemma level_at_lt d sorted_styles i j t :
  i < j → sorted_styles !! i = Some t → heading_style d t →
  level_at d sorted_styles i < level_at d sorted_styles j.
Proof.
  intros Hij Hi Ht. unfold level_at.
  pose proof (filter_take_lt (heading_style d) sorted_styles i j t Hij Hi Ht).
  lia.
Qed.

Lemma level_at_bound d sorted_styles i t :
  d ∈ sorted_styles → sorted_styles !! i = Some t → heading_style d t →
  1 ≤ level_at d sorted_styles i < length sorted_styles.
Proof.
  intros Hd Hi Ht. unfold level_at.
  pose proof (lookup_lt_Some _ _ _ Hi) as Hlt.
  pose proof (filter_take_lt (heading_style d) sorted_styles i
                (length sorted_styles) t Hlt Hi Ht) as Hcount.
  rewrite firstn_all in Hcount.
  pose proof (length_filter_lt (heading_style d) sorted_styles d Hd
                (heading_style_dominant d)).
  lia.
Qed.

Lemma level_at_pred d sorted_styles i level :
  level_at d sorted_styles i = S (S level) →
  ∃ j t, sorted_styles !! j = Some t ∧ heading_style d t
         ∧ level_at d sorted_styles j = S level.
Proof.
  unfold level_at. intros [= Hlevel].
  apply filter_take_last in Hlevel as (j & t & Hj & Ht & Hn).
  pose proof (lookup_lt_Some _ _ _ Hj) as Hlt. rewrite length_take in Hlt.
  exists j, t. split_and!.
  - rewrite lookup_take_lt in Hj by lia. done.
  - done.
  - rewrite take_take in Hn. rewrite Nat.min_l in Hn by lia. by rewrite Hn.
Qed.

Lemma heading_tag_of_inj level1 level2 :
  heading_tag_of level1 = heading_tag_of level2 → level1 = level2.
Proof.
  unfold heading_tag_of.
  change ("<h" +:+ ?x +:+ ">") with (String "<" (String "h" (x +:+ String ">" ""))).
  intros [= Heq].
  apply app_sep_first in Heq as [Heq _].
  - by apply (inj pretty) in Heq.
  - by apply (all_chars_contains isdigit); [apply pretty_nat_digits|].
  - by apply (all_chars_contains isdigit); [apply pretty_nat_digits|].
Qed.

Lemma tag_for_paragraph d header_idx t :
  tag_for d header_idx t = "<p>" ↔ ¬ heading_style d t.
Proof. unfold tag_for. case_decide; split; done. Qed.

Lemma tag_for_heading d header_idx t level :
  tag_for d header_idx t = heading_tag_of level
  ↔ heading_style d t ∧ header_idx = level.
Proof.
  unfold tag_for. case_decide as Ht; split.
  - by intros ?%heading_tag_of_inj.
  - by intros [_ ->].
  - done.
  - by intros [? _].
Qed.

Lemma create_size_tag_map_inv font_counts styles size_tag_map :
  _create_size_tag_map font_counts styles = Ok size_tag_map →
  ∃ first primary_style us r,
    head font_counts = Some first
    ∧ styles !! first.1 = Some primary_style
    ∧ unique_styles styles = Ok us
    ∧ for_each (tag_step primary_style) (sorted_unique_styles us) (∅, 1, 1)
      = Ok r
    ∧ size_tag_map = r.1.1.
Proof.
  unfold _create_size_tag_map. destruct font_counts as [|first rest]; [done|].
  change (index (first :: rest) 0) with (Ok first). rewrite bind_Ok.
  destruct (styles !! first.1) as [st|] eqn:Hst; [|done]. rewrite bind_Ok.
  destruct (unique_styles styles) as [us|] eqn:Hus; [|done]. rewrite bind_Ok.
  destruct (for_each _ _ _) as [r|] eqn:Hrun; [|done]. rewrite bind_Ok.
  intros [= <-]. by exists first, st, us, r.
Qed.

(** The tag map of a page, by position in the sorted pass. *)
Lemma page_levels p :
  text_spans p ≠ [] →
  ∃ font_counts styles size_tag_map dominant sorted_styles,
    _extract_fonts p true = Ok (font_counts, styles)
    ∧ _create_size_tag_map font_counts styles = Ok size_tag_map
    ∧ length sorted_styles = distinct_styles p
    ∧ StronglySorted style_before sorted_styles
    ∧ (∀ t, t ∈ sorted_styles
            ↔ ∃ span, span ∈ text_spans p ∧ triple_of span = t)
    ∧ dominant ∈ sorted_styles
    ∧ (∀ i t, sorted_styles !! i = Some t →
         size_tag_map !! identifier3 t
         = Some (tag_for dominant (level_at dominant sorted_styles i) t))
    ∧ (∀ k, is_Some (size_tag_map !! k) →
         ∃ t, t ∈ sorted_styles ∧ k = identifier3 t).
Proof.
  intros Hne.
  destruct (extract_fonts_Ok p Hne)
    as (styles & font_counts & first & rest & Hrun & Hinv & Hsorted).
  destruct Hinv as [Hstyles Hnd Hkeys _]. cbn [fst snd] in *.
  destruct (sorted_by_count_head _ _ _ Hsorted) as [Hin _].
  assert (first.1 ∈ font_counts.*1) as Hkey
    by (apply list_elem_of_fmap; eauto).
  apply Hkeys in Hkey as (dspan & Hdspan & Hid).
  set (dominant := triple_of dspan) in *.
  assert (styles !! first.1 = Some (style_of dominant)) as Hdom.
  { apply Hstyles. exists dspan. done. }
  assert (∀ k st, styles !! k = Some st → ∃ t, st = style_of t) as Hfull.
  { intros k st (span & _ & _ & ->)%Hstyles. eauto. }
  destruct (create_size_tag_map_spec first rest styles dominant Hdom Hfull)
    as (tm & us & Hus & Htm & Hlook & _).
  destruct (sorted_unique_styles_spec us) as (Hnodup & Helem & Hss).
  assert (∀ t, t ∈ sorted_unique_styles us
               ↔ ∃ span, span ∈ text_spans p ∧ triple_of span = t) as Hmem.
  { intros t. rewrite Helem, (unique_styles_spec _ _ Hus). split.
    - intros (k & (span & Hspan & _ & Heq)%Hstyles). exists span. split; [done|].
      destruct t as [[??]?]. unfold style_of, triple_of in *. cbn in Heq.
      congruence.
    - intros (span & Hspan & <-). exists (identifier3 (triple_of span)).
      apply Hstyles. eauto. }
  exists (first :: rest), styles, tm, dominant, (sorted_unique_styles us).
  split_and!; [done|done| |done|done| |done|].
  - unfold distinct_styles. apply Permutation_length.
    apply NoDup_Permutation; [done|apply NoDup_remove_dups|].
    intros t. rewrite Hmem, elem_of_remove_dups, list_elem_of_fmap.
    split; intros (span & ? & ?); exists span; done.
  - apply Hmem. by exists dspan.
  - intros k Hk.
    apply create_size_tag_map_inv in Htm
      as (first' & st & us' & r & [= <-] & Hst & Hus' & Hpass & ->).
    rewrite Hus in Hus'. injection Hus' as <-.
    rewrite Hdom in Hst. injection Hst as <-.
    destruct (tag_pass_spec dominant (sorted_unique_styles us) ∅ 1 1 Hnodup)
      as (tm' & Hpass' & _ & Hframe).
    rewrite Hpass in Hpass'. injection Hpass' as ->. cbn [fst] in Hk.
    destruct (decide (k ∈ identifier3 <$> sorted_unique_styles us))
      as [Hin'|Hout].
    + apply list_elem_of_fmap in Hin' as (t & -> & Ht). by exists t.
    + rewrite Hframe, lookup_empty in Hk; [by destruct Hk|].
      intros t Ht <-. apply Hout, list_elem_of_fmap. eauto.
Qed.
End heading_levels.

Section tag_map_levels.
Import Py PDFParser TagSpec SegmenterSpec FragmentSpec DocumentSpec.

(** X13. The tag map of a page has exactly the identifiers of the page's
    spans as keys.  Every span is tagged [<p>] or [<hN>] with N from 1 to
    one less than the number of distinct styles of the page.  Among the
    heading styles a larger size has a smaller level and two styles never
    share a level; the levels in use have no gap; and no paragraph style is
    larger than a heading style. *)
Theorem X13_tag_map_levels p font_counts styles :
  _extract_fonts p true = Ok (font_counts, styles) →
  ∃ size_tag_map,
    _create_size_tag_map font_counts styles = Ok size_tag_map
    ∧ (∀ k, is_Some (size_tag_map !! k)
            ↔ ∃ span, span ∈ text_spans p ∧ k = _create_identifier span true)
    ∧ (∀ span, span ∈ text_spans p →
         size_tag_map !! _create_identifier span true = Some "<p>"
         ∨ ∃ level, 1 ≤ level < distinct_styles p
                    ∧ size_tag_map !! _create_identifier span true
                      = Some (heading_tag_of level))
    ∧ (∀ span1 span2 level1 level2,
         span1 ∈ text_spans p → span2 ∈ text_spans p →
         size_tag_map !! _create_identifier span1 true
         = Some (heading_tag_of level1) →
         size_tag_map !! _create_identifier span2 true
         = Some (heading_tag_of level2) →
         ((size span1 > size span2)%Z → level1 < level2)
         ∧ (level1 = level2 → triple_of span1 = triple_of span2))
    ∧ (∀ span level,
         span ∈ text_spans p →
         size_tag_map !! _create_identifier span true
         = Some (heading_tag_of (S (S level))) →
         ∃ span', span' ∈ text_spans p
                  ∧ size_tag_map !! _create_identifier span' true
                    = Some (heading_tag_of (S level)))
    ∧ (∀ span1 span2 level,
         span1 ∈ text_spans p → span2 ∈ text_spans p →
         size_tag_map !! _create_identifier span1 true = Some "<p>" →
         size_tag_map !! _create_identifier span2 true
         = Some (heading_tag_of level) →
         (size span1 ≤ size span2)%Z).
Proof.
  intros Hrun. pose proof (extract_fonts_Ok_inv _ _ _ Hrun) as Hne.
  destruct (page_levels p Hne)
    as (fc & st & tm & d & L & Hext & Htm & Hlen & Hss & Hmem & Hd & Hlook
        & Hkeys).
  rewrite Hrun in Hext. injection Hext as <- <-. exists tm.
  change (λ span, _create_identifier span true)
    with (λ span, identifier3 (triple_of span)) in *.
  assert (∀ span, span ∈ text_spans p →
            ∃ i, L !! i = Some (triple_of span)
                 ∧ tm !! _create_identifier span true
                   = Some (tag_for d (level_at d L i) (triple_of span)))
    as Hspan.
  { intros span Hin.
    assert (triple_of span ∈ L) as [i Hi]%list_elem_of_lookup
      by (apply Hmem; eauto).
    exists i. split; [done|]. apply (Hlook i _ Hi). }
  split_and!; [done| | | | |].
  - intros k. split.
    + intros (t & (span & Hin & <-)%Hmem & ->)%Hkeys. by exists span.
    + intros (span & (i & _ & Hi)%Hspan & ->). by rewrite Hi.
  - intros span (i & Hi & ->)%Hspan. unfold tag_for. case_decide as Ht.
    + right. exists (level_at d L i). split; [|done].
      rewrite <-Hlen. by apply (level_at_bound d L i (triple_of span)).
    + by left.
  - intros span1 span2 level1 level2
      (i1 & Hi1 & ->)%Hspan (i2 & Hi2 & ->)%Hspan
      [= [Ht1 <-]%tag_for_heading] [= [Ht2 <-]%tag_for_heading].
    split.
    + intros Hsize. destruct (lt_eq_lt_dec i1 i2) as [[Hlt| ->]|Hgt].
      * by apply (level_at_lt d L i1 i2 (triple_of span1)).
      * assert (triple_of span1 = triple_of span2) as Heq by congruence.
        apply (f_equal (λ t, t.1.1)) in Heq. cbn in Heq. lia.
      * pose proof (StronglySorted_lookup_lt _ _ _ _ _ _ Hss Hgt Hi2 Hi1)
          as Hbefore.
        unfold style_before in Hbefore. cbn in Hbefore. lia.
    + intros Heq. destruct (lt_eq_lt_dec i1 i2) as [[Hlt| ->]|Hgt].
      * pose proof (level_at_lt d L i1 i2 _ Hlt Hi1 Ht1). lia.
      * congruence.
      * pose proof (level_at_lt d L i2 i1 _ Hgt Hi2 Ht2). lia.
  - intros span level (i & Hi & ->)%Hspan [= [Ht Hlevel]%tag_for_heading].
    apply level_at_pred in Hlevel as (j & t' & Hj & Ht' & Hlevel).
    assert (t' ∈ L) as (span' & Hin' & <-)%Hmem
      by (by eapply list_elem_of_lookup_2).
    exists span'. split; [done|].
    change (_create_identifier span' true) with (identifier3 (triple_of span')).
    rewrite (Hlook j _ Hj). f_equal. by apply tag_for_heading.
  - intros span1 span2 level (i1 & Hi1 & ->)%Hspan (i2 & Hi2 & ->)%Hspan
      [= Ht1%tag_for_paragraph] [= [Ht2 _]%tag_for_heading].
    unfold heading_style in Ht1, Ht2. cbn in Ht1, Ht2. lia.
Qed.

Lemma X13_witness :
  _extract_fonts titled_page true = Ok titled_page_catalog
  ∧ ∃ size_tag_map,
      _create_size_tag_map titled_page_catalog.1 titled_page_catalog.2
      = Ok size_tag_map
      ∧ (∀ k, is_Some (size_tag_map !! k)
              ↔ ∃ span, span ∈ text_spans titled_page
                        ∧ k = _create_identifier span true)
      ∧ (∀ span, span ∈ text_spans titled_page →
           size_tag_map !! _create_identifier span true = Some "<p>"
           ∨ ∃ level, 1 ≤ level < distinct_styles titled_page
                      ∧ size_tag_map !! _create_identifier span true
                        = Some (heading_tag_of level))
      ∧ (∀ span1 span2 level1 level2,
           span1 ∈ text_spans titled_page → span2 ∈ text_spans titled_page →
           size_tag_map !! _create_identifier span1 true
           = Some (heading_tag_of level1) →
           size_tag_map !! _create_identifier span2 true
           = Some (heading_tag_of level2) →
           ((size span1 > size span2)%Z → level1 < level2)
           ∧ (level1 = level2 → triple_of span1 = triple_of span2))
      ∧ (∀ span level,
           span ∈ text_spans titled_page →
           size_tag_map !! _create_identifier span true
           = Some (heading_tag_of (S (S level))) →
           ∃ span', span' ∈ text_spans titled_page
                    ∧ size_tag_map !! _create_identifier span' true
                      = Some (heading_tag_of (S level)))
      ∧ (∀ span1 span2 level,
           span1 ∈ text_spans titled_page → span2 ∈ text_spans titled_page →
           size_tag_map !! _create_identifier span1 true = Some "<p>" →
           size_tag_map !! _create_identifier span2 true
           = Some (heading_tag_of level) →
           (size span1 ≤ size span2)%Z).
Proof.
  split; [vm_compute; reflexivity|].
  apply (X13_tag_map_levels titled_page titled_page_catalog.1
           titled_page_catalog.2).
  vm_compute; reflexivity.
Defined.
End tag_map_levels.
(* ===================================================================== *)
(** * The fragments of a document *)
(* ===================================================================== *)

Section document_fragments.
Import Py PDFParser Re TagSpec SegmenterSpec FragmentSpec DocumentSpec.

(** Every run comes from a visible span and has a non-empty body. *)
Lemma segments_runs (all : list Span) spans :
  (∀ span, span ∈ spans → span ∈ all) →
  ∀ cur,
    (∀ run, cur = Some run →
       run.2 ≠ "" ∧ ∃ span, span ∈ all ∧ run.1 = identifier_of span) →
    Forall (λ run, run.2 ≠ ""
                   ∧ ∃ span, span ∈ all ∧ run.1 = identifier_of span)
           (segments cur spans).
Proof.
  induction spans as [|span spans IH]; intros Hsub cur Hcur; cbn [segments].
  { destruct cur as [run|]; [|constructor]. constructor; [|constructor]. auto. }
  assert (∀ s, s ∈ spans → s ∈ all) as Hsub' by (intros s Hs; apply Hsub; by right).
  assert (span ∈ all) as Hspan by (apply Hsub; by left).
  destruct (visible span) eqn:Hvis; [|by apply IH].
  assert (text span ≠ "") as Htext.
  { apply visible_truthy in Hvis. by destruct (text span). }
  destruct cur as [[identifier body]|].
  - destruct (Hcur _ eq_refl) as [Hbody Hid]. case_decide.
    + apply IH; [done|]. intros run [= <-]. split; [|done].
      cbn [snd]. by destruct body.
    + constructor; [done|]. apply IH; [done|]. intros run [= <-]. eauto.
  - apply IH; [done|]. intros run [= <-]. eauto.
Qed.

Lemma block_spans_text_spans p block span :
  block ∈ blocks p → block_type block = 0%Z → span ∈ block_spans block →
  span ∈ text_spans p.
Proof.
  intros Hblock Htype Hspan. unfold text_spans. apply list_elem_of_bind.
  exists block. split; [|done]. by rewrite decide_True by done.
Qed.

Lemma tagged_paragraph body : "<p>" +:+ body +:+ "</p>" = paragraph body.
Proof. done. Qed.

Lemma tagged_heading level body :
  heading_tag_of level +:+ body +:+ "</h" +:+ pretty level +:+ ">"
  = heading level body.
Proof. unfold heading_tag_of, heading. by rewrite !string_app_assoc. Qed.

(** The fragments of a page segmented with the page's own tag map. *)
Lemma page_fragments p font_counts styles size_tag_map content :
  _extract_fonts p true = Ok (font_counts, styles) →
  _create_size_tag_map font_counts styles = Ok size_tag_map →
  _extract_page_content p size_tag_map = Ok content →
  Forall (λ fragments,
            fragments ≠ []
            ∧ Forall (page_fragment (distinct_styles p)) fragments)
         content.
Proof.
  intros Hext Htm Hcontent.
  pose proof (extract_fonts_Ok_inv _ _ _ Hext) as Hne.
  destruct (page_levels p Hne)
    as (fc & st & tm & d & L & Hext' & Htm' & Hlen & _ & Hmem & Hd & Hlook & _).
  rewrite Hext in Hext'. injection Hext' as <- <-.
  rewrite Htm in Htm'. injection Htm' as <-.
  apply page_blocks_spec in Hcontent as (per_block & Hall & ->). cbn [app].
  apply Forall_forall. intros fragments [Hnil Hin]%list_elem_of_filter.
  split; [done|].
  apply list_elem_of_lookup in Hin as [n Hn].
  destruct (Forall2_lookup_r _ _ _ _ _ Hall Hn) as (block & Hblock & Hrun).
  apply list_elem_of_lookup_2, list_elem_of_filter in Hblock as [Htype Hblock].
  apply process_block_tagged in Hrun.
  eapply Forall2_Forall_l; [exact Hrun|].
  eapply Forall_impl;
    [apply (segments_runs (text_spans p) (block_spans block));
       [intros span; by apply block_spans_text_spans|done]|].
  intros [identifier body] (Hbody & span & Hspan & Hid) fragment Htagged.
  cbn [fst snd] in *. subst identifier.
  assert (triple_of span ∈ L) as [i Hi]%list_elem_of_lookup
    by (apply Hmem; eauto).
  unfold tagged_as in Htagged. cbn [fst snd] in Htagged.
  change (identifier_of span) with (identifier3 (triple_of span)) in Htagged.
  rewrite (Hlook i _ Hi) in Htagged. destruct Htagged as (closing & Hclose & ->).
  exists body. split; [done|]. revert Hclose. unfold tag_for.
  case_decide as Ht.
  - change ("<h" +:+ pretty ?n +:+ ">") with (heading_tag_of n).
    unfold heading_tag_of at 1. rewrite get_closing_tag_heading.
    intros [= <-]. right. exists (level_at d L i). split.
    + rewrite <-Hlen. by apply (level_at_bound d L i (triple_of span)).
    + apply tagged_heading.
  - rewrite get_closing_tag_p. intros [= <-]. by left.
Qed.

(** One entry per page, each segmented with the tag map of its page. *)
Lemma process_pages_inv doc : ∀ html_pages_list out,
  for_each process_page doc html_pages_list = Ok out →
  ∃ new,
    out = html_pages_list ++ new
    ∧ Forall2 (λ p page_data,
                 page page_data = number p
                 ∧ ∃ font_counts styles size_tag_map,
                     _extract_fonts p true = Ok (font_counts, styles)
                     ∧ _create_size_tag_map font_counts styles
                       = Ok size_tag_map
                     ∧ _extract_page_content p size_tag_map
                       = Ok (content page_data))
              doc new.
Proof.
  induction doc as [|p doc IH]; intros acc out; cbn [for_each].
  { intros [= <-]. exists []. by rewrite app_nil_r. }
  change (Py.bind ?r ?k) with (r ≫= k).
  set (rest := for_each process_page doc) in *.
  unfold process_page.
  destruct (_extract_fonts p true) as [[fc styles]|e] eqn:Hext;
    [|by rewrite !bind_Raise].
  rewrite bind_Ok.
  destruct (_create_size_tag_map fc styles) as [tm|e] eqn:Htm;
    [|by rewrite !bind_Raise].
  rewrite bind_Ok.
  destruct (_extract_page_content p tm) as [c|e] eqn:Hc;
    [|by rewrite !bind_Raise].
  rewrite !bind_Ok. intros (new & -> & Hall)%IH.
  exists ({| page := number p; content := c |} :: new).
  rewrite <-(assoc_L (++)). split; [done|].
  constructor; [|done]. split; [done|]. by exists fc, styles, tm.
Qed.

Lemma flatten_list_elem nested_list item :
  item ∈ HTMLToJsonConverter._flatten_list nested_list
  ↔ ∃ sublist, sublist ∈ nested_list ∧ item ∈ sublist.
Proof.
  unfold HTMLToJsonConverter._flatten_list. rewrite list_elem_of_bind.
  split; intros (sublist & H1 & H2); exists sublist.
  - apply list_elem_of_bind in H1 as (item' & ->%list_elem_of_singleton & ?).
    done.
  - split; [|done]. apply list_elem_of_bind. exists item.
    split; [by apply list_elem_of_singleton|done].
Qed.

(** X14. When [process_document] returns, its entries are those of the
    pages in order, each with the number of its page; no fragment list of an
    entry is empty, and every fragment is a non-empty text between [<p>] and
    [</p>], or between [<hN>] and [</hN>] with N from 1 to one less than the
    number of distinct styles of its page: no span text is emitted without
    a tag. *)
Theorem X14_document_fragments (doc : list Page) out :
  process_document doc = Ok out →
  Forall2 (λ p page_data,
             page page_data = number p
             ∧ Forall (λ fragments,
                         fragments ≠ []
                         ∧ Forall (page_fragment (distinct_styles p)) fragments)
                      (content page_data))
          doc out.
Proof.
  intros (new & -> & Hall)%process_pages_inv. cbn [app].
  eapply Forall2_impl; [exact Hall|].
  intros p page_data (Hpage & fc & styles & tm & Hext & Htm & Hcontent).
  split; [done|]. by eapply page_fragments.
Qed.

Lemma X14_witness :
  process_document [titled_page] = Ok [titled_page_html]
  ∧ Forall2 (λ p page_data,
               page page_data = number p
               ∧ Forall (λ fragments,
                           fragments ≠ []
                           ∧ Forall (page_fragment (distinct_styles p))
                                    fragments)
                        (content page_data))
            [titled_page] [titled_page_html].
Proof.
  split; [vm_compute; reflexivity|].
  apply (X14_document_fragments [titled_page] [titled_page_html]).
  vm_compute; reflexivity.
Defined.

(** X15. On a page with at most ten distinct styles, every fragment
    [process_document] emits is matched by one of the two patterns of the
    page structurer: [<h\d>] for the headings, which then have one digit,
    and [<p>] for the paragraphs, which the heading pattern does not
    match. *)
Theorem X15_fragments_recognised (doc : list Page) out :
  process_document doc = Ok out →
  Forall2 (λ p page_data,
             distinct_styles p ≤ 10 →
             Forall (λ item,
                       re_match heading_open item = true
                       ∨ (re_match heading_open item = false
                          ∧ re_match paragraph_open item = true))
                    (HTMLToJsonConverter._flatten_list (content page_data)))
          doc out.
Proof.
  intros (new & -> & Hall)%process_pages_inv. cbn [app].
  eapply Forall2_impl; [exact Hall|].
  intros p page_data (_ & fc & styles & tm & Hext & Htm & Hcontent) Hstyles.
  pose proof (page_fragments _ _ _ _ _ Hext Htm Hcontent) as Hfragments.
  apply Forall_forall. intros item (sublist & Hsub & Hitem)%flatten_list_elem.
  rewrite Forall_forall in Hfragments.
  destruct (Hfragments _ Hsub) as [_ Hall'].
  rewrite Forall_forall in Hall'.
  destruct (Hall' _ Hitem) as (body & _ & [->|(level & Hlevel & ->)]).
  - right. apply paragraph_not_heading.
  - left. apply heading_recognised. lia.
Qed.

Lemma X15_witness :
  process_document [titled_page] = Ok [titled_page_html]
  ∧ Forall2 (λ p page_data,
               distinct_styles p ≤ 10 →
               Forall (λ item,
                         re_match heading_open item = true
                         ∨ (re_match heading_open item = false
                            ∧ re_match paragraph_open item = true))
                      (HTMLToJsonConverter._flatten_list (content page_data)))
            [titled_page] [titled_page_html].
Proof.
  split; [vm_compute; reflexivity|].
  apply (X15_fragments_recognised [titled_page] [titled_page_html]).
  vm_compute; reflexivity.
Defined.
End document_fragments.
(* ===================================================================== *)
(** * From the spans of a page to its sections *)
(* ===================================================================== *)

Section page_round_trip.
Import Py Re HTMLToJsonConverter PDFParser.
Import TagSpec SegmenterSpec FragmentSpec DocumentSpec.

Lemma bind_singleton_id {A} (l : list A) : (x ← l; [x]) = l.
Proof. induction l as [|x l IH]; [done|]. cbn. by rewrite IH. Qed.

Lemma flatten_list_concat nested_list :
  _flatten_list nested_list = concat nested_list.
Proof.
  unfold _flatten_list. induction nested_list as [|sublist rest IH]; [done|].
  cbn [mbind list_bind concat]. by rewrite bind_singleton_id, IH.
Qed.

Lemma concat_filter_nonempty {A} (ls : list (list A)) :
  concat (filter (λ l, l ≠ []) ls) = concat ls.
Proof.
  induction ls as [|l ls IH]; [done|]. rewrite filter_cons.
  destruct l as [|x l].
  - by rewrite decide_False by (by intros ?).
  - rewrite decide_True by done. cbn [concat]. by rewrite IH.
Qed.

Lemma Forall2_and_r {A B} (P : A → B → Prop) (Q : B → Prop) l k :
  Forall2 P l k → Forall Q k → Forall2 (λ x y, P x y ∧ Q y) l k.
Proof.
  induction 1 as [|x y l k Hxy Hlk IH]; [constructor|].
  intros [Hy Hk]%Forall_cons. constructor; auto.
Qed.

(** The fragments of a page are the renderings of its runs, in order. *)
Lemma page_content_tagged p size_tag_map content :
  _extract_page_content p size_tag_map = Ok content →
  Forall2 (tagged_as size_tag_map) (_flatten_list content) (page_runs p).
Proof.
  intros (per_block & Hall & ->)%page_blocks_spec. cbn [app].
  rewrite flatten_list_concat, concat_filter_nonempty. unfold page_runs.
  induction Hall as [|block fragments text_blocks per_block Hrun Hall IH];
    [constructor|].
  cbn [concat mbind list_bind]. apply Forall2_app; [|done].
  by apply process_block_tagged.
Qed.

Lemma page_runs_inv p :
  Forall (λ run, run.2 ≠ ""
                 ∧ ∃ span, span ∈ text_spans p ∧ run.1 = identifier_of span)
         (page_runs p).
Proof.
  apply Forall_forall. intros run.
  intros (block & Hrun & [Htype Hblock]%list_elem_of_filter)%list_elem_of_bind.
  revert run Hrun. apply Forall_forall.
  apply (segments_runs (text_spans p) (block_spans block)); [|done].
  intros span. by apply block_spans_text_spans.
Qed.

Lemma tag_free_app a b : tag_free a → tag_free b → tag_free (a +:+ b).
Proof. unfold tag_free. rewrite contains_app. by intros -> ->. Qed.

Lemma segments_tag_free spans :
  Forall (λ span, visible span = true → tag_free (text span)) spans →
  ∀ cur, (∀ run, cur = Some run → tag_free run.2) →
    Forall (λ run, tag_free run.2) (segments cur spans).
Proof.
  induction spans as [|span spans IH]; intros Hfree cur Hcur; cbn [segments].
  { destruct cur as [run|]; [|constructor]. constructor; [|constructor]. auto. }
  apply Forall_cons in Hfree as [Hspan Hfree].
  destruct (visible span) eqn:Hvis; [|by apply IH].
  specialize (Hspan eq_refl).
  destruct cur as [[identifier body]|].
  - pose proof (Hcur _ eq_refl) as Hbody. cbn [snd] in Hbody. case_decide.
    + apply IH; [done|]. intros run [= <-]. cbn [snd].
      apply tag_free_app; [done|]. by apply (tag_free_app " ").
    + constructor; [done|]. apply IH; [done|]. by intros run [= <-].
  - apply IH; [done|]. by intros run [= <-].
Qed.

Lemma page_runs_tag_free p :
  Forall (λ span, visible span = true → tag_free (text span)) (text_spans p) →
  Forall (λ run, tag_free run.2) (page_runs p).
Proof.
  intros Hfree. apply Forall_forall. intros run.
  intros (block & Hrun & [Htype Hblock]%list_elem_of_filter)%list_elem_of_bind.
  revert run Hrun. apply Forall_forall. apply segments_tag_free; [|done].
  apply Forall_forall. intros span Hspan. rewrite Forall_forall in Hfree.
  by apply Hfree, (block_spans_text_spans p block).
Qed.

(** Each fragment of a page is its run between the tags of the run's
    style. *)
Lemma page_fragments_runs p font_counts styles size_tag_map content :
  _extract_fonts p true = Ok (font_counts, styles) →
  _create_size_tag_map font_counts styles = Ok size_tag_map →
  _extract_page_content p size_tag_map = Ok content →
  Forall2 (λ fragment run,
             fragment = paragraph run.2
             ∨ ∃ level, 1 ≤ level < distinct_styles p
                        ∧ fragment = heading level run.2)
          (_flatten_list content) (page_runs p).
Proof.
  intros Hext Htm Hcontent.
  pose proof (extract_fonts_Ok_inv _ _ _ Hext) as Hne.
  destruct (page_levels p Hne)
    as (fc & st & tm & d & L & Hext' & Htm' & Hlen & _ & Hmem & Hd & Hlook & _).
  rewrite Hext in Hext'. injection Hext' as <- <-.
  rewrite Htm in Htm'. injection Htm' as <-.
  eapply Forall2_impl;
    [apply (Forall2_and_r _ _ _ _ (page_content_tagged _ _ _ Hcontent)
              (page_runs_inv p))|].
  intros fragment [identifier body] [Htagged (_ & span & Hspan & Hid)].
  cbn [fst snd] in *. subst identifier.
  assert (triple_of span ∈ L) as [i Hi]%list_elem_of_lookup
    by (apply Hmem; eauto).
  unfold tagged_as in Htagged. cbn [fst snd] in Htagged.
  change (identifier_of span) with (identifier3 (triple_of span)) in Htagged.
  rewrite (Hlook i _ Hi) in Htagged. destruct Htagged as (closing & Hclose & ->).
  revert Hclose. unfold tag_for. case_decide as Ht.
  - change ("<h" +:+ pretty ?n +:+ ">") with (heading_tag_of n).
    unfold heading_tag_of at 1. rewrite get_closing_tag_heading.
    intros [= <-]. right. exists (level_at d L i). split.
    + rewrite <-Hlen. by apply (level_at_bound d L i (triple_of span)).
    + apply tagged_heading.
  - rewrite get_closing_tag_p. intros [= <-]. by left.
Qed.

(** A list of paragraphs and one-digit headings is a lead followed by
    headed groups. *)
Lemma fragments_grouping fragments (runs : list (string * string)) :
  Forall2 (λ fragment run,
             run.2 ≠ "" ∧ tag_free run.2
             ∧ (fragment = paragraph run.2
                ∨ ∃ level, 1 ≤ level ≤ 9 ∧ fragment = heading level run.2))
          fragments runs →
  ∃ lead groups,
    well_formed_lead lead
    ∧ Forall well_formed_group groups
    ∧ fragments = (paragraph <$> lead) ++ (g ← groups; group_fragments g)
    ∧ lead ++ (g ← groups; g.1.2 :: g.2) = runs.*2.
Proof.
  induction 1 as [|fragment run fragments runs (Hne & Hfree & Hshape) _ IH].
  { exists [], []. split_and!; [by split|done..]. }
  destruct IH as (lead & groups & [Hlead Hhead] & Hgroups & -> & Hruns).
  destruct Hshape as [->|(level & Hlevel & ->)].
  - exists (run.2 :: lead), groups. split_and!; [|done|done|].
    + split; [by constructor|]. cbn [head]. by intros [= ?].
    + cbn [app fmap list_fmap]. by rewrite <-Hruns.
  - exists [], ((level, run.2, lead) :: groups). split_and!.
    + by split.
    + constructor; [|done]. unfold well_formed_group. cbn [fst snd]. done.
    + done.
    + cbn [app mbind list_bind fst snd fmap list_fmap].
      by rewrite <-Hruns.
Qed.

(** X16. From spans to sections.  On a page with at most ten distinct
    styles whose visible span texts contain no [<], the page structurer,
    run on the entry [process_document] returns for the page, yields the
    sections of a lead and of headed groups whose titles and paragraphs are,
    in order, exactly the joined texts of the runs of the page's text
    blocks: no text is lost, added or reordered between the spans and the
    sections of a page. *)
Theorem X16_page_text_reaches_sections (doc : list Page) out :
  process_document doc = Ok out →
  Forall2 (λ p page_data,
             distinct_styles p ≤ 10 →
             Forall (λ span, visible span = true → tag_free (text span))
                    (text_spans p) →
             ∃ lead groups,
               _process_page_content page_data
               = lead_section (number p) lead
                 ++ (group_section (number p) <$> groups)
               ∧ lead ++ (g ← groups; g.1.2 :: g.2) = (page_runs p).*2)
          doc out.
Proof.
  intros (new & -> & Hall)%process_pages_inv. cbn [app].
  eapply Forall2_impl; [exact Hall|].
  intros p page_data (Hpage & fc & styles & tm & Hext & Htm & Hcontent)
    Hstyles Hfree.
  pose proof (page_fragments_runs _ _ _ _ _ Hext Htm Hcontent) as Hshape.
  pose proof (Forall2_and_r _ _ _ _
                (Forall2_and_r _ _ _ _ Hshape (page_runs_inv p))
                (page_runs_tag_free p Hfree)) as Hruns.
  destruct (fragments_grouping (_flatten_list (content page_data))
              (page_runs p))
    as (lead & groups & Hlead & Hgroups & Hfragments & Hbodies).
  { eapply Forall2_impl; [exact Hruns|].
    intros fragment run [[Hf [Hne _]] Htf]. split_and!; [done..|].
    destruct Hf as [->|(level & Hlevel & ->)]; [by left|].
    right. exists level. split; [lia|done]. }
  exists lead, groups. split; [|done]. rewrite <-Hpage.
  by apply structurer_on_groups.
Qed.

Lemma X16_witness :
  process_document [titled_page] = Ok [titled_page_html]
  ∧ Forall2 (λ p page_data,
               distinct_styles p ≤ 10 →
               Forall (λ span, visible span = true → tag_free (text span))
                      (text_spans p) →
               ∃ lead groups,
                 _process_page_content page_data
                 = lead_section (number p) lead
                   ++ (group_section (number p) <$> groups)
                 ∧ lead ++ (g ← groups; g.1.2 :: g.2) = (page_runs p).*2)
            [titled_page] [titled_page_html].
Proof.
  split; [vm_compute; reflexivity|].
  apply (X16_page_text_reaches_sections [titled_page] [titled_page_html]).
  vm_compute; reflexivity.
Defined.
End page_round_trip.
(* ===================================================================== *)
(** * Stamping twice, and the whole conversion *)
(* ===================================================================== *)

Section stamping.
Import Py HTMLToJsonConverter MetadataEnhancedJsonConverter StamperSpec.

Lemma enhance_entry_lookup self entry k :
  enhance_entry self entry !! k
  = if decide (k = "link") then Some (JStr (base_url self +:+ file_name self))
    else if decide (k = "document") then Some (document self)
    else if decide (k = "product") then Some (product self)
    else if decide (k = "file") then Some (JStr (file_name self))
    else entry !! k.
Proof.
  unfold enhance_entry.
  destruct (decide (k = "link")) as [->|Hlink];
    [by rewrite lookup_insert_eq|rewrite lookup_insert_ne by done].
  destruct (decide (k = "document")) as [->|Hdocument];
    [by rewrite lookup_insert_eq|rewrite lookup_insert_ne by done].
  destruct (decide (k = "product")) as [->|Hproduct];
    [by rewrite lookup_insert_eq|rewrite lookup_insert_ne by done].
  destruct (decide (k = "file")) as [->|Hfile];
    [by rewrite lookup_insert_eq|by rewrite lookup_insert_ne by done].
Qed.

Lemma enhance_entry_idemp self entry :
  enhance_entry self (enhance_entry self entry) = enhance_entry self entry.
Proof.
  apply map_eq. intros k. rewrite !enhance_entry_lookup.
  repeat case_decide; done.
Qed.

Lemma to_object_inj : Inj (=) (=) to_object.
Proof.
  intros [t1 x1 p1] [t2 x2 p2] Heq.
  pose proof (f_equal (.!! "title") Heq) as Ht.
  pose proof (f_equal (.!! "text") Heq) as Hx.
  pose proof (f_equal (.!! "page") Heq) as Hp.
  unfold to_object in Ht, Hx, Hp. cbn [title text page] in Ht, Hx, Hp.
  repeat (rewrite lookup_insert_eq in Ht
          || rewrite lookup_insert_ne in Ht by done).
  repeat (rewrite lookup_insert_eq in Hx
          || rewrite lookup_insert_ne in Hx by done).
  repeat (rewrite lookup_insert_eq in Hp
          || rewrite lookup_insert_ne in Hp by done).
  congruence.
Qed.

Lemma to_object_unstamped e k : k ∈ stamped_fields → to_object e !! k = None.
Proof.
  unfold stamped_fields, to_object.
  rewrite !elem_of_cons, elem_of_nil. intros [->|[->|[->|[->|[]]]]]; done.
Qed.

(** X17. Stamping is idempotent: a second [enhance_json], hence a second
    call of [get_enhanced_json] on the same object, changes nothing.  Two
    objects are stamped alike exactly when they agree outside the four
    stamped fields, whose earlier values are overwritten; so the objects of
    two different sections stay different. *)
Theorem X17_stamping_is_idempotent (self : state) :
  enhance_json (enhance_json self) = enhance_json self
  ∧ get_enhanced_json (enhance_json self) = get_enhanced_json self
  ∧ (∀ entry1 entry2,
       enhance_entry self entry1 = enhance_entry self entry2
       ↔ ∀ k, k ∉ stamped_fields → entry1 !! k = entry2 !! k)
  ∧ (∀ section1 section2,
       enhance_entry self (to_object section1)
       = enhance_entry self (to_object section2) →
       section1 = section2).
Proof.
  assert (enhance_json (enhance_json self) = enhance_json self) as Hidemp.
  { unfold enhance_json. cbn [json_data file_name base_url product document].
    f_equal. rewrite <-list_fmap_compose. apply list_fmap_ext.
    intros i entry _. unfold compose.
    etrans; [|apply (enhance_entry_idemp self)]. done. }
  assert (∀ entry1 entry2,
            enhance_entry self entry1 = enhance_entry self entry2
            ↔ ∀ k, k ∉ stamped_fields → entry1 !! k = entry2 !! k) as Hagree.
  { intros entry1 entry2. split.
    - intros Heq k Hk.
      rewrite <-(enhance_entry_frame self entry1 k Hk),
              <-(enhance_entry_frame self entry2 k Hk). by rewrite Heq.
    - intros Hout. apply map_eq. intros k. rewrite !enhance_entry_lookup.
      destruct (decide (k = "link")) as [|Hlink]; [done|].
      destruct (decide (k = "document")) as [|Hdocument]; [done|].
      destruct (decide (k = "product")) as [|Hproduct]; [done|].
      destruct (decide (k = "file")) as [|Hfile]; [done|].
      apply Hout.
      unfold stamped_fields. rewrite !elem_of_cons, elem_of_nil. tauto. }
  split_and!; [done| |done|].
  - unfold get_enhanced_json. by rewrite Hidemp.
  - intros section1 section2 Heq. apply to_object_inj, map_eq. intros k.
    destruct (decide (k ∈ stamped_fields)) as [Hk|Hk].
    + by rewrite !to_object_unstamped.
    + by apply Hagree.
Qed.
End stamping.

Section conversion.
Import Py PDFParser HTMLToJsonConverter MetadataEnhancedJsonConverter.
Import StamperSpec SectionSpec ConversionSpec PDFToJsonConverterApp.

(** X18. [process_pdf_to_json] always ends, and returns [None] exactly when
    some page of the document has no span in a text block: one such page
    loses the whole document.  Otherwise it returns, in order, one object per
    section of the repaired list that [process_list_to_json] computes from
    the output of [process_document]: the section's own object with the base
    name of the upload as [file], the base URL followed by it as [link], and
    the title of the first section as [product] and [document].  So there
    is no object for a document without pages, and every object has the
    number of a page of the document and a title and a text that are not
    both empty. *)
Theorem X18_conversion_all_or_nothing (doc : list Page)
    (name base_url : string) :
  ∃ r, process_pdf_to_json doc name base_url = Some r
    ∧ (r = None ↔ ∃ p, p ∈ doc ∧ text_spans p = [])
    ∧ ∀ out, r = Some out →
        (∃ all_pages_data sections,
           process_document doc = Ok all_pages_data
           ∧ process_list_to_json all_pages_data = Some (Ok sections)
           ∧ out = stamped_object (basename name) base_url
                     (first_title sections) <$> sections)
        ∧ (doc = [] → out = [])
        ∧ Forall (λ entry,
             (∃ pg, entry !! "page" = Some (JInt pg) ∧ pg ∈ number <$> doc)
             ∧ (∃ t x, entry !! "title" = Some (JStr t)
                       ∧ entry !! "text" = Some (JStr x)
                       ∧ (t ≠ "" ∨ x ≠ ""))
             ∧ entry !! "file" = Some (JStr (basename name))
             ∧ entry !! "link" = Some (JStr (base_url +:+ basename name))
             ∧ entry !! "product" = head out ≫= (.!! "title")
             ∧ entry !! "document" = head out ≫= (.!! "title")) out.
Proof.
  unfold process_pdf_to_json.
  destruct (process_pages_spec doc [])
    as [(pages & Hrun & Hnum & Hall)|(p & Hrun & Hp & Hnil)];
    cbn [app] in Hrun; fold (process_document doc) in Hrun; rewrite Hrun.
  2: { exists None. split_and!; [done| |done]. split; [eauto|done]. }
  destruct (repaired_sections_inv pages)
    as (sections & Hsec & Hinf & _ & _ & Hpg & _).
  rewrite Hsec. eexists. split; [done|]. split.
  { split; [done|]. intros (p & Hp & Hnil).
    rewrite Forall_forall in Hall. by apply Hall in Hp. }
  intros out [= <-]. split_and!.
  - exists pages, sections. split_and!; [done..|].
    unfold get_enhanced_json, enhance_json. cbn [json_data].
    rewrite init_json_data, <-list_fmap_compose. apply list_fmap_ext.
    intros i e _. unfold compose. by rewrite enhance_entry_init.
  - intros ->. apply fmap_nil_inv in Hnum as ->.
    vm_compute in Hsec. by injection Hsec as <-.
  - unfold get_enhanced_json, enhance_json. cbn [json_data].
    rewrite init_json_data. rewrite <-list_fmap_compose.
    assert (head (enhance_entry (init (to_object <$> sections) name base_url)
                    ∘ to_object <$> sections) ≫= (.!! "title")
            = match sections with
              | [] => None
              | _ => Some (JStr (first_title sections))
              end) as ->.
    { destruct sections as [|first rest]; [done|].
      cbn [fmap list_fmap head mbind option_bind compose].
      rewrite enhance_entry_frame; [done|].
      unfold stamped_fields. rewrite !elem_of_cons, elem_of_nil.
      intros [?|[?|[?|[?|[]]]]]; done. }
    apply Forall_fmap, Forall_forall. intros e He. unfold compose.
    rewrite Forall_forall in Hinf, Hpg.
    rewrite enhance_entry_init. split_and!.
    + exists (page e). split; [done|]. rewrite <-Hnum. by apply Hpg.
    + exists (title e), (text e). split_and!; [done..|]. by apply Hinf.
    + done.
    + done.
    + by destruct sections; [apply elem_of_nil in He|].
    + by destruct sections; [apply elem_of_nil in He|].
Qed.
End conversion.
